(** * The editor service of the renderer: a shallow embedding

    This development embeds [src/renderer/services/editor.ts], the layer
    between the application and the Monaco editor widget, and states its
    specified properties over the embedding.

    JS strings are sequences of code units, written [list ascii] here;
    line and column numbers are JS numbers holding integers, written [Z].
    The widget (Monaco), the hook bus, the store and the toast service are
    collaborators of the file: each is given as a small executable model
    of the interface the file calls. *)

From Stdlib Require Import ZArith Ascii String List Sorted Lia Bool.
From stdpp Require Import base option list strings gmap.

Local Open Scope Z_scope.

(** ** JS strings *)

Abbreviation jsstring := (list ascii).

Definition str (s : string) : jsstring := list_ascii_of_string s.

Definition LF : ascii := "010"%char.
Definition CR : ascii := "013"%char.

(** [s.length] *)
Definition jslength (s : jsstring) : Z := Z.of_nat (length s).

(** [s.substring(a, b)] for [0 <= a <= b]. *)
Definition substring (a b : nat) (s : jsstring) : jsstring :=
  take (b - a)%nat (drop a s).

(** ** Monaco: positions, ranges and the text model

    Monaco is a library outside the repository.  This module gives the
    part of its interface the service calls: positions and ranges, the
    text model with its line reads, which throw on an illegal line
    number, and the validation of positions and ranges, which clamps
    them into the buffer before a read of a range or an edit. *)

Module Monaco.

Record Position := mkPosition { lineNumber : Z; column : Z }.

Record Range := mkRange {
  startLineNumber : Z; startColumn : Z;
  endLineNumber : Z; endColumn : Z }.

(** [new Range(a, b, c, d)]: the constructor orders its two ends. *)
Definition newRange (sl sc el ec : Z) : Range :=
  if (el <? sl) || ((sl =? el) && (ec <? sc))
  then mkRange el ec sl sc
  else mkRange sl sc el ec.

Definition getStartPosition (r : Range) : Position :=
  mkPosition (startLineNumber r) (startColumn r).
Definition getEndPosition (r : Range) : Position :=
  mkPosition (endLineNumber r) (endColumn r).

(** Lexicographic order on (line, column). *)
Definition isBefore (p q : Position) : bool :=
  (lineNumber p <? lineNumber q)
  || ((lineNumber p =? lineNumber q) && (column p <? column q)).

Definition isBeforeOrEqual (p q : Position) : bool :=
  (lineNumber p <? lineNumber q)
  || ((lineNumber p =? lineNumber q) && (column p <=? column q)).

(** The selection: its anchor and its active end (the caret). *)
Record Selection := mkSelection {
  selectionStart : Position;
  position : Position }.

Definition selectionRange (s : Selection) : Range :=
  newRange (lineNumber (selectionStart s)) (column (selectionStart s))
           (lineNumber (position s)) (column (position s)).

Inductive EndOfLineSequence := EOL_LF | EOL_CRLF.

(** [EndOfLinePreference]: TextDefined = 0, LF = 1, CRLF = 2. *)
Inductive EndOfLinePreference := TextDefined | PreferLF | PreferCRLF.

(** [DefaultEndOfLine.LF], the number the source passes to [getValue]. *)
Definition DefaultEndOfLine_LF : Z := 1.

Definition eolPreference (n : Z) : EndOfLinePreference :=
  if n =? 1 then PreferLF else if n =? 2 then PreferCRLF else TextDefined.

Definition eolText (e : EndOfLineSequence) : jsstring :=
  match e with EOL_LF => [LF] | EOL_CRLF => [CR; LF] end.

(** The text model: its lines, none of which holds a line terminator,
    and the terminator the buffer stores between them. *)
Record TextModel := mkTextModel {
  lines : list jsstring;
  eol : EndOfLineSequence }.

Definition noTerminator (l : jsstring) : Prop := (LF ∉ l) ∧ (CR ∉ l).

(** A model always has at least one line. *)
Definition wfModel (m : TextModel) : Prop :=
  lines m ≠ [] ∧ Forall noTerminator (lines m).

(** Text handed to the model is cut at CRLF, CR and LF. *)
Fixpoint splitLines (s : jsstring) : list jsstring :=
  match s with
  | [] => [[]]
  | c :: rest =>
      if Ascii.eqb c LF then [] :: splitLines rest
      else if Ascii.eqb c CR then
        match rest with
        | c' :: rest' =>
            if Ascii.eqb c' LF then [] :: splitLines rest'
            else [] :: splitLines rest
        | [] => [] :: splitLines rest
        end
      else
        match splitLines rest with
        | l :: ls => (c :: l) :: ls
        | [] => [[c]]
        end
  end.

Fixpoint joinLines (sep : jsstring) (ls : list jsstring) : jsstring :=
  match ls with
  | [] => []
  | l :: ls' =>
      match ls' with
      | [] => l
      | _ :: _ => l ++ sep ++ joinLines sep ls'
      end
  end.

Definition getLineCount (m : TextModel) : Z := Z.of_nat (length (lines m)).

Definition validLine (m : TextModel) (n : Z) : bool :=
  (1 <=? n) && (n <=? getLineCount m).

(** The line at a number known to be valid. *)
Definition lineAt (m : TextModel) (n : Z) : jsstring :=
  default [] (lines m !! Z.to_nat (n - 1)).

(** [model.getLineContent(n)]: [None] stands for the error
    ['Illegal value for lineNumber'] the model throws. *)
Definition getLineContent (m : TextModel) (n : Z) : option jsstring :=
  if validLine m n then Some (lineAt m n) else None.

Definition getLineLength (m : TextModel) (n : Z) : option Z :=
  if validLine m n then Some (jslength (lineAt m n)) else None.

Definition getLineMaxColumn (m : TextModel) (n : Z) : Z :=
  jslength (lineAt m n) + 1.

(** [model.validatePosition]: clamps into the buffer. *)
Definition validatePosition (m : TextModel) (p : Position) : Position :=
  let l := lineNumber p in
  let c := column p in
  let count := getLineCount m in
  if l <? 1 then mkPosition 1 1
  else if count <? l then mkPosition count (getLineMaxColumn m count)
  else if c <=? 1 then mkPosition l 1
  else
    let maxColumn := getLineMaxColumn m l in
    if maxColumn <=? c then mkPosition l maxColumn
    else mkPosition l c.

Definition validateRange (m : TextModel) (r : Range) : Range :=
  let s := validatePosition m (getStartPosition r) in
  let e := validatePosition m (getEndPosition r) in
  newRange (lineNumber s) (column s) (lineNumber e) (column e).

Definition eolOf (m : TextModel) (p : EndOfLinePreference) : jsstring :=
  match p with
  | TextDefined => eolText (eol m)
  | PreferLF => [LF]
  | PreferCRLF => [CR; LF]
  end.

(** [model.getValue(eol)] *)
Definition getValue (m : TextModel) (p : EndOfLinePreference) : jsstring :=
  joinLines (eolOf m p) (lines m).

(** The lines covered by a validated range, cut at its two columns. *)
Definition linesInRange (m : TextModel) (r : Range) : list jsstring :=
  let sl := Z.to_nat (startLineNumber r - 1) in
  let el := Z.to_nat (endLineNumber r - 1) in
  let sc := Z.to_nat (startColumn r - 1) in
  let ec := Z.to_nat (endColumn r - 1) in
  if (sl =? el)%nat
  then [substring sc ec (lineAt m (startLineNumber r))]
  else drop sc (lineAt m (startLineNumber r))
         :: take (el - sl - 1)%nat (drop (S sl) (lines m))
         ++ [take ec (lineAt m (endLineNumber r))].

(** [model.getValueInRange(range)]: the range is validated first; the
    lines are joined by the buffer's own terminator. *)
Definition getValueInRange (m : TextModel) (r : Range) : jsstring :=
  joinLines (eolText (eol m)) (linesInRange m (validateRange m r)).

(** Splice [text] over a validated range. *)
Definition glue (pre : jsstring) (ts : list jsstring) (post : jsstring)
  : list jsstring :=
  match ts with
  | [] => [pre ++ post]
  | t :: ts' =>
      match ts' with
      | [] => [pre ++ t ++ post]
      | _ :: _ =>
          (pre ++ t) :: removelast ts' ++ [List.last ts' [] ++ post]
      end
  end.

Definition spliceLines (ls : list jsstring) (r : Range) (text : jsstring)
  : list jsstring :=
  let sl := Z.to_nat (startLineNumber r - 1) in
  let el := Z.to_nat (endLineNumber r - 1) in
  let pre := take (Z.to_nat (startColumn r - 1)) (default [] (ls !! sl)) in
  let post := drop (Z.to_nat (endColumn r - 1)) (default [] (ls !! el)) in
  take sl ls ++ glue pre (splitLines text) post ++ drop (S el) ls.

(** The position at which [text], inserted at [s], ends. *)
Definition endOfInsert (s : Position) (text : jsstring) : Position :=
  let ts := splitLines text in
  match ts with
  | [] => s
  | [t] => mkPosition (lineNumber s) (column s + jslength t)
  | _ :: _ :: _ =>
      mkPosition (lineNumber s + Z.of_nat (length ts) - 1)
                 (jslength (List.last ts []) + 1)
  end.

(** A marker carried over an edit of range [r] by [text]: a marker before
    the range stays, one behind it moves with the text, one inside it or
    on its border goes to the end of the inserted text.  (The only edit of
    the source without [forceMoveMarkers] inserts nothing, and there the
    end of the inserted text is the start of the range.) *)
Definition moveMarker (r : Range) (text : jsstring) (p : Position)
  : Position :=
  let s := getStartPosition r in
  let e := getEndPosition r in
  let e' := endOfInsert s text in
  if isBefore p s then p
  else if isBeforeOrEqual p e then e'
  else if lineNumber p =? lineNumber e
  then mkPosition (lineNumber e') (column e' + (column p - column e))
  else mkPosition (lineNumber p + (lineNumber e' - lineNumber e)) (column p).

(** One entry of the array given to [executeEdits]; [text: null] is
    [None]. *)
Record EditOperation := mkEdit {
  range : Range;
  text : option jsstring;
  forceMoveMarkers : bool }.

Definition editText (e : EditOperation) : jsstring := default [] (text e).

(** [EditorOption.wrappingInfo] *)
Record WrappingInfo := mkWrappingInfo {
  isDominatedByLongLines : bool;
  isViewportWrapping : bool }.

(** [model.getOptions()] *)
Record ModelOptions := mkModelOptions {
  insertSpaces : bool;
  tabSize : Z }.

(** The event of [onDidChangeCursorPosition]. *)
Record CursorPositionChangedEvent := mkCursorEvent {
  ev_position : Position;
  ev_source : string;
  ev_reason : Z }.

End Monaco.

Import Monaco.

(** ** The collaborators of the service *)

(** The two handles the widget factory hands over. *)
Definition MonacoHandle := nat.
Definition EditorHandle := nat.

(** The text model of an editor, reached through [editor.getModel()]. *)
Definition ModelHandle := nat.

Record Handles := mkHandles {
  h_monaco : MonacoHandle;
  h_editor : EditorHandle }.

(** [store.state.wordWrap]: ['on'] or ['off']. *)
Inductive WordWrap := wrap_on | wrap_off.

Inductive ColorScheme := light | dark.

(** A setting is a JSON scalar. *)
Inductive SettingValue :=
| SNum (n : Z)
| SBool (b : bool)
| SStr (s : string).

Definition truthy (v : SettingValue) : bool :=
  match v with
  | SNum n => negb (n =? 0)
  | SBool b => b
  | SStr s => negb (String.eqb s "")
  end.

(** Modelled from the spec: what the service reads from modules of the
    repository outside the source tree, [isElectron] and [isMacOS] of
    [@fe/support/env], [FLAG_READONLY] of [@fe/support/args], the colour
    scheme of the theme service and the settings. *)
Record Env := mkEnv {
  colorScheme : ColorScheme;
  settings : gmap string SettingValue;
  isElectron : bool;
  isMacOS : bool;
  FLAG_READONLY : bool }.

(** The options object of [getDefaultOptions]; an [undefined] member is
    [None]. *)
Record EditorOptions := mkEditorOptions {
  o_value : jsstring;
  o_theme : string;
  o_fontSize : SettingValue;
  o_wordWrap : WordWrap;
  o_links : bool;
  o_mouseWheelZoom : SettingValue;
  o_wrappingIndent : string;
  o_smoothScrolling : bool;
  o_cursorBlinking : string;
  o_scrollbar : option (string * Z);
  o_readOnly : bool;
  o_acceptSuggestionOnEnter : string;
  o_unicodeHighlight : bool * bool;
  o_fontFamily : option string;
  o_detectIndentation : bool;
  o_insertSpaces : bool;
  o_tabSize : SettingValue;
  o_minimap : option bool;
  o_lineNumbers : SettingValue }.

Inductive OptionsUpdate :=
| OptWordWrap (w : WordWrap)
| OptAll (o : EditorOptions).

Record ThemeData := mkThemeData {
  base : string;
  inherit : bool;
  rules : list (string * string);
  colors : list (string * string) }.

(** Calls on the widget whose effect lies in the view: the model records
    that they were issued. *)
Inductive Command :=
| RevealPositionInCenter (p : Position)
| UpdateOptions (o : OptionsUpdate)
| TriggerAction (source handlerId : string)
| DefineTheme (name : string) (d : ThemeData)
| SetTheme (name : string).

(** The listeners the service gives to [onDidChangeCursorPosition]; the
    typewriter listener holds the editor it was made for. *)
Inductive CursorListener := TypewriterListener (editor : nat).

(** The widget: its buffer, selection and focus, what it answers for
    [EditorOption.wrappingInfo] and [model.getOptions()], its listeners,
    the view commands it was given, and its [readOnly] option. *)
Record Widget := mkWidget {
  model : TextModel;
  selection : Selection;
  focused : bool;
  wrappingInfo : WrappingInfo;
  modelOptions : ModelOptions;
  cursorListeners : list CursorListener;
  issued : list Command;
  readOnly : bool }.

(** *** The store *)

Record State := mkState {
  wordWrap : WordWrap;
  typewriterMode : bool }.

Inductive Mutation :=
| setWordWrap (v : WordWrap)
| setTypewriterMode (v : bool).

Inductive Watcher := WatchWordWrap.

Record Store := mkStore {
  state : State;
  committed : list Mutation;
  watchers : list Watcher }.

(** *** Hooks, promises and jobs *)

Inductive HookType :=
| MONACO_BEFORE_INIT
| MONACO_READY
| MONACO_CHANGE_VALUE
| EDITOR_READY
| EDITOR_CHANGE
| THEME_CHANGE
| SETTING_FETCHED
| SETTING_CHANGED.

Record ChangedValue := mkChangedValue {
  cv_uri : jsstring;
  cv_value : jsstring }.

(** The payload of each hook name, as far as the handlers of this
    module read it: the handles of the ready hooks, the changed value,
    the changed keys of [SETTING_CHANGED]; the handlers of
    [THEME_CHANGE] and [SETTING_FETCHED] read nothing. *)
Definition Payload (t : HookType) : Type :=
  match t with
  | MONACO_BEFORE_INIT => MonacoHandle
  | MONACO_READY => Handles
  | MONACO_CHANGE_VALUE => ChangedValue
  | EDITOR_READY => Handles
  | EDITOR_CHANGE => ChangedValue
  | THEME_CHANGE => unit
  | SETTING_FETCHED => unit
  | SETTING_CHANGED => list string
  end.

Definition PromiseId := nat.

(** The functions the service registers, by the hook they are typed for:
    the [resolve] of a promise of [whenEditorReady], and the handlers
    registered when the module is loaded. *)
Inductive HookFun : HookType -> Type :=
| HResolve (p : PromiseId) : HookFun EDITOR_READY
| HDefineThemes : HookFun MONACO_BEFORE_INIT
| HBindHandles : HookFun MONACO_READY
| HForwardChange : HookFun MONACO_CHANGE_VALUE
| HApplyTheme : HookFun THEME_CHANGE
| HSettingFetched : HookFun SETTING_FETCHED
| HSettingChanged : HookFun SETTING_CHANGED.

Record HookItem (t : HookType) := mkHookItem {
  hookFun : HookFun t;
  once : bool }.
Arguments mkHookItem {t} _ _.
Arguments hookFun {t} _.
Arguments once {t} _.

(** The callbacks given to [then] on a promise of [whenEditorReady]. *)
Inductive Reaction :=
| RUpdateWordWrap (w : WordWrap)
| RInstallTypewriter
| RUpdateAllOptions
| RZoomReset (changedKeys : list string).

Inductive PromiseState :=
| Pending (reactions : list Reaction)
| Fulfilled (v : Handles).

(** Work queued behind the running call: a reaction of a resolved
    promise, or the callback of the store's watcher. *)
Inductive Job :=
| JReaction (r : Reaction) (v : Handles)
| JWordWrapChanged (w : WordWrap).

Inductive ToastKind := warning | info.

Inductive ActionHandler := A_toggleWrap.

Record Action := mkAction {
  a_name : string;
  a_handler : ActionHandler;
  a_keys : list string }.

(** ** The state of the module and of what it reaches *)

Record World := mkWorld {
  monaco : option MonacoHandle;     (* let monaco *)
  editor : option EditorHandle;     (* let editor *)
  hooks : forall t, list (HookItem t);
  promises : list PromiseState;
  jobs : list Job;
  store : Store;
  toasts : list (ToastKind * string);
  actions : list Action;
  widget : Widget;
  env : Env }.

Definition with_monaco (x : option MonacoHandle) (w : World) : World :=
  mkWorld x (editor w) (hooks w) (promises w) (jobs w) (store w)
          (toasts w) (actions w) (widget w) (env w).
Definition with_editor (x : option EditorHandle) (w : World) : World :=
  mkWorld (monaco w) x (hooks w) (promises w) (jobs w) (store w)
          (toasts w) (actions w) (widget w) (env w).
Definition with_hooks (x : forall t, list (HookItem t)) (w : World) : World :=
  mkWorld (monaco w) (editor w) x (promises w) (jobs w) (store w)
          (toasts w) (actions w) (widget w) (env w).
Definition with_promises (x : list PromiseState) (w : World) : World :=
  mkWorld (monaco w) (editor w) (hooks w) x (jobs w) (store w)
          (toasts w) (actions w) (widget w) (env w).
Definition with_jobs (x : list Job) (w : World) : World :=
  mkWorld (monaco w) (editor w) (hooks w) (promises w) x (store w)
          (toasts w) (actions w) (widget w) (env w).
Definition with_store (x : Store) (w : World) : World :=
  mkWorld (monaco w) (editor w) (hooks w) (promises w) (jobs w) x
          (toasts w) (actions w) (widget w) (env w).
Definition with_toasts (x : list (ToastKind * string)) (w : World) : World :=
  mkWorld (monaco w) (editor w) (hooks w) (promises w) (jobs w) (store w)
          x (actions w) (widget w) (env w).
Definition with_actions (x : list Action) (w : World) : World :=
  mkWorld (monaco w) (editor w) (hooks w) (promises w) (jobs w) (store w)
          (toasts w) x (widget w) (env w).
Definition with_widget (x : Widget) (w : World) : World :=
  mkWorld (monaco w) (editor w) (hooks w) (promises w) (jobs w) (store w)
          (toasts w) (actions w) x (env w).

(** ** A state and exception monad *)

Inductive Error :=
| TypeError            (* a member of [undefined] is read *)
| IllegalLineNumber    (* the model's 'Illegal value for lineNumber' *)
| RangeError.          (* the call stack is exhausted *)

Inductive Result (A : Type) :=
| Ok (a : A)
| Throw (e : Error).
Arguments Ok {A} _.
Arguments Throw {A} _.

Definition M (A : Type) : Type := World -> Result A * World.

Definition ret {A} (a : A) : M A := fun w => (Ok a, w).

Definition throw {A} (e : Error) : M A := fun w => (Throw e, w).

Definition bind {A B} (m : M A) (k : A -> M B) : M B :=
  fun w =>
    match m w with
    | (Ok a, w') => k a w'
    | (Throw e, w') => (Throw e, w')
    end.

Definition gets {A} (f : World -> A) : M A := fun w => (Ok (f w), w).

Definition modify (f : World -> World) : M unit := fun w => (Ok tt, f w).

Declare Scope js_scope.
Delimit Scope js_scope with js.
Notation "x <- m ;; k" := (bind m (fun x => k))
  (at level 100, m at next level, right associativity) : js_scope.
Notation "m ;; k" := (bind m (fun _ => k))
  (at level 100, right associativity) : js_scope.
Local Open Scope js_scope.

Fixpoint forEach {A} (l : list A) (f : A -> M unit) : M unit :=
  match l with
  | [] => ret tt
  | x :: l' => f x ;; forEach l' f
  end.

(** The state a computation leaves, and its result. *)
Definition after {A} (m : M A) (w : World) : World := snd (m w).
Definition result {A} (m : M A) (w : World) : Result A := fst (m w).

(** ** The hook bus *)

#[global] Instance HookType_eq_dec : EqDecision HookType.
Proof. solve_decision. Defined.

(** Identity of two registered functions. *)
Definition sameFun {t t'} (f : HookFun t) (g : HookFun t') : bool :=
  match f, g with
  | HResolve p, HResolve q => Nat.eqb p q
  | HDefineThemes, HDefineThemes => true
  | HBindHandles, HBindHandles => true
  | HForwardChange, HForwardChange => true
  | HApplyTheme, HApplyTheme => true
  | HSettingFetched, HSettingFetched => true
  | HSettingChanged, HSettingChanged => true
  | _, _ => false
  end.

(** [hooks[t] = l] *)
Definition setHooks (t : HookType) (l : list (HookItem t))
    (b : forall t, list (HookItem t)) : forall t, list (HookItem t) :=
  fun t' =>
    match decide (t = t') with
    | left e => eq_rect t (fun x => list (HookItem x)) l t' e
    | right _ => b t'
    end.

(** Modelled from the spec: [registerHook] of [@fe/core/hook], a module
    of the repository outside the source tree.  The handler is stored
    behind the handlers already registered for the name. *)
Definition registerHook (t : HookType) (f : HookFun t) (o : bool) : M unit :=
  modify (fun w =>
    with_hooks (setHooks t (hooks w t ++ [mkHookItem f o]) (hooks w)) w).

(** Modelled from the spec: removal of a handler from the bus. *)
Definition removeHook (t : HookType) (f : HookFun t) : M unit :=
  modify (fun w =>
    with_hooks
      (setHooks t
         (List.filter (fun i => negb (sameFun (hookFun i) f)) (hooks w t))
         (hooks w)) w).

(** ** Promises *)

(** [new Promise(...)], before its executor runs. *)
Definition newPromise : M PromiseId :=
  fun w => (Ok (length (promises w)),
            with_promises (promises w ++ [Pending []]) w).

(** [Promise.resolve(v)] *)
Definition Promise_resolve (v : Handles) : M PromiseId :=
  fun w => (Ok (length (promises w)),
            with_promises (promises w ++ [Fulfilled v]) w).

(** The [resolve] function of promise [p]: a pending promise is fulfilled
    and its reactions are queued; a settled one is left as it is. *)
Definition resolvePromise (p : PromiseId) (v : Handles) : M unit :=
  modify (fun w =>
    match promises w !! p with
    | Some (Pending rs) =>
        with_jobs (jobs w ++ map (fun r => JReaction r v) rs)
          (with_promises (<[p := Fulfilled v]> (promises w)) w)
    | _ => w
    end).

(** [p.then(r)] *)
Definition Promise_then (p : PromiseId) (r : Reaction) : M unit :=
  modify (fun w =>
    match promises w !! p with
    | Some (Pending rs) =>
        with_promises (<[p := Pending (rs ++ [r])]> (promises w)) w
    | Some (Fulfilled v) => with_jobs (jobs w ++ [JReaction r v]) w
    | None => w
    end).

(** ** The store, the toast and the action registry *)

Definition applyMutation (mu : Mutation) (s : State) : State :=
  match mu with
  | setWordWrap v => mkState v (typewriterMode s)
  | setTypewriterMode v => mkState (wordWrap s) v
  end.

Definition WordWrap_eqb (a b : WordWrap) : bool :=
  match a, b with
  | wrap_on, wrap_on | wrap_off, wrap_off => true
  | _, _ => false
  end.

(** Modelled from the spec: [store.commit(mutation, value)] of
    [@fe/support/store], a module of the repository outside the source
    tree.  The mutation writes its field; a watcher of a value that
    changed is called back later, with the new value. *)
Definition commit (mu : Mutation) : M unit :=
  modify (fun w =>
    let st := store w in
    let s' := applyMutation mu (state st) in
    let called :=
      if WordWrap_eqb (wordWrap (state st)) (wordWrap s') then []
      else map (fun _ => JWordWrapChanged (wordWrap s')) (watchers st) in
    with_jobs (jobs w ++ called)
      (with_store (mkStore s' (committed st ++ [mu]) (watchers st)) w)).

(** Modelled from the spec: [store.watch(selector, callback)]. *)
Definition watch (x : Watcher) : M unit :=
  modify (fun w =>
    let st := store w in
    with_store (mkStore (state st) (committed st) (watchers st ++ [x])) w).

(** Modelled from the spec: [useToast().show(kind, message)] of
    [@fe/support/ui/toast] shows one toast. *)
Definition toast_show (k : ToastKind) (msg : string) : M unit :=
  modify (fun w => with_toasts (toasts w ++ [(k, msg)]) w).

(** Modelled from the spec: [registerAction(action)] of
    [@fe/core/action] registers the named action. *)
Definition registerAction (a : Action) : M unit :=
  modify (fun w => with_actions (actions w ++ [a]) w).

(** Modelled from the spec: [getSetting(key, defaultValue)] reads the
    current value of the key, or the default. *)
Definition getSetting (key : string) (def : SettingValue) : M SettingValue :=
  gets (fun w => default def (settings (env w) !! key)).

(** Modelled from the spec: [getColorScheme()] of the theme service. *)
Definition getColorScheme : M ColorScheme :=
  gets (fun w => colorScheme (env w)).

(** ** The widget's methods *)

Definition with_model (m : TextModel) (d : Widget) : Widget :=
  mkWidget m (selection d) (focused d) (wrappingInfo d) (modelOptions d)
           (cursorListeners d) (issued d) (readOnly d).
Definition with_selection (s : Selection) (d : Widget) : Widget :=
  mkWidget (model d) s (focused d) (wrappingInfo d) (modelOptions d)
           (cursorListeners d) (issued d) (readOnly d).
Definition with_focused (b : bool) (d : Widget) : Widget :=
  mkWidget (model d) (selection d) b (wrappingInfo d) (modelOptions d)
           (cursorListeners d) (issued d) (readOnly d).
Definition with_wrappingInfo (i : WrappingInfo) (d : Widget) : Widget :=
  mkWidget (model d) (selection d) (focused d) i (modelOptions d)
           (cursorListeners d) (issued d) (readOnly d).
Definition with_modelOptions (o : ModelOptions) (d : Widget) : Widget :=
  mkWidget (model d) (selection d) (focused d) (wrappingInfo d) o
           (cursorListeners d) (issued d) (readOnly d).
Definition with_cursorListeners (l : list CursorListener) (d : Widget)
  : Widget :=
  mkWidget (model d) (selection d) (focused d) (wrappingInfo d)
           (modelOptions d) l (issued d) (readOnly d).
Definition with_readOnly (b : bool) (d : Widget) : Widget :=
  mkWidget (model d) (selection d) (focused d) (wrappingInfo d)
           (modelOptions d) (cursorListeners d) (issued d) b.
Definition issue (c : Command) (d : Widget) : Widget :=
  mkWidget (model d) (selection d) (focused d) (wrappingInfo d)
           (modelOptions d) (cursorListeners d) (issued d ++ [c])
           (readOnly d).

(** One edit: its range is validated against the model, the text is
    spliced in, and the two ends of the selection are carried over. *)
Definition applyEdit (op : EditOperation) (d : Widget) : Widget :=
  let r := validateRange (model d) (range op) in
  let m' := mkTextModel (spliceLines (lines (model d)) r (editText op))
                        (eol (model d)) in
  let mv := moveMarker r (editText op) in
  with_selection
    (mkSelection (mv (selectionStart (selection d)))
                 (mv (position (selection d))))
    (with_model m' d).

(** The caret is put at the position, validated against the model. *)
Definition placeCaret (p : Position) (d : Widget) : Widget :=
  let q := validatePosition (model d) p in
  with_selection (mkSelection q q) d.

Definition onWidget (f : Widget -> Widget) : M unit :=
  modify (fun w => with_widget (f (widget w)) w).

(** Reading a member of a handle that may be [undefined]. *)
Definition member {H} (h : option H) : M H :=
  match h with
  | Some x => ret x
  | None => throw TypeError
  end.

Definition orThrow {A} (e : Error) (o : option A) : M A :=
  match o with
  | Some x => ret x
  | None => throw e
  end.

(** What [executeEdits] does to the widget: a read-only editor refuses
    the edit and stays as it is. *)
Definition executeEdit (op : EditOperation) (d : Widget) : Widget :=
  if readOnly d then d else applyEdit op d.

(** [editor.executeEdits('', [op])]: every call of the source passes an
    array of one operation. *)
Definition Editor_executeEdits (_ : EditorHandle) (op : EditOperation)
  : M unit :=
  onWidget (executeEdit op).

Definition Editor_setPosition (_ : EditorHandle) (p : Position) : M unit :=
  onWidget (placeCaret p).

Definition Editor_focus (_ : EditorHandle) : M unit :=
  onWidget (with_focused true).

Definition Editor_getSelection (_ : EditorHandle) : M Selection :=
  gets (fun w => selection (widget w)).

Definition Editor_getWrappingInfo (_ : EditorHandle) : M WrappingInfo :=
  gets (fun w => wrappingInfo (widget w)).

(** [parseInt(s, 10)] of a string: white space, a sign, then digits;
    [None] is NaN. *)
Definition isWhiteSpace (c : ascii) : bool :=
  existsb (Nat.eqb (nat_of_ascii c)) [9; 10; 11; 12; 13; 32; 160]%nat.

Fixpoint trimStart (s : string) : string :=
  match s with
  | String c s' => if isWhiteSpace c then trimStart s' else s
  | EmptyString => s
  end.

Definition digitOf (c : ascii) : option Z :=
  let n := Z.of_nat (nat_of_ascii c) in
  if (48 <=? n) && (n <=? 57) then Some (n - 48) else None.

Fixpoint digits (s : string) (acc : option Z) : option Z :=
  match s with
  | String c s' =>
      match digitOf c with
      | Some d => digits s' (Some (10 * default 0 acc + d))
      | None => acc
      end
  | EmptyString => acc
  end.

Definition parseInt10 (s : string) : option Z :=
  match trimStart s with
  | String "-" s' => Z.opp <$> digits s' None
  | String "+" s' => digits s' None
  | s' => digits s' None
  end.

(** The tab size the models take from the editor configuration: the
    value parsed as an integer, 4 when it is none, and at least 1. *)
Definition tabSizeOf (v : SettingValue) : Z :=
  let parsed :=
    match v with
    | SNum n => Some n
    | SBool _ => None
    | SStr s => parseInt10 s
    end in
  match parsed with
  | Some n => Z.max 1 n
  | None => 4
  end.

(** The wrapping info under a word wrap option, the overrides of the
    option left at inherit: the viewport wraps when the option is
    ['on'], and whenever the long lines dominate, which is a matter of
    the buffer and not of the option. *)
Definition wrapTo (v : WordWrap) (i : WrappingInfo) : WrappingInfo :=
  mkWrappingInfo (isDominatedByLongLines i)
    (isDominatedByLongLines i
     || match v with wrap_on => true | wrap_off => false end).

(** What [updateOptions] changes of what the service reads back.  The
    word wrap decides the wrapping info.  The whole options object also
    sets [readOnly]; and the standalone editor passes it on to the
    configuration the models take their options from, so that, with
    [detectIndentation] off as the service has it, the model has the
    [insertSpaces] and the tab size of the object.  The model is taken
    to follow the configuration: its options are changed from nowhere
    else.  With [detectIndentation] on the widget would guess the
    indentation from the buffer; the service never asks for it, and the
    options of the model are left as they are. *)
Definition applyOptions (o : OptionsUpdate) (d : Widget) : Widget :=
  match o with
  | OptWordWrap v => with_wrappingInfo (wrapTo v (wrappingInfo d)) d
  | OptAll o =>
      with_readOnly (o_readOnly o)
        (with_wrappingInfo (wrapTo (o_wordWrap o) (wrappingInfo d))
           (with_modelOptions
              (if o_detectIndentation o then modelOptions d
               else mkModelOptions (o_insertSpaces o)
                                   (tabSizeOf (o_tabSize o)))
              d))
  end.

(** [editor.updateOptions(o)]: the call is recorded and the options
    take effect. *)
Definition Editor_updateOptions (_ : EditorHandle) (o : OptionsUpdate)
  : M unit :=
  onWidget (fun d => issue (UpdateOptions o) (applyOptions o d)).

Definition Editor_revealPositionInCenter (_ : EditorHandle) (p : Position)
  : M unit :=
  onWidget (issue (RevealPositionInCenter p)).

Definition Editor_trigger (_ : EditorHandle) (source handlerId : string)
  : M unit :=
  onWidget (issue (TriggerAction source handlerId)).

Definition Editor_onDidChangeCursorPosition (_ : EditorHandle)
    (l : CursorListener) : M unit :=
  onWidget (fun d => with_cursorListeners (cursorListeners d ++ [l]) d).

(** [editor.getModel()!] *)
Definition Editor_getModel (e : EditorHandle) : M ModelHandle := ret e.

(** The methods of the model. *)
Definition Model_getLineLength (_ : ModelHandle) (line : Z) : M Z :=
  m <- gets (fun w => model (widget w)) ;;
  orThrow IllegalLineNumber (Monaco.getLineLength m line).

Definition Model_getLineContent (_ : ModelHandle) (line : Z) : M jsstring :=
  m <- gets (fun w => model (widget w)) ;;
  orThrow IllegalLineNumber (Monaco.getLineContent m line).

Definition Model_getLineCount (_ : ModelHandle) : M Z :=
  gets (fun w => Monaco.getLineCount (model (widget w))).

Definition Model_getValueInRange (_ : ModelHandle) (r : Range) : M jsstring :=
  gets (fun w => Monaco.getValueInRange (model (widget w)) r).

Definition Model_getValue (_ : ModelHandle) (p : EndOfLinePreference)
  : M jsstring :=
  gets (fun w => Monaco.getValue (model (widget w)) p).

Definition Model_getOptions (_ : ModelHandle) : M ModelOptions :=
  gets (fun w => modelOptions (widget w)).

(** [new (monaco.Range)(...)] and [new (monaco.Position)(...)] *)
Definition new_Range (_ : MonacoHandle) (sl sc el ec : Z) : M Range :=
  ret (newRange sl sc el ec).

Definition new_Position (_ : MonacoHandle) (l c : Z) : M Position :=
  ret (mkPosition l c).

Definition Monaco_defineTheme (_ : MonacoHandle) (name : string)
    (d : ThemeData) : M unit :=
  onWidget (issue (DefineTheme name d)).

Definition Monaco_setTheme (_ : MonacoHandle) (name : string) : M unit :=
  onWidget (issue (SetTheme name)).

(** ** The string methods [replaceValue] calls *)

Module JS.

Fixpoint isPrefix (p s : jsstring) : bool :=
  match p, s with
  | [], _ => true
  | _ :: _, [] => false
  | a :: p', b :: s' => Ascii.eqb a b && isPrefix p' s'
  end.

(** The first index, counted from [i], at which [search] starts in [s]. *)
Fixpoint indexOfFrom (search s : jsstring) (i : nat) : option nat :=
  if isPrefix search s then Some i
  else
    match s with
    | [] => None
    | _ :: s' => indexOfFrom search s' (S i)
    end.

(** [s.indexOf(search, fromIndex)]; not found is [None]. *)
Definition indexOf (s search : jsstring) (fromIndex : nat) : option nat :=
  if (length s <? fromIndex)%nat then None
  else indexOfFrom search (drop fromIndex s) fromIndex.

(** The replacement text of one match of a string pattern (no captures):
    [$$] is a dollar, [$&] the match, [$`] the text before the match and
    [$'] the text behind it; any other dollar is kept. *)
Fixpoint GetSubstitution (matched s : jsstring) (position : nat)
    (template : jsstring) : jsstring :=
  match template with
  | [] => []
  | c :: rest =>
      if Ascii.eqb c "$" then
        match rest with
        | [] => [c]
        | d :: rest' =>
            if Ascii.eqb d "$" then
              d :: GetSubstitution matched s position rest'
            else if Ascii.eqb d "`" then
              take position s ++ GetSubstitution matched s position rest'
            else if Ascii.eqb d "&" then
              matched ++ GetSubstitution matched s position rest'
            else if Ascii.eqb d "'" then
              drop (position + length matched) s
                ++ GetSubstitution matched s position rest'
            else c :: GetSubstitution matched s position rest
        end
      else c :: GetSubstitution matched s position rest
  end.

(** [s.replace(search, val)] for a string [search]. *)
Definition replace (s search val : jsstring) : jsstring :=
  match indexOf s search 0 with
  | None => s
  | Some pos =>
      take pos s ++ GetSubstitution search s pos val
        ++ drop (pos + length search) s
  end.

(** The positions [replaceAll] matches at: from the left, each next
    match is looked for [max 1 (length search)] behind the last one.
    [i] is the index of the head of [s]; [skip] code units are still
    to be passed before a match may start. *)
Fixpoint matchPositions (search s : jsstring) (i skip : nat) : list nat :=
  match skip with
  | O =>
      if isPrefix search s then
        i :: match s with
             | [] => []
             | _ :: s' =>
                 matchPositions search s' (S i)
                   (Nat.max 1 (length search) - 1)
             end
      else
        match s with
        | [] => []
        | _ :: s' => matchPositions search s' (S i) O
        end
  | S k =>
      match s with
      | [] => []
      | _ :: s' => matchPositions search s' (S i) k
      end
  end.

(** The result of [replaceAll] is put together from the preserved
    pieces and the replacements. *)
Fixpoint assemble (s search val : jsstring) (positions : list nat)
    (endOfLastMatch : nat) : jsstring :=
  match positions with
  | [] => drop endOfLastMatch s
  | p :: ps =>
      substring endOfLastMatch p s ++ GetSubstitution search s p val
        ++ assemble s search val ps (p + length search)
  end.

(** [s.replaceAll(search, val)] for a string [search]. *)
Definition replaceAll (s search val : jsstring) : jsstring :=
  assemble s search val (matchPositions search s 0 0) 0.

(** [list.includes(x)] on strings. *)
Definition includes (l : list string) (x : string) : bool :=
  existsb (String.eqb x) l.

(** [s.repeat(count)]: a negative count is a RangeError, here [None]. *)
Definition repeat (s : jsstring) (count : Z) : option jsstring :=
  if count <? 0 then None
  else Some (concat (replicate (Z.to_nat count) s)).

End JS.

(** ** The service: [src/renderer/services/editor.ts] *)

Module Service.

Definition DEFAULT_MAC_FONT_FAMILY : string :=
  "MacEmoji, Menlo, Monaco, 'Courier New', monospace".

Definition getDefaultOptions : M EditorOptions :=
  scheme <- getColorScheme ;;
  fontSize <- getSetting "editor.font-size" (SNum 16) ;;
  ww <- gets (fun w => wordWrap (state (store w))) ;;
  electron <- gets (fun w => isElectron (env w)) ;;
  mouseWheelZoom <- getSetting "editor.mouse-wheel-zoom" (SBool true) ;;
  minimapForScrollbar <- getSetting "editor.minimap" (SBool true) ;;
  readOnly <- gets (fun w => FLAG_READONLY (env w)) ;;
  mac <- gets (fun w => isMacOS (env w)) ;;
  tabSize <- getSetting "editor.tab-size" (SNum 4) ;;
  minimap <- getSetting "editor.minimap" (SBool true) ;;
  lineNumbers <- getSetting "editor.line-numbers" (SStr "on") ;;
  ret {| o_value := [];
         o_theme := match scheme with dark => "vs-dark" | light => "vs" end;
         o_fontSize := fontSize;
         o_wordWrap := ww;
         o_links := negb electron;
         o_mouseWheelZoom := mouseWheelZoom;
         o_wrappingIndent := "same";
         o_smoothScrolling := true;
         o_cursorBlinking := "smooth";
         o_scrollbar :=
           if truthy minimapForScrollbar then Some ("hidden"%string, 0)
           else None;
         o_readOnly := readOnly;
         o_acceptSuggestionOnEnter := "smart";
         o_unicodeHighlight := (false, false);
         o_fontFamily := if mac then Some DEFAULT_MAC_FONT_FAMILY else None;
         o_detectIndentation := false;
         o_insertSpaces := true;
         o_tabSize := tabSize;
         o_minimap := if truthy minimap then None else Some false;
         o_lineNumbers := lineNumbers |}.

Definition getMonaco : M (option MonacoHandle) := gets monaco.

Definition getEditor : M (option EditorHandle) := gets editor.

Definition getOneIndent : M jsstring :=
  ed <- gets editor ;;
  ed <- member ed ;;
  model <- Editor_getModel ed ;;
  options <- Model_getOptions model ;;
  if insertSpaces options
  then orThrow RangeError (JS.repeat [" "%char] (tabSize options))
  else ret ["009"%char].

Definition whenEditorReady : M PromiseId :=
  mo <- gets monaco ;;
  ed <- gets editor ;;
  match mo, ed with
  | Some mo, Some ed => Promise_resolve (mkHandles mo ed)
  | _, _ =>
      p <- newPromise ;;
      registerHook EDITOR_READY (HResolve p) true ;;
      ret p
  end.

Definition insert (text : jsstring) : M unit :=
  ed <- getEditor ;;
  ed <- member ed ;;
  sel <- Editor_getSelection ed ;;
  let selection := selectionRange sel in
  ed <- getEditor ;;
  ed <- member ed ;;
  mo <- getMonaco ;;
  mo <- member mo ;;
  r <- new_Range mo (endLineNumber selection) (endColumn selection)
                    (endLineNumber selection) (endColumn selection) ;;
  Editor_executeEdits ed (mkEdit r (Some text) true) ;;
  ed <- getEditor ;;
  ed <- member ed ;;
  Editor_focus ed.

Definition insertAt (position : Position) (text : jsstring) : M unit :=
  editor <- getEditor ;;
  editor <- member editor ;;
  mo <- getMonaco ;;
  mo <- member mo ;;
  r <- new_Range mo (lineNumber position) (column position)
                    (lineNumber position) (column position) ;;
  Editor_executeEdits editor (mkEdit r (Some text) true) ;;
  Editor_setPosition editor position ;;
  Editor_focus editor.

Definition replaceLine (line : Z) (text : jsstring) : M unit :=
  ed <- getEditor ;;
  ed <- member ed ;;
  model <- Editor_getModel ed ;;
  length <- Model_getLineLength model line ;;
  editor <- getEditor ;;
  monaco <- getMonaco ;;
  editor <- member editor ;;
  monaco <- member monaco ;;
  r <- new_Range monaco line 1 line (length + 1) ;;
  Editor_executeEdits editor (mkEdit r (Some text) true) ;;
  p <- new_Position monaco line (jslength text + 1) ;;
  Editor_setPosition editor p ;;
  Editor_focus editor.

Definition replaceLines (lineStart lineEnd : Z) (text : jsstring) : M unit :=
  ed <- getEditor ;;
  ed <- member ed ;;
  model <- Editor_getModel ed ;;
  lineEndLength <- Model_getLineLength model lineEnd ;;
  let lineEndPos := lineEndLength + 1 in
  editor <- getEditor ;;
  monaco <- getMonaco ;;
  editor <- member editor ;;
  monaco <- member monaco ;;
  r <- new_Range monaco lineStart 1 lineEnd lineEndPos ;;
  Editor_executeEdits editor (mkEdit r (Some text) true) ;;
  p <- new_Position monaco lineEnd lineEndPos ;;
  Editor_setPosition editor p ;;
  Editor_focus editor.

Definition deleteLine (line : Z) : M unit :=
  editor <- getEditor ;;
  editor <- member editor ;;
  mo <- getMonaco ;;
  mo <- member mo ;;
  r <- new_Range mo line 1 (line + 1) 1 ;;
  Editor_executeEdits editor (mkEdit r None false) ;;
  mo <- getMonaco ;;
  mo <- member mo ;;
  p <- new_Position mo line 1 ;;
  Editor_setPosition editor p ;;
  Editor_focus editor.

Definition getLineContent (line : Z) : M jsstring :=
  ed <- getEditor ;;
  ed <- member ed ;;
  model <- Editor_getModel ed ;;
  Model_getLineContent model line.

Definition getLinesContent (lineStart lineEnd : Z) : M jsstring :=
  ed <- getEditor ;;
  ed <- member ed ;;
  model <- Editor_getModel ed ;;
  lineEndLength <- Model_getLineLength model lineEnd ;;
  mo <- getMonaco ;;
  mo <- member mo ;;
  r <- new_Range mo lineStart 1 lineEnd (lineEndLength + 1) ;;
  Model_getValueInRange model r.

Definition getValue : M jsstring :=
  ed <- getEditor ;;
  ed <- member ed ;;
  model <- Editor_getModel ed ;;
  mo <- getMonaco ;;
  _ <- member mo ;;
  Model_getValue model (eolPreference DefaultEndOfLine_LF).

Definition setValue (text : jsstring) : M unit :=
  ed <- gets editor ;;
  ed <- member ed ;;
  model <- Editor_getModel ed ;;
  maxLine <- Model_getLineCount model ;;
  endLineLength <- Model_getLineLength model maxLine ;;
  ed <- gets editor ;;
  ed <- member ed ;;
  mo <- getMonaco ;;
  mo <- member mo ;;
  r <- new_Range mo 1 1 maxLine (endLineLength + 1) ;;
  Editor_executeEdits ed (mkEdit r (Some text) true) ;;
  ed <- getEditor ;;
  ed <- member ed ;;
  Editor_focus ed.

(** [search] is taken as a string: the properties stated of
    [replaceValue] are those of string patterns. *)
Definition replaceValue (search val : jsstring) (replaceAll : bool)
  : M unit :=
  editor <- getEditor ;;
  editor <- member editor ;;
  model <- Editor_getModel editor ;;
  content <- Model_getValue model TextDefined ;;
  let text := if replaceAll then JS.replaceAll content search val
              else JS.replace content search val in
  setValue text.

Record SelectionInfo := mkSelectionInfo {
  si_line : Z;
  si_column : Z;
  si_lineCount : Z;
  si_textLength : Z;
  si_selectedLength : Z }.

Definition getSelectionInfo : M SelectionInfo :=
  ed <- getEditor ;;
  ed <- member ed ;;
  sel <- Editor_getSelection ed ;;
  ed1 <- getEditor ;;
  ed1 <- member ed1 ;;
  model1 <- Editor_getModel ed1 ;;
  lineCount <- Model_getLineCount model1 ;;
  value <- getValue ;;
  ed2 <- getEditor ;;
  ed2 <- member ed2 ;;
  model2 <- Editor_getModel ed2 ;;
  selected <- Model_getValueInRange model2 (selectionRange sel) ;;
  ret {| si_line := lineNumber (position sel);
         si_column := column (position sel);
         si_lineCount := lineCount;
         si_textLength := jslength value;
         si_selectedLength := jslength selected |}.

Definition toggleWrap : M unit :=
  ed <- getEditor ;;
  ed <- member ed ;;
  mo <- gets monaco ;;
  _ <- member mo ;;
  wrapInfo <- Editor_getWrappingInfo ed ;;
  let isWrapping := isViewportWrapping wrapInfo in
  if isDominatedByLongLines wrapInfo then
    toast_show warning "Word warp dominated by long lines"
  else
    commit (setWordWrap (if isWrapping then wrap_off else wrap_on)).

Definition toggleTypewriterMode : M unit :=
  tm <- gets (fun w => typewriterMode (state (store w))) ;;
  commit (setTypewriterMode (negb tm)).

(** *** The handlers of the module *)

Definition theme_vs : ThemeData :=
  {| base := "vs"; inherit := true;
     rules := [("keyword", "#0062d1");
               ("attribute.name.html", "#0062d1");
               ("attribute.value.html", "#e52a24")]%string;
     colors := [("editor.background", "#ffffff");
                ("minimap.background", "#f2f2f2")]%string |}.

Definition theme_vs_dark : ThemeData :=
  {| base := "vs-dark"; inherit := true;
     rules := [];
     colors := [("editor.background", "#131416");
                ("minimap.background", "#101113")]%string |}.

(** The listener given to [editor.onDidChangeCursorPosition]. *)
Definition onCursorPosition (editor : EditorHandle)
    (e : CursorPositionChangedEvent) : M unit :=
  tm <- gets (fun w => typewriterMode (state (store w))) ;;
  if tm then
    let sources := ["deleteLeft"; "keyboard"]%string in
    if JS.includes sources (ev_source e)
       && ((ev_reason e =? 0) || (ev_reason e =? 3))
    then Editor_revealPositionInCenter editor (ev_position e)
    else ret tt
  else ret tt.

(** The widget calls its listeners with the event. *)
Definition runListener (l : CursorListener)
    (e : CursorPositionChangedEvent) : M unit :=
  match l with
  | TypewriterListener editor => onCursorPosition editor e
  end.

(** The callbacks given to [whenEditorReady().then]. *)
Definition runReaction (r : Reaction) (v : Handles) : M unit :=
  let editor := h_editor v in
  match r with
  | RUpdateWordWrap ww => Editor_updateOptions editor (OptWordWrap ww)
  | RInstallTypewriter =>
      Editor_onDidChangeCursorPosition editor (TypewriterListener editor)
  | RUpdateAllOptions =>
      o <- getDefaultOptions ;;
      Editor_updateOptions editor (OptAll o)
  | RZoomReset changedKeys =>
      if JS.includes changedKeys "editor.mouse-wheel-zoom"
      then Editor_trigger editor "keyboard" "editor.action.fontZoomReset"
      else ret tt
  end.

(** A registered function called with the payload of its hook;
    [triggerHook] is the bus's trigger, for the handlers that call it. *)
Definition invoke (triggerHook : forall t, Payload t -> M unit)
    {t} (f : HookFun t) : Payload t -> M unit :=
  match f in HookFun t return Payload t -> M unit with
  | HResolve p => fun payload => resolvePromise p payload
  | HDefineThemes => fun mo =>
      Monaco_defineTheme mo "vs" theme_vs ;;
      Monaco_defineTheme mo "vs-dark" theme_vs_dark
  | HBindHandles => fun payload =>
      modify (with_monaco (Some (h_monaco payload))) ;;
      modify (with_editor (Some (h_editor payload))) ;;
      triggerHook EDITOR_READY payload
  | HForwardChange => fun payload => triggerHook EDITOR_CHANGE payload
  | HApplyTheme => fun _ =>
      mo <- gets monaco ;;
      match mo with
      | Some mo =>
          scheme <- getColorScheme ;;
          Monaco_setTheme mo
            match scheme with dark => "vs-dark" | light => "vs" end
      | None => ret tt
      end
  | HSettingFetched => fun _ =>
      p <- whenEditorReady ;;
      Promise_then p RUpdateAllOptions
  | HSettingChanged => fun changedKeys =>
      p <- whenEditorReady ;;
      Promise_then p (RZoomReset changedKeys)
  end.

(** Modelled from the spec: [triggerHook] of [@fe/core/hook].  The
    handlers registered for the name when the trigger starts are called
    in registration order with the payload; a handler registered with
    [once] is removed right after its call.  A handler may trigger a
    hook itself; [depth] is the room left on the call stack. *)
Fixpoint triggerHookN (depth : nat) (t : HookType) : Payload t -> M unit :=
  match depth with
  | O => fun _ => throw RangeError
  | S d => fun payload =>
      items <- gets (fun w => hooks w t) ;;
      forEach items (fun item =>
        invoke (triggerHookN d) (hookFun item) payload ;;
        if once item then removeHook t (hookFun item) else ret tt)
  end.

(** The handlers of this module nest triggers two deep. *)
Definition triggerHook (t : HookType) : Payload t -> M unit :=
  triggerHookN 2 t.

(** *** Jobs *)

(** A job is run to its end; what it throws is lost with it. *)
Definition runJob (j : Job) : M unit :=
  match j with
  | JReaction r v => runReaction r v
  | JWordWrapChanged ww =>
      p <- whenEditorReady ;;
      Promise_then p (RUpdateWordWrap ww)
  end.

Definition jobWeight (j : Job) : nat :=
  match j with
  | JReaction _ _ => 1
  | JWordWrapChanged _ => 2
  end.

Fixpoint drainN (fuel : nat) (w : World) : World :=
  match fuel with
  | O => w
  | S n =>
      match jobs w with
      | [] => w
      | j :: js => drainN n (after (runJob j) (with_jobs js w))
      end
  end.

(** The queue is run until it is empty: a watcher's callback queues at
    most one reaction, a reaction queues nothing. *)
Definition drain (w : World) : World :=
  drainN (list_sum (map jobWeight (jobs w))) w.

(** *** The module body *)

Definition moduleBody : M unit :=
  registerAction
    (mkAction "editor.toggle-wrap" A_toggleWrap ["Alt"; "w"]%string) ;;
  registerHook MONACO_BEFORE_INIT HDefineThemes false ;;
  registerHook MONACO_READY HBindHandles false ;;
  registerHook MONACO_CHANGE_VALUE HForwardChange false ;;
  registerHook THEME_CHANGE HApplyTheme false ;;
  watch WatchWordWrap ;;
  (p <- whenEditorReady ;; Promise_then p RInstallTypewriter) ;;
  registerHook SETTING_FETCHED HSettingFetched false ;;
  registerHook SETTING_CHANGED HSettingChanged false.

End Service.

(** ** What happens to the module

    The exported functions are called, hooks are triggered, the widget
    reports a caret change or changes under the user's hands, the
    registered action is run, and the store is committed to from
    elsewhere.  After each event the queued jobs are run. *)

Inductive Call :=
| call_getDefaultOptions
| call_getMonaco
| call_getEditor
| call_getOneIndent
| call_whenEditorReady
| call_insert (text : jsstring)
| call_insertAt (position : Position) (text : jsstring)
| call_replaceLine (line : Z) (text : jsstring)
| call_replaceLines (lineStart lineEnd : Z) (text : jsstring)
| call_deleteLine (line : Z)
| call_getLineContent (line : Z)
| call_getLinesContent (lineStart lineEnd : Z)
| call_getValue
| call_setValue (text : jsstring)
| call_replaceValue (search val : jsstring) (replaceAll : bool)
| call_getSelectionInfo
| call_toggleWrap
| call_toggleTypewriterMode.

Definition discard {A} (m : M A) : M unit := (_ <- m ;; ret tt).

Definition runCall (c : Call) : M unit :=
  match c with
  | call_getDefaultOptions => discard Service.getDefaultOptions
  | call_getMonaco => discard Service.getMonaco
  | call_getEditor => discard Service.getEditor
  | call_getOneIndent => discard Service.getOneIndent
  | call_whenEditorReady => discard Service.whenEditorReady
  | call_insert text => Service.insert text
  | call_insertAt position text => Service.insertAt position text
  | call_replaceLine line text => Service.replaceLine line text
  | call_replaceLines a b text => Service.replaceLines a b text
  | call_deleteLine line => Service.deleteLine line
  | call_getLineContent line => discard (Service.getLineContent line)
  | call_getLinesContent a b => discard (Service.getLinesContent a b)
  | call_getValue => discard Service.getValue
  | call_setValue text => Service.setValue text
  | call_replaceValue search val all => Service.replaceValue search val all
  | call_getSelectionInfo => discard Service.getSelectionInfo
  | call_toggleWrap => Service.toggleWrap
  | call_toggleTypewriterMode => Service.toggleTypewriterMode
  end.

Inductive Event :=
| Called (c : Call)
| Triggered (t : HookType) (payload : Payload t)
| CursorPositionChanged (e : CursorPositionChangedEvent)
| ActionRun (name : string)
| Committed (mu : Mutation)
| WidgetChanged (m : TextModel) (s : Selection) (i : WrappingInfo).

Definition runAction (a : Action) : M unit :=
  match a_handler a with
  | A_toggleWrap => Service.toggleWrap
  end.

Definition perform (e : Event) : M unit :=
  match e with
  | Called c => runCall c
  | Triggered t payload => Service.triggerHook t payload
  | CursorPositionChanged e =>
      ls <- gets (fun w => cursorListeners (widget w)) ;;
      forEach ls (fun l => Service.runListener l e)
  | ActionRun name =>
      acts <- gets actions ;;
      forEach (List.filter (fun a => String.eqb (a_name a) name) acts) runAction
  | Committed mu => commit mu
  | WidgetChanged m s i =>
      onWidget (fun d =>
        mkWidget m s (focused d) i (modelOptions d) (cursorListeners d)
                 (issued d) (readOnly d))
  end.

Definition step (e : Event) (w : World) : World :=
  Service.drain (after (perform e) w).

Definition run (es : list Event) (w : World) : World :=
  fold_left (fun w e => step e w) es w.

(** The state in which the module is loaded: nothing bound, nothing
    registered. *)
Definition blank (d : Widget) (s : State) (v : Env) : World :=
  mkWorld None None (fun _ => []) [] [] (mkStore s [] []) [] [] d v.

Definition loaded (d : Widget) (s : State) (v : Env) : World :=
  Service.drain (after Service.moduleBody (blank d s v)).

(** ** Sample states *)

Definition widget_of (ls : list jsstring) : Widget :=
  mkWidget (mkTextModel ls EOL_LF)
           (mkSelection (mkPosition 1 1) (mkPosition 1 1))
           false (mkWrappingInfo false false) (mkModelOptions true 4) [] []
           false.

Definition env0 : Env := mkEnv light ∅ false false false.

(** The module loaded over a widget of the given lines, not yet bound. *)
Definition fresh (ls : list jsstring) : World :=
  loaded (widget_of ls) (mkState wrap_on false) env0.

(** The same after the widget factory has triggered [MONACO_READY]. *)
Definition ready (ls : list jsstring) : World :=
  step (Triggered MONACO_READY (mkHandles 1%nat 2%nat)) (fresh ls).

(** The buffer of three lines a, b, c. *)
Definition abc : list jsstring := [str "a"; str "b"; str "c"].

(** An environment started with the read-only flag. *)
Definition envReadOnly : Env := mkEnv light ∅ false false true.

(** The module loaded and bound under that flag. *)
Definition readyReadOnly (ls : list jsstring) : World :=
  step (Triggered MONACO_READY (mkHandles 1%nat 2%nat))
    (loaded (widget_of ls) (mkState wrap_on false) envReadOnly).

(** The same after the settings were fetched: the widget has been given
    the options of [getDefaultOptions], [readOnly] among them. *)
Definition locked (ls : list jsstring) : World :=
  step (Triggered SETTING_FETCHED tt) (readyReadOnly ls).

(** ** The vocabulary of the statements *)

(** Both module variables hold a handle. *)
Definition bound (w : World) : Prop :=
  is_Some (monaco w) ∧ is_Some (editor w).

(** [search] occurs in [s] at index [k]. *)
Definition occursAt (search s : jsstring) (k : nat) : Prop :=
  exists pre post, s = pre ++ search ++ post ∧ length pre = k.

(** The step [replaceAll] advances by behind a match. *)
Definition advanceBy (search : jsstring) : nat := Nat.max 1 (length search).

(** What [replaceAll] gives, in the words of the spec: every occurrence
    met on the way from left to right is replaced by its substitution,
    and the search goes on one step behind the start of each match.
    [from] is where the search goes on and [last] where the last match
    ended; the text is what becomes of [s] from [last] on. *)
Inductive ReplacedAll (search val s : jsstring)
  : nat -> nat -> jsstring -> Prop :=
| RA_rest (from last : nat) :
    (forall k, (from <= k)%nat -> ~ occursAt search s k) ->
    ReplacedAll search val s from last (drop last s)
| RA_match (from last p : nat) (out : jsstring) :
    (from <= p)%nat -> occursAt search s p ->
    (forall k, (from <= k < p)%nat -> ~ occursAt search s k) ->
    ReplacedAll search val s (p + advanceBy search) (p + length search) out ->
    ReplacedAll search val s from last
      (substring last p s ++ JS.GetSubstitution search s p val ++ out).

(** A computation keeps a property of the state. *)
Definition Preserves {A} (P : World -> Prop) (m : M A) : Prop :=
  forall w, P w -> P (after m w).

(** Promise [p] is pending and its [resolve] waits on [EDITOR_READY]. *)
Definition awaiting (p : PromiseId) (w : World) : Prop :=
  (exists rs, promises w !! p = Some (Pending rs))
  ∧ mkHookItem (HResolve p) true ∈ hooks w EDITOR_READY.

(** Promise [p] is fulfilled with [v]. *)
Definition fulfilled (p : PromiseId) (v : Handles) (w : World) : Prop :=
  promises w !! p = Some (Fulfilled v).

(** The module variables hold the handles of [v]. *)
Definition boundTo (v : Handles) (w : World) : Prop :=
  monaco w = Some (h_monaco v) ∧ editor w = Some (h_editor v).

(** A computation that takes the states of [P] to states of [Q]. *)
Definition Establishes {A} (P Q : World -> Prop) (m : M A) : Prop :=
  forall w, P w -> Q (after m w).

(** A computation that always returns: it throws in no state. *)
Definition Returns {A} (m : M A) : Prop :=
  forall w, exists a, result m w = Ok a.

(** The hooks whose handlers in this module trigger no hook. *)
Definition leafHook (t : HookType) : Prop :=
  t <> MONACO_READY ∧ t <> MONACO_CHANGE_VALUE.

(** An event that does not fire [EDITOR_READY]: neither that hook nor
    [MONACO_READY], whose handler triggers it, is triggered. *)
Definition quiet (e : Event) : Prop :=
  match e with
  | Triggered EDITOR_READY _ => False
  | Triggered MONACO_READY _ => False
  | _ => True
  end.

(** * Properties *)

(** ** Reasoning about computations *)

Lemma WordWrap_eqb_refl (a : WordWrap) : WordWrap_eqb a a = true.
Proof. destruct a; reflexivity. Qed.

Lemma with_jobs_same (w : World) : with_jobs (jobs w) w = w.
Proof. destruct w; reflexivity. Qed.

Lemma bound_handles (w : World) :
  bound w -> exists mo ed, monaco w = Some mo ∧ editor w = Some ed.
Proof.
  intros [[mo Hmo] [ed Hed]]. exists mo, ed. split; assumption.
Qed.

(** Unfolds the monad of a computation applied to a state. *)
Ltac run_monad :=
  cbv beta iota delta
    [after result bind ret throw gets modify member orThrow onWidget
     discard fst snd].

(** ** The store *)

(** C10: [toggleTypewriterMode] commits the negation of
    [state.typewriterMode] and changes nothing else, in the store or
    outside it; calling it twice restores the field. *)
Theorem toggleTypewriterMode_involution (w : World) :
  let s := state (store w) in
  let mu := setTypewriterMode (negb (typewriterMode s)) in
  result Service.toggleTypewriterMode w = Ok tt
  ∧ after Service.toggleTypewriterMode w
    = with_store
        (mkStore (mkState (wordWrap s) (negb (typewriterMode s)))
                 (committed (store w) ++ [mu])
                 (watchers (store w))) w
  ∧ typewriterMode
      (state (store (after Service.toggleTypewriterMode
                       (after Service.toggleTypewriterMode w))))
    = typewriterMode s.
Proof.
  assert (E : forall v : World,
    Service.toggleTypewriterMode v
    = (Ok tt,
       with_store
         (mkStore (mkState (wordWrap (state (store v)))
                           (negb (typewriterMode (state (store v)))))
                  (committed (store v)
                     ++ [setTypewriterMode
                           (negb (typewriterMode (state (store v))))])
                  (watchers (store v))) v)).
  { intros v. unfold Service.toggleTypewriterMode, commit. run_monad.
    cbn [applyMutation wordWrap]. rewrite WordWrap_eqb_refl, app_nil_r.
    reflexivity. }
  cbv zeta. unfold result, after. rewrite !E. cbn.
  repeat split. apply negb_involutive.
Qed.

(** C3: with the editor bound, [toggleWrap] under
    [isDominatedByLongLines] shows one warning toast and changes nothing
    else: the store is as it was and nothing is committed; otherwise it
    commits [setWordWrap], with ['off'] when the viewport is wrapping
    and ['on'] when it is not, and shows no toast. *)
Theorem toggleWrap_guard (w : World) :
  bound w ->
  let info := wrappingInfo (widget w) in
  result Service.toggleWrap w = Ok tt
  ∧ (isDominatedByLongLines info = true ->
       after Service.toggleWrap w
       = with_toasts
           (toasts w ++ [(warning, "Word warp dominated by long lines"%string)])
           w
       ∧ store (after Service.toggleWrap w) = store w
       ∧ committed (store (after Service.toggleWrap w)) = committed (store w)
       ∧ toasts (after Service.toggleWrap w)
         = toasts w ++ [(warning, "Word warp dominated by long lines"%string)])
  ∧ (isDominatedByLongLines info = false ->
       let v := if isViewportWrapping info then wrap_off else wrap_on in
       committed (store (after Service.toggleWrap w))
         = committed (store w) ++ [setWordWrap v]
       ∧ state (store (after Service.toggleWrap w))
         = mkState v (typewriterMode (state (store w)))
       ∧ toasts (after Service.toggleWrap w) = toasts w).
Proof.
  intros Hb. destruct (bound_handles w Hb) as (mo & ed & Hmo & Hed).
  cbv zeta. unfold Service.toggleWrap, Service.getEditor, Editor_getWrappingInfo.
  run_monad. rewrite Hed, Hmo. cbn beta iota.
  destruct (isDominatedByLongLines (wrappingInfo (widget w))) eqn:Hd.
  - unfold toast_show. run_monad. cbn. repeat split; intros; try discriminate.
  - unfold commit. run_monad. cbn. repeat split; intros; try discriminate.
Qed.

Lemma toggleWrap_guard_witness :
  let w := with_editor (Some 2%nat) (with_monaco (Some 1%nat)
             (blank (mkWidget (mkTextModel [[]] EOL_LF)
                       (mkSelection (mkPosition 1 1) (mkPosition 1 1))
                       false (mkWrappingInfo true true) (mkModelOptions true 4)
                       [] [] false)
                    (mkState wrap_on false)
                    (mkEnv light ∅ false false false))) in
  store (after Service.toggleWrap w) = store w
  ∧ length (toasts (after Service.toggleWrap w)) = 1%nat.
Proof.
  intros w.
  assert (Hb : bound w) by (split; eexists; reflexivity).
  destruct (toggleWrap_guard w Hb) as (_ & Hdom & _).
  destruct (Hdom eq_refl) as (_ & Hs & _ & Ht).
  split; [exact Hs | rewrite Ht; reflexivity].
Defined.

(** ** Typewriter mode *)

(** The queue is empty: nothing is run. *)
Lemma drain_nothing (w : World) : jobs w = [] -> Service.drain w = w.
Proof. intros Hj. unfold Service.drain. rewrite Hj. reflexivity. Qed.

(** The listener of the module, called with an event. *)
Lemma onCursorPosition_run (w : World) (ed : EditorHandle)
    (e : CursorPositionChangedEvent) :
  Service.onCursorPosition ed e w
  = (Ok tt,
     if typewriterMode (state (store w))
        && (JS.includes ["deleteLeft"; "keyboard"]%string (ev_source e)
            && ((ev_reason e =? 0) || (ev_reason e =? 3)))
     then with_widget
            (issue (RevealPositionInCenter (ev_position e)) (widget w)) w
     else w).
Proof.
  unfold Service.onCursorPosition, Editor_revealPositionInCenter.
  run_monad.
  destruct (typewriterMode (state (store w))); cbn [andb]; [| reflexivity].
  destruct (JS.includes _ (ev_source e) && _); reflexivity.
Qed.

(** The widget reports a caret change to the one listener installed. *)
Lemma caret_report (w : World) (ed : EditorHandle)
    (e : CursorPositionChangedEvent) :
  cursorListeners (widget w) = [TypewriterListener ed] -> jobs w = [] ->
  result (perform (CursorPositionChanged e)) w = Ok tt
  ∧ step (CursorPositionChanged e) w
    = if typewriterMode (state (store w))
         && (JS.includes ["deleteLeft"; "keyboard"]%string (ev_source e)
             && ((ev_reason e =? 0) || (ev_reason e =? 3)))
      then with_widget
             (issue (RevealPositionInCenter (ev_position e)) (widget w)) w
      else w.
Proof.
  intros Hls Hj. unfold step, result, after. cbn [perform].
  unfold bind at 1 2. unfold gets at 1 2. rewrite Hls.
  cbn [forEach Service.runListener]. unfold bind, ret.
  rewrite onCursorPosition_run. cbn [fst snd].
  split; [reflexivity |]. apply drain_nothing.
  destruct (_ && _); [cbn [jobs with_widget] |]; exact Hj.
Qed.

(** C7: in a state in which the caret listener of the module is
    installed, a caret event of the widget makes the service issue
    [revealPositionInCenter] for the event's position exactly when
    typewriter mode is on, the source is ['deleteLeft'] or ['keyboard']
    and the reason is one of the two codes the listener tests, 0 and 3;
    otherwise the event leaves everything as it is.  So a keyboard
    event with either code issues the command under typewriter mode,
    and a mouse event never does. *)
Theorem typewriter_reveal (w : World) (ed : EditorHandle)
    (e : CursorPositionChangedEvent) :
  cursorListeners (widget w) = [TypewriterListener ed] -> jobs w = [] ->
  let w' := step (CursorPositionChanged e) w in
  let qualifies :=
    typewriterMode (state (store w)) = true
    ∧ (ev_source e = "deleteLeft"%string ∨ ev_source e = "keyboard"%string)
    ∧ (ev_reason e = 0 ∨ ev_reason e = 3) in
  result (perform (CursorPositionChanged e)) w = Ok tt
  ∧ (qualifies <->
     issued (widget w')
     = issued (widget w) ++ [RevealPositionInCenter (ev_position e)])
  ∧ (~ qualifies <-> w' = w)
  ∧ (typewriterMode (state (store w)) = true ->
     forall reason, reason = 0 ∨ reason = 3 ->
       let keyboard := mkCursorEvent (ev_position e) "keyboard" reason in
       issued (widget (step (CursorPositionChanged keyboard) w))
       = issued (widget w) ++ [RevealPositionInCenter (ev_position e)])
  ∧ (forall reason,
       let mouse := mkCursorEvent (ev_position e) "mouse" reason in
       step (CursorPositionChanged mouse) w = w).
Proof.
  intros Hls Hj. cbv zeta.
  assert (Hq : typewriterMode (state (store w))
               && (JS.includes ["deleteLeft"; "keyboard"]%string (ev_source e)
                   && ((ev_reason e =? 0) || (ev_reason e =? 3))) = true
               <-> typewriterMode (state (store w)) = true
                   ∧ (ev_source e = "deleteLeft"%string
                      ∨ ev_source e = "keyboard"%string)
                   ∧ (ev_reason e = 0 ∨ ev_reason e = 3)).
  { rewrite !andb_true_iff, !orb_true_iff, !Z.eqb_eq.
    unfold JS.includes. cbn [existsb].
    rewrite orb_false_r, orb_true_iff, !String.eqb_eq.
    split; (intros (Ht & [H | H] & Hr);
            (split; [exact Ht |]; split; [| exact Hr]);
            [left | right]; congruence). }
  assert (Hne : forall l (c : Command), l ++ [c] <> l).
  { intros l c H. apply (f_equal (@length _)) in H.
    rewrite length_app in H. cbn in H. lia. }
  destruct (caret_report w ed e Hls Hj) as [Hr Hs].
  split; [exact Hr |]. rewrite Hs.
  split; [| split; [| split]].
  - destruct (_ && _) eqn:E.
    + split; [reflexivity |]. intros _. apply Hq. reflexivity.
    + split.
      * intros H. apply Hq in H. discriminate.
      * intros H. symmetry in H. apply Hne in H. destruct H.
  - destruct (_ && _) eqn:E.
    + split.
      * intros H. exfalso. apply H, Hq. reflexivity.
      * intros H _. apply (f_equal (fun v => issued (widget v))) in H.
        cbn in H. apply Hne in H. destruct H.
    + split; [reflexivity |]. intros _ H. apply Hq in H. discriminate.
  - intros Htm reason Hreason.
    destruct (caret_report w ed
                (mkCursorEvent (ev_position e) "keyboard" reason) Hls Hj)
      as [_ Hk].
    rewrite Hk, Htm. cbn [ev_source ev_reason ev_position andb].
    destruct Hreason as [-> | ->]; reflexivity.
  - intros reason.
    destruct (caret_report w ed
                (mkCursorEvent (ev_position e) "mouse" reason) Hls Hj)
      as [_ Hm].
    rewrite Hm. cbn [ev_source].
    destruct (typewriterMode (state (store w))); reflexivity.
Qed.

Lemma typewriter_reveal_witness :
  let w := step (Called call_toggleTypewriterMode) (ready abc) in
  let e := mkCursorEvent (mkPosition 1 1) "keyboard" 0 in
  issued (widget (step (CursorPositionChanged e) w))
  = [RevealPositionInCenter (mkPosition 1 1)].
Proof.
  intros w e.
  assert (Hls : cursorListeners (widget w) = [TypewriterListener 2%nat])
    by (vm_compute; reflexivity).
  assert (Hj : jobs w = []) by (vm_compute; reflexivity).
  destruct (typewriter_reveal w 2%nat e Hls Hj) as (_ & _ & _ & H & _).
  exact (H eq_refl 0 (or_introl eq_refl)).
Defined.

(** ** The text model *)

Section TextModelFacts.

Context (m : TextModel).

Lemma lineAt_lookup (n : Z) :
  1 <= n <= getLineCount m ->
  lines m !! Z.to_nat (n - 1) = Some (lineAt m n).
Proof.
  intros H. unfold lineAt, getLineCount in *.
  destruct (lines m !! Z.to_nat (n - 1)) eqn:E; [reflexivity |].
  apply lookup_ge_None in E. lia.
Qed.

Lemma validLine_true (n : Z) :
  1 <= n <= getLineCount m -> validLine m n = true.
Proof.
  intros H. unfold validLine.
  apply andb_true_iff. split; apply Z.leb_le; lia.
Qed.

Lemma validLine_beyond (n : Z) :
  getLineCount m < n -> validLine m n = false.
Proof.
  intros H. unfold validLine.
  apply andb_false_iff. right. apply Z.leb_gt. lia.
Qed.

Lemma validatePosition_valid (l c : Z) :
  1 <= l <= getLineCount m ->
  1 <= c <= getLineMaxColumn m l ->
  validatePosition m (mkPosition l c) = mkPosition l c.
Proof.
  intros Hl Hc. unfold validatePosition. cbn [lineNumber column].
  destruct (Z.ltb_spec l 1); [lia |].
  destruct (Z.ltb_spec (getLineCount m) l); [lia |].
  destruct (Z.leb_spec c 1); [f_equal; lia |].
  destruct (Z.leb_spec (getLineMaxColumn m l) c); [f_equal; lia | reflexivity].
Qed.

Lemma newRange_ordered (sl sc el ec : Z) :
  sl < el ∨ (sl = el ∧ sc <= ec) ->
  newRange sl sc el ec = mkRange sl sc el ec.
Proof.
  intros H. unfold newRange.
  destruct (Z.ltb_spec el sl); cbn [orb]; [lia |].
  destruct (Z.eqb_spec sl el); cbn [andb]; [| reflexivity].
  destruct (Z.ltb_spec ec sc); [lia | reflexivity].
Qed.

Lemma validateRange_valid (sl sc el ec : Z) :
  1 <= sl <= getLineCount m -> 1 <= el <= getLineCount m ->
  1 <= sc <= getLineMaxColumn m sl -> 1 <= ec <= getLineMaxColumn m el ->
  sl < el ∨ (sl = el ∧ sc <= ec) ->
  validateRange m (newRange sl sc el ec) = mkRange sl sc el ec.
Proof.
  intros Hsl Hel Hsc Hec Hord. rewrite (newRange_ordered _ _ _ _ Hord).
  unfold validateRange, getStartPosition, getEndPosition.
  cbn [startLineNumber startColumn endLineNumber endColumn].
  rewrite !validatePosition_valid by assumption.
  cbn [lineNumber column]. apply newRange_ordered, Hord.
Qed.

Lemma getLineMaxColumn_ge (n : Z) : 1 <= getLineMaxColumn m n.
Proof. unfold getLineMaxColumn, jslength. lia. Qed.

End TextModelFacts.

Lemma glue_whole (ts : list jsstring) :
  ts <> [] -> glue [] ts [] = ts.
Proof.
  destruct ts as [| t ts']; [congruence |]. intros _.
  destruct ts' as [| t' ts'']; cbn [glue].
  - rewrite app_nil_r. reflexivity.
  - cbn [app]. f_equal. rewrite app_nil_r.
    symmetry. apply app_removelast_last. discriminate.
Qed.

Lemma splitLines_nonempty (s : jsstring) : splitLines s <> [].
Proof.
  induction s as [| c rest IH]; cbn [splitLines]; [discriminate |].
  destruct (Ascii.eqb c LF); [discriminate |].
  destruct (Ascii.eqb c CR).
  - destruct rest as [| c' rest']; [discriminate |].
    destruct (Ascii.eqb c' LF); discriminate.
  - destruct (splitLines rest); discriminate.
Qed.

Lemma splitLines_plain (s : jsstring) :
  noTerminator s -> splitLines s = [s].
Proof.
  induction s as [| c rest IH]; intros [Hlf Hcr]; [reflexivity |].
  cbn [splitLines].
  destruct (Ascii.eqb_spec c LF) as [-> | _]; [exfalso; apply Hlf; left |].
  destruct (Ascii.eqb_spec c CR) as [-> | _]; [exfalso; apply Hcr; left |].
  rewrite IH; [reflexivity |].
  split; intros H; [apply Hlf | apply Hcr]; right; exact H.
Qed.

Lemma splitLines_line_LF (l rest : jsstring) :
  noTerminator l -> splitLines (l ++ LF :: rest) = l :: splitLines rest.
Proof.
  induction l as [| c l' IH]; intros [Hlf Hcr].
  - reflexivity.
  - cbn [app splitLines].
    destruct (Ascii.eqb_spec c LF) as [-> | _]; [exfalso; apply Hlf; left |].
    destruct (Ascii.eqb_spec c CR) as [-> | _]; [exfalso; apply Hcr; left |].
    rewrite IH; [reflexivity |].
    split; intros H; [apply Hlf | apply Hcr]; right; exact H.
Qed.

(** Cutting the LF-joined lines of a model gives its lines back. *)
Lemma splitLines_joinLines (ls : list jsstring) :
  ls <> [] -> Forall noTerminator ls ->
  splitLines (joinLines [LF] ls) = ls.
Proof.
  induction ls as [| l ls' IH]; [congruence |]. intros _ Hall.
  apply Forall_cons in Hall as [Hl Hls'].
  destruct ls' as [| l' ls''].
  - cbn [joinLines]. apply splitLines_plain, Hl.
  - change (joinLines [LF] (l :: l' :: ls''))
      with (l ++ [LF] ++ joinLines [LF] (l' :: ls'')).
    cbn [app]. rewrite splitLines_line_LF by exact Hl.
    f_equal. apply IH; [discriminate | exact Hls'].
Qed.

(** A model's LF-joined value holds no carriage return. *)
Lemma joinLines_LF_no_CR (ls : list jsstring) :
  Forall noTerminator ls -> CR ∉ joinLines [LF] ls.
Proof.
  induction ls as [| l ls' IH]; intros Hall.
  - cbn. apply not_elem_of_nil.
  - apply Forall_cons in Hall as [[_ Hl] Hls'].
    destruct ls' as [| l' ls'']; [exact Hl |].
    change (joinLines [LF] (l :: l' :: ls''))
      with (l ++ [LF] ++ joinLines [LF] (l' :: ls'')).
    rewrite !elem_of_app. intros [H | [H | H]].
    + apply Hl, H.
    + apply list_elem_of_singleton in H. discriminate.
    + apply (IH Hls'), H.
Qed.

(** ** The service on a bound editor *)

Ltac run_service :=
  repeat (run_monad;
          cbn [monaco editor widget with_widget with_monaco with_editor];
          try match goal with
              | H : monaco _ = Some _ |- _ => rewrite H
              | H : editor _ = Some _ |- _ => rewrite H
              end).

Ltac unfold_widget :=
  unfold Service.getEditor, Service.getMonaco, Editor_executeEdits,
    Editor_setPosition, Editor_focus, Editor_getSelection, Editor_getModel,
    new_Range, new_Position, Model_getLineLength, Model_getLineContent,
    Model_getLineCount, Model_getValueInRange, Model_getValue.

Section Bound.

Context (w : World) (mo : MonacoHandle) (ed : EditorHandle).
Hypothesis Hmo : monaco w = Some mo.
Hypothesis Hed : editor w = Some ed.

Lemma replaceLine_run (line : Z) (text : jsstring) (len : Z) :
  Monaco.getLineLength (model (widget w)) line = Some len ->
  Service.replaceLine line text w
  = (Ok tt,
     with_widget
       (with_focused true
          (placeCaret (mkPosition line (jslength text + 1))
             (executeEdit (mkEdit (newRange line 1 line (len + 1))
                                (Some text) true)
                        (widget w)))) w).
Proof.
  intros Hlen. unfold Service.replaceLine. unfold_widget.
  run_service. rewrite Hlen. run_service. reflexivity.
Qed.

Lemma replaceLine_throws (line : Z) (text : jsstring) :
  Monaco.getLineLength (model (widget w)) line = None ->
  Service.replaceLine line text w = (Throw IllegalLineNumber, w).
Proof.
  intros Hlen. unfold Service.replaceLine. unfold_widget.
  run_service. rewrite Hlen. reflexivity.
Qed.

Lemma replaceLines_run (lineStart lineEnd : Z) (text : jsstring) (len : Z) :
  Monaco.getLineLength (model (widget w)) lineEnd = Some len ->
  Service.replaceLines lineStart lineEnd text w
  = (Ok tt,
     with_widget
       (with_focused true
          (placeCaret (mkPosition lineEnd (len + 1))
             (executeEdit (mkEdit (newRange lineStart 1 lineEnd (len + 1))
                                (Some text) true)
                        (widget w)))) w).
Proof.
  intros Hlen. unfold Service.replaceLines. unfold_widget.
  run_service. rewrite Hlen. run_service. reflexivity.
Qed.

Lemma replaceLines_throws (lineStart lineEnd : Z) (text : jsstring) :
  Monaco.getLineLength (model (widget w)) lineEnd = None ->
  Service.replaceLines lineStart lineEnd text w
  = (Throw IllegalLineNumber, w).
Proof.
  intros Hlen. unfold Service.replaceLines. unfold_widget.
  run_service. rewrite Hlen. reflexivity.
Qed.

Lemma deleteLine_run (line : Z) :
  Service.deleteLine line w
  = (Ok tt,
     with_widget
       (with_focused true
          (placeCaret (mkPosition line 1)
             (executeEdit (mkEdit (newRange line 1 (line + 1) 1) None false)
                        (widget w)))) w).
Proof.
  unfold Service.deleteLine. unfold_widget. run_service. reflexivity.
Qed.

Lemma getLineContent_run (line : Z) :
  Service.getLineContent line w
  = (match Monaco.getLineContent (model (widget w)) line with
     | Some s => Ok s
     | None => Throw IllegalLineNumber
     end, w).
Proof.
  unfold Service.getLineContent. unfold_widget. run_service.
  destruct (Monaco.getLineContent _ line); reflexivity.
Qed.

Lemma getLinesContent_run (lineStart lineEnd : Z) :
  Service.getLinesContent lineStart lineEnd w
  = (match Monaco.getLineLength (model (widget w)) lineEnd with
     | Some len =>
         Ok (Monaco.getValueInRange (model (widget w))
               (newRange lineStart 1 lineEnd (len + 1)))
     | None => Throw IllegalLineNumber
     end, w).
Proof.
  unfold Service.getLinesContent. unfold_widget. run_service.
  destruct (Monaco.getLineLength _ lineEnd); run_service; reflexivity.
Qed.

Lemma getValue_run :
  Service.getValue w
  = (Ok (Monaco.getValue (model (widget w)) PreferLF), w).
Proof.
  unfold Service.getValue. unfold_widget. run_service. reflexivity.
Qed.

Lemma setValue_run (text : jsstring) (len : Z) :
  let maxLine := getLineCount (model (widget w)) in
  Monaco.getLineLength (model (widget w)) maxLine = Some len ->
  Service.setValue text w
  = (Ok tt,
     with_widget
       (with_focused true
          (executeEdit (mkEdit (newRange 1 1 maxLine (len + 1))
                             (Some text) true)
                     (widget w))) w).
Proof.
  intros maxLine Hlen. unfold Service.setValue. unfold_widget.
  run_service. fold maxLine. rewrite Hlen. run_service. reflexivity.
Qed.

End Bound.

(** A writable editor applies the edit; a read-only one stays as it is. *)
Lemma executeEdit_writable (op : EditOperation) (d : Widget) :
  readOnly d = false -> executeEdit op d = applyEdit op d.
Proof. intros H. unfold executeEdit. rewrite H. reflexivity. Qed.

Lemma executeEdit_readOnly (op : EditOperation) (d : Widget) :
  readOnly d = true -> executeEdit op d = d.
Proof. intros H. unfold executeEdit. rewrite H. reflexivity. Qed.

(** ** Deleting a line *)

Lemma spliceLines_delete (ls : list jsstring) (k : Z) :
  1 <= k < Z.of_nat (length ls) ->
  spliceLines ls (mkRange k 1 (k + 1) 1) []
  = take (Z.to_nat (k - 1)) ls ++ drop (Z.to_nat k) ls.
Proof.
  intros Hk. unfold spliceLines.
  cbn [startLineNumber startColumn endLineNumber endColumn splitLines].
  replace (Z.to_nat (k + 1 - 1)) with (Z.to_nat k) by lia.
  change (Z.to_nat (1 - 1)) with 0%nat. rewrite take_0, drop_0.
  destruct (ls !! Z.to_nat k) as [x |] eqn:E.
  - cbn [default glue app]. f_equal. symmetry. apply drop_S, E.
  - apply lookup_ge_None in E. lia.
Qed.

Lemma model_applyEdit (op : EditOperation) (d : Widget) :
  model (applyEdit op d)
  = mkTextModel
      (spliceLines (lines (model d)) (validateRange (model d) (range op))
                   (editText op))
      (eol (model d)).
Proof. reflexivity. Qed.

Lemma position_placeCaret (p : Position) (d : Widget) :
  position (selection (with_focused true (placeCaret p d)))
  = validatePosition (model d) p.
Proof. reflexivity. Qed.

Lemma model_placeCaret (p : Position) (d : Widget) :
  model (with_focused true (placeCaret p d)) = model d.
Proof. reflexivity. Qed.

(** C4, as the code has it: on a buffer of N lines and for
    1 <= k < N, in an editor that is not read-only, [deleteLine k]
    replaces the range from (k, 1) to (k + 1, 1) by nothing: the buffer
    has N - 1 lines, its line k is what line k + 1 was, and the caret
    is at (k, 1).  In a read-only editor [deleteLine k] returns as
    well, the buffer is as it was, and the caret is at (k, 1). *)
Theorem deleteLine_removes_line (w : World) (k : Z) :
  bound w ->
  1 <= k < getLineCount (model (widget w)) ->
  let d := widget w in
  let w' := after (Service.deleteLine k) w in
  (readOnly d = false ->
   result (Service.deleteLine k) w = Ok tt
   ∧ lines (model (widget w'))
     = spliceLines (lines (model d)) (mkRange k 1 (k + 1) 1) []
   ∧ lines (model (widget w'))
     = take (Z.to_nat (k - 1)) (lines (model d))
         ++ drop (Z.to_nat k) (lines (model d))
   ∧ getLineCount (model (widget w')) = getLineCount (model d) - 1
   ∧ result (Service.getLineContent k) w' = Ok (lineAt (model d) (k + 1))
   ∧ result (Service.getLineContent (k + 1)) w = Ok (lineAt (model d) (k + 1))
   ∧ position (selection (widget w')) = mkPosition k 1)
  ∧ (readOnly d = true ->
     result (Service.deleteLine k) w = Ok tt
     ∧ model (widget w') = model d
     ∧ position (selection (widget w')) = mkPosition k 1).
Proof.
  intros Hb Hk. destruct (bound_handles w Hb) as (mo & ed & Hmo & Hed).
  cbv zeta. unfold result, after.
  rewrite (deleteLine_run w mo ed Hmo Hed).
  split.
  2: { intros Hro. rewrite executeEdit_readOnly by exact Hro.
       cbn [fst snd widget with_widget].
       split; [reflexivity |]. split; [reflexivity |].
       rewrite position_placeCaret. apply validatePosition_valid; [lia |].
       pose proof (getLineMaxColumn_ge (model (widget w)) k). lia. }
  intros Hro.
  rewrite executeEdit_writable by exact Hro.
  cbn [fst snd widget with_widget].
  set (d := widget w) in *. set (m := model d) in *.
  assert (Hr : validateRange m (newRange k 1 (k + 1) 1)
               = mkRange k 1 (k + 1) 1).
  { apply validateRange_valid; try lia.
    - pose proof (getLineMaxColumn_ge m k). lia.
    - pose proof (getLineMaxColumn_ge m (k + 1)). lia. }
  assert (Hspl : lines (model (applyEdit (mkEdit (newRange k 1 (k + 1) 1)
                                                 None false) d))
                 = take (Z.to_nat (k - 1)) (lines m)
                     ++ drop (Z.to_nat k) (lines m)).
  { rewrite model_applyEdit. cbn [range editText text default lines].
    fold m. rewrite Hr. apply spliceLines_delete. exact Hk. }
  assert (Hcount : getLineCount
                     (model (applyEdit (mkEdit (newRange k 1 (k + 1) 1)
                                               None false) d))
                   = getLineCount m - 1).
  { unfold getLineCount in *. rewrite Hspl.
    rewrite length_app, length_take, length_drop. lia. }
  assert (Hline : lineAt (model (applyEdit (mkEdit (newRange k 1 (k + 1) 1)
                                                   None false) d)) k
                  = lineAt m (k + 1)).
  { unfold lineAt. rewrite Hspl.
    unfold getLineCount in Hk.
    rewrite lookup_app_r by (rewrite length_take; lia).
    rewrite length_take, lookup_drop. f_equal. f_equal. lia. }
  split; [reflexivity |]. rewrite !model_placeCaret.
  split; [| split; [exact Hspl | split; [exact Hcount |]]].
  - rewrite Hspl. symmetry. apply spliceLines_delete. exact Hk.
  - split; [| split].
    + rewrite (getLineContent_run (with_widget _ w) ed Hed).
      cbn [fst widget with_widget]. rewrite model_placeCaret.
      unfold Monaco.getLineContent.
      rewrite validLine_true by (rewrite Hcount; lia).
      rewrite Hline. reflexivity.
    + rewrite (getLineContent_run w ed Hed). cbn [fst].
      unfold Monaco.getLineContent. fold d. fold m.
      rewrite validLine_true by lia. reflexivity.
    + rewrite position_placeCaret. apply validatePosition_valid.
      * rewrite Hcount. lia.
      * pose proof (getLineMaxColumn_ge
                      (model (applyEdit (mkEdit (newRange k 1 (k + 1) 1)
                                                None false) d)) k). lia.
Qed.

Lemma deleteLine_removes_line_witness :
  lines (model (widget (after (Service.deleteLine 2) (ready abc))))
  = [str "a"; str "c"]
  ∧ position (selection (widget (after (Service.deleteLine 2) (ready abc))))
    = mkPosition 2 1.
Proof.
  assert (Hb : bound (ready abc)) by (split; eexists; reflexivity).
  assert (Hk : 1 <= 2 < getLineCount (model (widget (ready abc))))
    by (vm_compute; split; [discriminate | reflexivity]).
  destruct (proj1 (deleteLine_removes_line (ready abc) 2 Hb Hk) eq_refl)
    as (_ & _ & Hl & _ & _ & _ & Hp).
  split; [rewrite Hl; reflexivity | exact Hp].
Defined.

(** C4 as stated fails in a read-only editor: started with the
    read-only flag, the module has handed the widget [readOnly] with
    the fetched settings; over the buffer a, b, c, [deleteLine 2] then
    returns and the buffer still has its three lines, line 2 still
    b. *)
Lemma deleteLine_removes_line_counterexample :
  readOnly (widget (locked abc)) = true
  ∧ lines (model (widget (locked abc))) = [str "a"; str "b"; str "c"]
  ∧ result (Service.deleteLine 2) (locked abc) = Ok tt
  ∧ lines (model (widget (after (Service.deleteLine 2) (locked abc))))
    = [str "a"; str "b"; str "c"]
  ∧ getLineCount (model (widget (after (Service.deleteLine 2) (locked abc))))
    = 3
  ∧ result (Service.getLineContent 2)
      (after (Service.deleteLine 2) (locked abc))
    = Ok (str "b").
Proof.
  split; [vm_compute; reflexivity |].
  split; [vm_compute; reflexivity |].
  split; [vm_compute; reflexivity |].
  split; [vm_compute; reflexivity |].
  split; vm_compute; reflexivity.
Qed.

(** ** Replacing whole lines *)

Lemma spliceLines_whole (L : list jsstring) (a b : Z) (text : jsstring) :
  1 <= a <= b -> b <= Z.of_nat (length L) ->
  spliceLines L
    (mkRange a 1 b (jslength (default [] (L !! Z.to_nat (b - 1))) + 1)) text
  = take (Z.to_nat (a - 1)) L ++ splitLines text ++ drop (Z.to_nat b) L.
Proof.
  intros Hab Hb. unfold spliceLines.
  cbn [startLineNumber startColumn endLineNumber endColumn].
  change (Z.to_nat (1 - 1)) with 0%nat. rewrite take_0.
  rewrite drop_ge by (unfold jslength; lia).
  rewrite glue_whole by apply splitLines_nonempty.
  replace (S (Z.to_nat (b - 1))) with (Z.to_nat b) by lia.
  reflexivity.
Qed.

Lemma getLineLength_valid (m : TextModel) (n : Z) :
  1 <= n <= getLineCount m ->
  Monaco.getLineLength m n = Some (jslength (lineAt m n)).
Proof.
  intros H. unfold Monaco.getLineLength.
  rewrite validLine_true by exact H. reflexivity.
Qed.

Lemma getLineLength_beyond (m : TextModel) (n : Z) :
  getLineCount m < n -> Monaco.getLineLength m n = None.
Proof.
  intros H. unfold Monaco.getLineLength.
  rewrite validLine_beyond by exact H. reflexivity.
Qed.

(** The model after an edit that replaces lines [a] to [b] whole. *)
Lemma applyEdit_whole_lines (d : Widget) (a b : Z) (text : jsstring) :
  1 <= a <= b -> b <= getLineCount (model d) ->
  lines (model (applyEdit
                  (mkEdit (newRange a 1 b (jslength (lineAt (model d) b) + 1))
                          (Some text) true) d))
  = take (Z.to_nat (a - 1)) (lines (model d))
      ++ splitLines text ++ drop (Z.to_nat b) (lines (model d)).
Proof.
  intros Hab Hb. rewrite model_applyEdit.
  cbn [range editText Monaco.text default lines].
  rewrite validateRange_valid.
  - apply spliceLines_whole; [exact Hab | exact Hb].
  - lia.
  - lia.
  - pose proof (getLineMaxColumn_ge (model d) a). lia.
  - unfold getLineMaxColumn, jslength. lia.
  - unfold jslength. lia.
Qed.

Lemma lookup_List_last (ts : list jsstring) :
  ts <> [] -> ts !! (length ts - 1)%nat = Some (List.last ts []).
Proof.
  intros Hne.
  rewrite (app_removelast_last [] Hne) at 1 2.
  rewrite length_app. cbn [length].
  replace (length (removelast ts) + 1 - 1)%nat
    with (length (removelast ts) + 0)%nat by lia.
  rewrite lookup_app_r by lia.
  replace (length (removelast ts) + 0 - length (removelast ts))%nat
    with 0%nat by lia.
  reflexivity.
Qed.

(** The line of the new model on which a replacement of lines [a] to [b]
    ends, when the text has as many lines as it replaces. *)
Lemma lineAt_after_whole (L : list jsstring) (a b : Z) (text : jsstring)
    (e : EndOfLineSequence) :
  1 <= a <= b -> b <= Z.of_nat (length L) ->
  Z.of_nat (length (splitLines text)) = b - a + 1 ->
  lineAt (mkTextModel
            (take (Z.to_nat (a - 1)) L ++ splitLines text
               ++ drop (Z.to_nat b) L) e) b
  = List.last (splitLines text) [].
Proof.
  intros Hab Hb Hlen. unfold lineAt. cbn [lines].
  rewrite lookup_app_r by (rewrite length_take; lia).
  rewrite length_take.
  rewrite lookup_app_l by lia.
  replace (Z.to_nat (b - 1) - Z.to_nat (a - 1) `min` length L)%nat
    with (length (splitLines text) - 1)%nat by lia.
  rewrite lookup_List_last by apply splitLines_nonempty.
  reflexivity.
Qed.

Lemma endOfInsert_shape (a b len : Z) (text : jsstring) :
  Z.of_nat (length (splitLines text)) = b - a + 1 ->
  jslength (List.last (splitLines text) []) = len ->
  endOfInsert (mkPosition a 1) text = mkPosition b (len + 1).
Proof.
  intros Hn Hl. unfold endOfInsert.
  destruct (splitLines text) as [| t [| t' ts]] eqn:E.
  - exfalso. apply (splitLines_nonempty text), E.
  - cbn in Hn, Hl. cbn [lineNumber column]. f_equal; lia.
  - cbn [lineNumber column]. rewrite Hl. f_equal. lia.
Qed.

(** C1, as the code has it, in an editor that is not read-only:
    [replaceLine] with a text free of line
    terminators leaves the caret at the end of the inserted text,
    (line, text.length + 1).  [replaceLines] sets the caret to
    (lineEnd, length of the old line lineEnd + 1), validated against the
    new buffer; that is the end of the inserted text when the text has
    as many lines as it replaces and its last line is as long as the old
    line lineEnd. *)
Theorem replace_caret (w : World) :
  bound w -> readOnly (widget w) = false ->
  let m := model (widget w) in
  (forall (line : Z) (text : jsstring),
     1 <= line <= getLineCount m -> noTerminator text ->
     let w' := after (Service.replaceLine line text) w in
     result (Service.replaceLine line text) w = Ok tt
     ∧ lines (model (widget w'))
       = take (Z.to_nat (line - 1)) (lines m) ++ [text]
           ++ drop (Z.to_nat line) (lines m)
     ∧ position (selection (widget w')) = mkPosition line (jslength text + 1)
     ∧ position (selection (widget w')) = endOfInsert (mkPosition line 1) text)
  ∧ (forall (lineStart lineEnd : Z) (text : jsstring),
       1 <= lineStart <= lineEnd -> lineEnd <= getLineCount m ->
       let w' := after (Service.replaceLines lineStart lineEnd text) w in
       let len := jslength (lineAt m lineEnd) in
       result (Service.replaceLines lineStart lineEnd text) w = Ok tt
       ∧ lines (model (widget w'))
         = take (Z.to_nat (lineStart - 1)) (lines m) ++ splitLines text
             ++ drop (Z.to_nat lineEnd) (lines m)
       ∧ position (selection (widget w'))
         = validatePosition (model (widget w')) (mkPosition lineEnd (len + 1))
       ∧ (Z.of_nat (length (splitLines text)) = lineEnd - lineStart + 1 ->
          jslength (List.last (splitLines text) []) = len ->
          position (selection (widget w'))
          = endOfInsert (mkPosition lineStart 1) text)).
Proof.
  intros Hb Hro. destruct (bound_handles w Hb) as (mo & ed & Hmo & Hed).
  cbv zeta. set (d := widget w). set (m := model d).
  split.
  - intros line text Hline Hplain.
    unfold result, after.
    rewrite (replaceLine_run w mo ed Hmo Hed line text
               (jslength (lineAt m line)))
      by (apply getLineLength_valid; exact Hline).
    rewrite executeEdit_writable by exact Hro.
    cbn [fst snd widget with_widget]. fold d.
    rewrite model_placeCaret, position_placeCaret.
    assert (Hl : lines (model (applyEdit
                   (mkEdit (newRange line 1 line (jslength (lineAt m line) + 1))
                           (Some text) true) d))
                 = take (Z.to_nat (line - 1)) (lines m) ++ [text]
                     ++ drop (Z.to_nat line) (lines m)).
    { unfold m. rewrite applyEdit_whole_lines by (fold m; lia).
      rewrite splitLines_plain by exact Hplain. reflexivity. }
    assert (Hp : validatePosition
                   (model (applyEdit
                      (mkEdit (newRange line 1 line
                                 (jslength (lineAt m line) + 1))
                              (Some text) true) d))
                   (mkPosition line (jslength text + 1))
                 = mkPosition line (jslength text + 1)).
    { assert (Hat : lineAt (model (applyEdit
                      (mkEdit (newRange line 1 line
                                 (jslength (lineAt m line) + 1))
                              (Some text) true) d)) line = text).
      { unfold lineAt at 1. rewrite Hl. unfold getLineCount in Hline.
        rewrite lookup_app_r by (rewrite length_take; lia).
        rewrite length_take.
        replace (Z.to_nat (line - 1)
                 - Z.to_nat (line - 1) `min` length (lines m))%nat
          with 0%nat by lia.
        reflexivity. }
      apply validatePosition_valid.
      - unfold getLineCount in *. rewrite Hl.
        rewrite !length_app, length_take, length_drop. cbn [length]. lia.
      - unfold getLineMaxColumn. rewrite Hat. unfold jslength. lia. }
    split; [reflexivity |]. split; [exact Hl |]. split; [exact Hp |].
    rewrite Hp. unfold endOfInsert.
    rewrite splitLines_plain by exact Hplain.
    cbn [lineNumber column]. f_equal. lia.
  - intros a b text Hab Hbn.
    unfold result, after.
    rewrite (replaceLines_run w mo ed Hmo Hed a b text
               (jslength (lineAt m b)))
      by (apply getLineLength_valid; fold d; fold m; lia).
    rewrite executeEdit_writable by exact Hro.
    cbn [fst snd widget with_widget]. fold d.
    rewrite model_placeCaret, position_placeCaret.
    assert (Hl : lines (model (applyEdit
                   (mkEdit (newRange a 1 b (jslength (lineAt m b) + 1))
                           (Some text) true) d))
                 = take (Z.to_nat (a - 1)) (lines m) ++ splitLines text
                     ++ drop (Z.to_nat b) (lines m)).
    { unfold m. apply applyEdit_whole_lines; [exact Hab | exact Hbn]. }
    split; [reflexivity |]. split; [exact Hl |]. split; [reflexivity |].
    intros Hn Hlast.
    rewrite (endOfInsert_shape a b (jslength (lineAt m b)) text Hn Hlast).
    assert (Hm' : model (applyEdit
                     (mkEdit (newRange a 1 b (jslength (lineAt m b) + 1))
                             (Some text) true) d)
                  = mkTextModel
                      (take (Z.to_nat (a - 1)) (lines m) ++ splitLines text
                         ++ drop (Z.to_nat b) (lines m)) (eol m)).
    { rewrite <- Hl. rewrite model_applyEdit. reflexivity. }
    rewrite Hm'. unfold getLineCount in Hbn.
    apply validatePosition_valid.
    + unfold getLineCount. cbn [lines].
      rewrite !length_app, length_take, length_drop. lia.
    + unfold getLineMaxColumn.
      rewrite lineAt_after_whole by (try exact Hab; try exact Hn; lia).
      rewrite Hlast. unfold jslength. lia.
Qed.

(** The scenario of C1: over the buffer a, b, c, [replaceLines 1 2]
    with the text x, y gives the buffer x, y, c and the caret (2, 2). *)
Lemma replace_caret_witness :
  let text := str "x" ++ [LF] ++ str "y" in
  let w' := after (Service.replaceLines 1 2 text) (ready abc) in
  lines (model (widget w')) = [str "x"; str "y"; str "c"]
  ∧ position (selection (widget w')) = mkPosition 2 2.
Proof.
  intros text w'. subst w'.
  assert (Hb : bound (ready abc)) by (split; eexists; reflexivity).
  destruct (replace_caret (ready abc) Hb eq_refl) as [_ H].
  destruct (H 1 2 text) as (_ & Hl & Hp & _).
  - lia.
  - vm_compute. discriminate.
  - split; [rewrite Hl | rewrite Hp]; reflexivity.
Defined.

(** C1 as stated fails: over the buffer a, b, c, [replaceLines 1 2] with
    the one line xyz leaves the buffer xyz, c; the inserted text ends at
    (1, 4), the caret is at (2, 2).  And [replaceLine 1] with the two
    lines x, y leaves the caret at (1, 2) while the text ends at (2, 2). *)
Lemma replace_caret_counterexample :
  let w1 := after (Service.replaceLines 1 2 (str "xyz")) (ready abc) in
  let xy := str "x" ++ [LF] ++ str "y" in
  let w2 := after (Service.replaceLine 1 xy) (ready abc) in
  (lines (model (widget w1)) = [str "xyz"; str "c"]
   ∧ position (selection (widget w1)) = mkPosition 2 2
   ∧ endOfInsert (mkPosition 1 1) (str "xyz") = mkPosition 1 4
   ∧ position (selection (widget w1))
     <> endOfInsert (mkPosition 1 1) (str "xyz"))
  ∧ (lines (model (widget w2)) = [str "x"; str "y"; str "b"; str "c"]
     ∧ position (selection (widget w2)) = mkPosition 1 2
     ∧ position (selection (widget w2))
       <> endOfInsert (mkPosition 1 1) xy).
Proof.
  cbv zeta. repeat split; try reflexivity; vm_compute; discriminate.
Qed.

(** ** Lines out of range *)

Lemma validLine_outside (m : TextModel) (n : Z) :
  n < 1 ∨ getLineCount m < n -> validLine m n = false.
Proof.
  intros H. unfold validLine. apply andb_false_iff.
  destruct H; [left | right]; apply Z.leb_gt; lia.
Qed.

(** C8, as the code has it: a line below 1 or beyond the line count
    makes [getLineContent], [replaceLine], and [replaceLines] and
    [getLinesContent] in their [lineEnd], fail with the model's error
    for an illegal line number, the state untouched.  [deleteLine]
    checks nothing and returns normally for every line. *)
Theorem line_out_of_range (w : World) (line : Z) :
  bound w ->
  line < 1 ∨ getLineCount (model (widget w)) < line ->
  Service.getLineContent line w = (Throw IllegalLineNumber, w)
  ∧ (forall text, Service.replaceLine line text w = (Throw IllegalLineNumber, w))
  ∧ (forall lineStart text,
       Service.replaceLines lineStart line text w
       = (Throw IllegalLineNumber, w))
  ∧ (forall lineStart,
       Service.getLinesContent lineStart line w
       = (Throw IllegalLineNumber, w))
  ∧ result (Service.deleteLine line) w = Ok tt.
Proof.
  intros Hb Hout. destruct (bound_handles w Hb) as (mo & ed & Hmo & Hed).
  assert (Hlen : Monaco.getLineLength (model (widget w)) line = None).
  { unfold Monaco.getLineLength. rewrite validLine_outside by exact Hout.
    reflexivity. }
  assert (Hcon : Monaco.getLineContent (model (widget w)) line = None).
  { unfold Monaco.getLineContent. rewrite validLine_outside by exact Hout.
    reflexivity. }
  split; [| split; [| split; [| split]]].
  - rewrite (getLineContent_run w ed Hed). rewrite Hcon. reflexivity.
  - intros text. apply (replaceLine_throws w ed Hed). exact Hlen.
  - intros a text. apply (replaceLines_throws w ed Hed). exact Hlen.
  - intros a. rewrite (getLinesContent_run w mo ed Hmo Hed).
    rewrite Hlen. reflexivity.
  - unfold result. rewrite (deleteLine_run w mo ed Hmo Hed). reflexivity.
Qed.

Lemma line_out_of_range_witness :
  Service.getLineContent 4 (ready abc) = (Throw IllegalLineNumber, ready abc)
  ∧ result (Service.deleteLine 4) (ready abc) = Ok tt.
Proof.
  assert (Hb : bound (ready abc)) by (split; eexists; reflexivity).
  assert (Hout : 4 < 1 ∨ getLineCount (model (widget (ready abc))) < 4)
    by (right; reflexivity).
  destruct (line_out_of_range (ready abc) 4 Hb Hout) as (Hg & _ & _ & _ & Hd).
  split; [exact Hg | exact Hd].
Defined.

(** C8 as stated fails: over the buffer a, b, c of three lines,
    [deleteLine 5] returns normally, with the caret clamped to (3, 2);
    [getLinesContent 5 2] returns the clamped range's content;
    [replaceLines 5 2] edits the clamped range. *)
Lemma line_out_of_range_counterexample :
  getLineCount (model (widget (ready abc))) = 3
  ∧ result (Service.deleteLine 5) (ready abc) = Ok tt
  ∧ position (selection (widget (after (Service.deleteLine 5) (ready abc))))
    = mkPosition 3 2
  ∧ result (Service.getLinesContent 5 2) (ready abc) = Ok (LF :: str "c")
  ∧ result (Service.replaceLines 5 2 (str "x")) (ready abc) = Ok tt
  ∧ lines (model (widget (after (Service.replaceLines 5 2 (str "x"))
                            (ready abc))))
    = [str "a"; str "bx"].
Proof. repeat split; reflexivity. Qed.

(** ** The whole value *)

Lemma getLineCount_pos (m : TextModel) : wfModel m -> 1 <= getLineCount m.
Proof.
  intros [Hne _]. unfold getLineCount.
  destruct (lines m); [congruence | cbn [length]; lia].
Qed.

(** [setValue] puts the lines of its text in place of the whole buffer,
    unless the editor is read-only. *)
Lemma setValue_lines (w : World) (text : jsstring) :
  bound w -> wfModel (model (widget w)) ->
  result (Service.setValue text) w = Ok tt
  ∧ model (widget (after (Service.setValue text) w))
    = (if readOnly (widget w) then model (widget w)
       else mkTextModel (splitLines text) (eol (model (widget w))))
  ∧ after (Service.setValue text) w
    = with_widget
        (with_focused true
           (executeEdit
              (mkEdit (newRange 1 1 (getLineCount (model (widget w)))
                         (jslength (lineAt (model (widget w))
                                      (getLineCount (model (widget w)))) + 1))
                      (Some text) true)
              (widget w))) w.
Proof.
  intros Hb Hwf. destruct (bound_handles w Hb) as (mo & ed & Hmo & Hed).
  pose proof (getLineCount_pos _ Hwf) as Hpos.
  unfold result, after.
  rewrite (setValue_run w mo ed Hmo Hed text
             (jslength (lineAt (model (widget w))
                          (getLineCount (model (widget w))))))
    by (apply getLineLength_valid; lia).
  cbn [fst snd widget with_widget].
  split; [reflexivity |]. split; [| reflexivity].
  change (model (with_focused true ?d)) with (model d).
  unfold executeEdit.
  destruct (readOnly (widget w)); [reflexivity |].
  rewrite model_applyEdit.
  rewrite <- (model_applyEdit
                (mkEdit (newRange 1 1 (getLineCount (model (widget w)))
                           (jslength (lineAt (model (widget w))
                                        (getLineCount (model (widget w)))) + 1))
                        (Some text) true) (widget w)).
  assert (Hl := applyEdit_whole_lines (widget w) 1
                  (getLineCount (model (widget w))) text).
  rewrite model_applyEdit in *. cbn [lines] in Hl.
  f_equal. cbn [range editText Monaco.text default].
  cbn [range editText Monaco.text default] in Hl.
  rewrite Hl by lia.
  change (Z.to_nat (1 - 1)) with 0%nat. rewrite take_0.
  unfold getLineCount. rewrite Nat2Z.id, drop_all, app_nil_r. reflexivity.
Qed.

(** C5: with the editor bound, [getValue] returns the lines of the
    buffer joined by line feeds, free of carriage returns, and
    [setValue] of that value leaves the model as it was. *)
Theorem setValue_getValue (w : World) :
  bound w -> wfModel (model (widget w)) ->
  let m := model (widget w) in
  let v := joinLines [LF] (lines m) in
  Service.getValue w = (Ok v, w)
  ∧ (CR ∉ v)
  ∧ result (v <- Service.getValue ;; Service.setValue v) w = Ok tt
  ∧ model (widget (after (v <- Service.getValue ;; Service.setValue v) w)) = m.
Proof.
  intros Hb Hwf. destruct (bound_handles w Hb) as (mo & ed & Hmo & Hed).
  cbv zeta.
  assert (Hg : Service.getValue w
               = (Ok (joinLines [LF] (lines (model (widget w)))), w)).
  { rewrite (getValue_run w mo ed Hmo Hed). reflexivity. }
  destruct (setValue_lines w (joinLines [LF] (lines (model (widget w))))
              Hb Hwf) as (Hr & Hm & _).
  split; [exact Hg |].
  split; [apply joinLines_LF_no_CR, Hwf |].
  unfold result, after, bind in *. rewrite Hg.
  split; [exact Hr |]. rewrite Hm.
  destruct (readOnly (widget w)); [reflexivity |].
  rewrite splitLines_joinLines by apply Hwf.
  destruct (model (widget w)); reflexivity.
Qed.

Lemma abc_wf : wfModel (model (widget (ready abc))).
Proof.
  split; [discriminate |].
  repeat constructor; cbn; intros H;
    repeat (apply elem_of_cons in H as [H | H]; [discriminate |]);
    apply elem_of_nil in H; exact H.
Qed.

Lemma setValue_getValue_witness :
  model (widget (after (v <- Service.getValue ;; Service.setValue v)
                   (ready abc)))
  = model (widget (ready abc)).
Proof.
  assert (Hb : bound (ready abc)) by (split; eexists; reflexivity).
  destruct (setValue_getValue (ready abc) Hb abc_wf) as (_ & _ & _ & H).
  exact H.
Defined.

(** ** [replace] and [replaceAll] *)

Lemma isPrefix_spec (p s : jsstring) :
  JS.isPrefix p s = true <-> exists post, s = p ++ post.
Proof.
  revert s. induction p as [| a p' IH]; intros s; cbn [JS.isPrefix].
  - split; [intros _; exists s; reflexivity | reflexivity].
  - destruct s as [| b s'].
    + split; [discriminate | intros [post H]; discriminate].
    + rewrite andb_true_iff, Ascii.eqb_eq, IH. split.
      * intros [-> [post ->]]. exists post. reflexivity.
      * intros [post H]. injection H as -> ->. split; [reflexivity |].
        exists post. reflexivity.
Qed.

Lemma occursAt_isPrefix (search s : jsstring) (k : nat) :
  occursAt search s k
  <-> (k <= length s)%nat ∧ JS.isPrefix search (drop k s) = true.
Proof.
  unfold occursAt. rewrite isPrefix_spec. split.
  - intros (pre & post & -> & <-). split.
    + rewrite length_app. lia.
    + exists post. apply drop_app_length.
  - intros [Hk [post Hpost]]. exists (take k s), post. split.
    + rewrite <- Hpost. symmetry. apply take_drop.
    + apply length_take_le, Hk.
Qed.

Lemma occursAt_cons (search : jsstring) (c : ascii) (s : jsstring) (k : nat) :
  occursAt search (c :: s) (S k) <-> occursAt search s k.
Proof.
  rewrite !occursAt_isPrefix. cbn [length drop]. split; intros [H1 H2].
  - split; [lia | exact H2].
  - split; [lia | exact H2].
Qed.

Lemma occursAt_head (search s : jsstring) :
  occursAt search s 0 <-> JS.isPrefix search s = true.
Proof.
  rewrite occursAt_isPrefix, drop_0. split; [intros [_ H]; exact H |].
  intros H. split; [lia | exact H].
Qed.

(** [indexOfFrom] finds the first occurrence. *)
Lemma indexOfFrom_Some (search s : jsstring) (i j : nat) :
  JS.indexOfFrom search s i = Some j ->
  exists k, j = (i + k)%nat ∧ occursAt search s k
            ∧ forall k', (k' < k)%nat -> ~ occursAt search s k'.
Proof.
  revert i. induction s as [| c s' IH]; intros i; cbn [JS.indexOfFrom].
  - destruct (JS.isPrefix search []) eqn:E; [| discriminate].
    intros [= <-]. exists 0%nat.
    split; [lia |]. split; [apply occursAt_head, E | intros k' Hk'; lia].
  - destruct (JS.isPrefix search (c :: s')) eqn:E.
    + intros [= <-]. exists 0%nat.
      split; [lia |]. split; [apply occursAt_head, E | intros k' Hk'; lia].
    + intros H. apply IH in H as (k & -> & Hocc & Hmin).
      exists (S k). split; [lia |]. split; [apply occursAt_cons, Hocc |].
      intros [| k'] Hk'.
      * rewrite occursAt_head, E. discriminate.
      * rewrite occursAt_cons. apply Hmin. lia.
Qed.

Lemma indexOfFrom_None (search s : jsstring) (i : nat) :
  JS.indexOfFrom search s i = None -> forall k, ~ occursAt search s k.
Proof.
  revert i. induction s as [| c s' IH]; intros i; cbn [JS.indexOfFrom].
  - destruct (JS.isPrefix search []) eqn:E; [discriminate |].
    intros _ k. rewrite occursAt_isPrefix. cbn [length]. intros [Hk H].
    replace k with 0%nat in H by lia. rewrite drop_0, E in H. discriminate.
  - destruct (JS.isPrefix search (c :: s')) eqn:E; [discriminate |].
    intros H [| k].
    + rewrite occursAt_head, E. discriminate.
    + rewrite occursAt_cons. apply (IH _ H).
Qed.

(** A replacement text without a dollar is taken as it is. *)
Lemma GetSubstitution_plain (matched s : jsstring) (position : nat)
    (template : jsstring) :
  "$"%char ∉ template ->
  JS.GetSubstitution matched s position template = template.
Proof.
  induction template as [| c rest IH]; intros Hno; [reflexivity |].
  cbn [JS.GetSubstitution].
  destruct (Ascii.eqb_spec c "$") as [-> | _].
  - exfalso. apply Hno. left.
  - f_equal. apply IH. intros H. apply Hno. right. exact H.
Qed.

(** [replace] leaves a string without occurrence as it is, and
    otherwise replaces the first occurrence, and that one only. *)
Lemma replace_first (s search val : jsstring) :
  ((forall k, ~ occursAt search s k) -> JS.replace s search val = s)
  ∧ (forall pre post,
       s = pre ++ search ++ post ->
       (forall k, (k < length pre)%nat -> ~ occursAt search s k) ->
       JS.replace s search val
       = pre ++ JS.GetSubstitution search s (length pre) val ++ post).
Proof.
  unfold JS.replace, JS.indexOf. cbn [Nat.ltb Nat.leb]. rewrite drop_0.
  split.
  - intros Hno. destruct (JS.indexOfFrom search s 0) as [j |] eqn:E;
      [| reflexivity].
    apply indexOfFrom_Some in E as (k & _ & Hocc & _).
    exfalso. apply (Hno k), Hocc.
  - intros pre post Hs Hmin.
    assert (Hocc : occursAt search s (length pre))
      by (exists pre, post; split; [exact Hs | reflexivity]).
    destruct (JS.indexOfFrom search s 0) as [j |] eqn:E.
    + apply indexOfFrom_Some in E as (k & -> & Hk & Hfirst).
      cbn [Nat.add].
      assert (k = length pre) as ->.
      { destruct (Nat.lt_trichotomy k (length pre)) as [H | [H | H]].
        - exfalso. apply (Hmin k H), Hk.
        - exact H.
        - exfalso. apply (Hfirst (length pre) H), Hocc. }
      replace (take (length pre) s) with pre
        by (rewrite Hs; symmetry; apply take_app_length).
      replace (drop (length pre + length search) s) with post;
        [reflexivity |].
      rewrite Hs, app_assoc, <- length_app. symmetry. apply drop_app_length.
    + exfalso. apply (indexOfFrom_None _ _ _ E (length pre)), Hocc.
Qed.

Section MatchPositions.

Context (search : jsstring).

(** Every position [replaceAll] matches at is an occurrence. *)
Lemma matchPositions_sound (s : jsstring) (i skip p : nat) :
  p ∈ JS.matchPositions search s i skip ->
  exists k, p = (i + k)%nat ∧ (skip <= k)%nat ∧ occursAt search s k.
Proof.
  revert i skip.
  induction s as [| c s' IH]; intros i skip; cbn [JS.matchPositions].
  - destruct skip as [| sk]; [| intros H; apply elem_of_nil in H; destruct H].
    destruct (JS.isPrefix search []) eqn:E;
      [| intros H; apply elem_of_nil in H; destruct H].
    intros H. apply list_elem_of_singleton in H as ->.
    exists 0%nat. split; [lia |]. split; [lia | apply occursAt_head, E].
  - destruct skip as [| sk].
    + destruct (JS.isPrefix search (c :: s')) eqn:E.
      * intros H. apply elem_of_cons in H as [-> | H].
        -- exists 0%nat. split; [lia |].
           split; [lia | apply occursAt_head, E].
        -- apply IH in H as (k & -> & _ & Hocc).
           exists (S k). split; [lia |].
           split; [lia | apply occursAt_cons, Hocc].
      * intros H. apply IH in H as (k & -> & _ & Hocc).
        exists (S k). split; [lia |].
        split; [lia | apply occursAt_cons, Hocc].
    + intros H. apply IH in H as (k & -> & Hsk & Hocc).
      exists (S k). split; [lia |].
      split; [lia | apply occursAt_cons, Hocc].
Qed.

(** Every occurrence is matched, or lies less than one step behind a
    match. *)
Lemma matchPositions_complete (s : jsstring) (i skip k : nat) :
  (skip <= k)%nat -> occursAt search s k ->
  exists p, p ∈ JS.matchPositions search s i skip
            ∧ (p <= i + k < p + advanceBy search)%nat.
Proof.
  unfold advanceBy. revert i skip k.
  induction s as [| c s' IH]; intros i skip k Hsk Hocc;
    cbn [JS.matchPositions].
  - apply occursAt_isPrefix in Hocc as [Hk Hpre]. cbn [length] in Hk.
    assert (k = 0)%nat as -> by lia. assert (skip = 0)%nat as -> by lia.
    rewrite drop_0 in Hpre. rewrite Hpre.
    exists i. split; [apply list_elem_of_singleton; reflexivity | lia].
  - destruct skip as [| sk].
    + destruct (JS.isPrefix search (c :: s')) eqn:E.
      * destruct (Nat.lt_ge_cases k (Nat.max 1 (length search))) as [Hlt | Hge].
        -- exists i. split; [left | lia].
        -- destruct k as [| k']; [lia |].
           apply occursAt_cons in Hocc.
           destruct (IH (S i) (Nat.max 1 (length search) - 1)%nat k')
             as (p & Hp & Hrange); [lia | exact Hocc |].
           exists p. split; [right; exact Hp | lia].
      * destruct k as [| k'].
        -- apply occursAt_head in Hocc. rewrite E in Hocc. discriminate.
        -- apply occursAt_cons in Hocc.
           destruct (IH (S i) 0%nat k') as (p & Hp & Hrange);
             [lia | exact Hocc |].
           exists p. split; [exact Hp | lia].
    + destruct k as [| k']; [lia |].
      apply occursAt_cons in Hocc.
      destruct (IH (S i) sk k') as (p & Hp & Hrange); [lia | exact Hocc |].
      exists p. split; [exact Hp | lia].
Qed.

(** The matches come from left to right and do not overlap. *)
Lemma matchPositions_apart (s : jsstring) (i skip : nat) :
  StronglySorted (fun a b => (a + advanceBy search <= b)%nat)
                 (JS.matchPositions search s i skip)
  ∧ Forall (fun p => (i + skip <= p)%nat) (JS.matchPositions search s i skip).
Proof.
  unfold advanceBy. revert i skip.
  induction s as [| c s' IH]; intros i skip; cbn [JS.matchPositions].
  - destruct skip as [| sk]; [| split; constructor].
    destruct (JS.isPrefix search []); [| split; constructor].
    split; repeat constructor. lia.
  - destruct skip as [| sk].
    + destruct (JS.isPrefix search (c :: s')).
      * destruct (IH (S i) (Nat.max 1 (length search) - 1)%nat) as [Hs Hf].
        split.
        -- constructor; [exact Hs |].
           eapply Forall_impl; [exact Hf |]. cbn beta. intros p Hp. lia.
        -- constructor; [lia |].
           eapply Forall_impl; [exact Hf |]. cbn beta. intros p Hp. lia.
      * destruct (IH (S i) 0%nat) as [Hs Hf].
        split; [exact Hs |].
        eapply Forall_impl; [exact Hf |]. cbn beta. intros p Hp. lia.
    + destruct (IH (S i) sk) as [Hs Hf].
      split; [exact Hs |].
      eapply Forall_impl; [exact Hf |]. cbn beta. intros p Hp. lia.
Qed.

End MatchPositions.

(** [replaceAll] leaves a string without occurrence as it is. *)
Lemma replaceAll_none (s search val : jsstring) :
  (forall k, ~ occursAt search s k) -> JS.replaceAll s search val = s.
Proof.
  intros Hno. unfold JS.replaceAll.
  destruct (JS.matchPositions search s 0 0) as [| p ps] eqn:E.
  - cbn [JS.assemble]. apply drop_0.
  - exfalso.
    destruct (matchPositions_sound search s 0 0 p) as (k & _ & _ & Hocc).
    + rewrite E. left.
    + apply (Hno k), Hocc.
Qed.

Section ReplaceAllSteps.

Context (search val : jsstring).

Lemma matchPositions_shift (s : jsstring) (i skip : nat) :
  JS.matchPositions search s i skip
  = map (Nat.add i) (JS.matchPositions search s 0 skip).
Proof.
  revert i skip.
  induction s as [| c s' IH]; intros i skip; cbn [JS.matchPositions].
  - destruct skip; [| reflexivity].
    destruct (JS.isPrefix search []); [| reflexivity].
    cbn [map]. f_equal. lia.
  - assert (Hrec : forall k,
              JS.matchPositions search s' (S i) k
              = map (Nat.add i) (JS.matchPositions search s' 1 k)).
    { intros k. rewrite (IH (S i)), (IH 1%nat), map_map.
      apply map_ext. intros x. lia. }
    destruct skip as [| sk]; [| apply Hrec].
    destruct (JS.isPrefix search (c :: s')); [| apply Hrec].
    cbn [map]. rewrite Hrec. f_equal. lia.
Qed.

(** Scanning over a piece without occurrence. *)
Lemma matchPositions_scan (pre rest : jsstring) (i : nat) :
  (forall k, (k < length pre)%nat -> ~ occursAt search (pre ++ rest) k) ->
  JS.matchPositions search (pre ++ rest) i 0
  = JS.matchPositions search rest (i + length pre) 0.
Proof.
  revert i. induction pre as [| c pre' IH]; intros i Hno.
  - cbn [app length]. f_equal. lia.
  - cbn [app JS.matchPositions].
    destruct (JS.isPrefix search (c :: pre' ++ rest)) eqn:E.
    + exfalso. apply (Hno 0%nat); [cbn [length]; lia |].
      apply occursAt_head. exact E.
    + rewrite IH.
      * cbn [length]. f_equal. lia.
      * intros k Hk Hocc. apply (Hno (S k)); [cbn [length]; lia |].
        apply occursAt_cons. exact Hocc.
Qed.

(** Passing over the rest of a match. *)
Lemma matchPositions_skip (x rest : jsstring) (i : nat) :
  JS.matchPositions search (x ++ rest) i (length x)
  = JS.matchPositions search rest (i + length x) 0.
Proof.
  revert i. induction x as [| c x' IH]; intros i.
  - cbn [app length]. f_equal. lia.
  - cbn [app length JS.matchPositions]. rewrite IH. f_equal. lia.
Qed.

Lemma assemble_behind (front back : jsstring) (ps : list nat) (e : nat) :
  "$"%char ∉ val ->
  JS.assemble (front ++ back) search val
    (map (Nat.add (length front)) ps) (length front + e)
  = JS.assemble back search val ps e.
Proof.
  intros Hval. revert e.
  induction ps as [| p ps' IH]; intros e; cbn [map JS.assemble].
  - apply drop_app_add'. reflexivity.
  - rewrite !GetSubstitution_plain by exact Hval.
    replace (length front + p + length search)%nat
      with (length front + (p + length search))%nat by lia.
    rewrite IH. f_equal. unfold substring.
    rewrite drop_app_add' by reflexivity. f_equal. lia.
Qed.

(** With a non-empty pattern and a replacement text without dollar,
    [replaceAll] replaces the first occurrence and goes on behind it. *)
Lemma replaceAll_step (pre post : jsstring) :
  search <> [] -> "$"%char ∉ val ->
  (forall k, (k < length pre)%nat
             -> ~ occursAt search (pre ++ search ++ post) k) ->
  JS.replaceAll (pre ++ search ++ post) search val
  = pre ++ val ++ JS.replaceAll post search val.
Proof.
  intros Hne Hval Hfirst. unfold JS.replaceAll.
  assert (Hpos : JS.matchPositions search (pre ++ search ++ post) 0 0
                 = length pre
                   :: map (Nat.add (length (pre ++ search)))
                        (JS.matchPositions search post 0 0)).
  { rewrite matchPositions_scan by exact Hfirst. cbn [Nat.add].
    destruct search as [| a search'] eqn:Es; [congruence |].
    rewrite <- Es in *.
    assert (Hpre : JS.isPrefix search (search ++ post) = true)
      by (apply isPrefix_spec; exists post; reflexivity).
    rewrite Es at 2. cbn [app JS.matchPositions].
    rewrite Es in Hpre at 2. cbn [app] in Hpre. rewrite Hpre.
    f_equal.
    replace (Nat.max 1 (length search) - 1)%nat with (length search')
      by (rewrite Es; cbn [length]; lia).
    rewrite matchPositions_skip, matchPositions_shift.
    apply map_ext_in. intros x _. rewrite length_app, Es. cbn [length]. lia. }
  rewrite Hpos. cbn [JS.assemble].
  rewrite GetSubstitution_plain by exact Hval.
  unfold substring at 1. rewrite drop_0, Nat.sub_0_r, take_app_length.
  f_equal. f_equal.
  rewrite (app_assoc pre search post).
  replace (length pre + length search)%nat
    with (length (pre ++ search) + 0)%nat by (rewrite length_app; lia).
  apply assemble_behind. exact Hval.
Qed.

End ReplaceAllSteps.

(** *** [replaceAll] against the words of the spec *)

Lemma occursAt_suffix (search pre rest : jsstring) (k : nat) :
  occursAt search (pre ++ rest) (length pre + k) <-> occursAt search rest k.
Proof.
  rewrite !occursAt_isPrefix, length_app, drop_app_add'
    by reflexivity.
  split; (intros [H1 H2]; split; [lia | exact H2]).
Qed.

Lemma occursAt_within (search s : jsstring) (k : nat) :
  occursAt search s k -> (k <= length s)%nat.
Proof. intros H. apply occursAt_isPrefix in H. apply H. Qed.

Section ReplacedAllFacts.

Context (search val s : jsstring).

Lemma ReplacedAll_past (i last : nat) (out : jsstring) :
  ~ occursAt search s i ->
  ReplacedAll search val s (S i) last out ->
  ReplacedAll search val s i last out.
Proof.
  intros Hno H. inversion H as [from l Hrest | from l p o Hle Hocc Hmin Hout];
    subst.
  - apply RA_rest. intros k Hk.
    destruct (decide (k = i)) as [-> | Hne]; [exact Hno | apply Hrest; lia].
  - apply RA_match; [lia | exact Hocc | | exact Hout].
    intros k Hk.
    destruct (decide (k = i)) as [-> | Hne]; [exact Hno | apply Hmin; lia].
Qed.

Lemma assemble_ReplacedAll (rest pre : jsstring) (i skip last : nat) :
  s = pre ++ rest -> length pre = i ->
  ReplacedAll search val s (i + skip) last
    (JS.assemble s search val (JS.matchPositions search rest i skip) last).
Proof.
  revert pre i skip last.
  induction rest as [| c rest' IH]; intros pre i skip last Hs Hi.
  - rewrite app_nil_r in Hs. subst pre.
    assert (Hend : forall k, (i < k)%nat -> ~ occursAt search s k).
    { intros k Hk Hocc. apply occursAt_within in Hocc. lia. }
    destruct skip as [| sk]; cbn [JS.matchPositions].
    + destruct (JS.isPrefix search []) eqn:E.
      * cbn [JS.assemble]. rewrite Nat.add_0_r.
        apply RA_match; [lia | | intros k Hk; lia |].
        -- apply occursAt_isPrefix. split; [lia |].
           rewrite <- Hi, drop_all. exact E.
        -- apply RA_rest. intros k Hk. apply Hend.
           unfold advanceBy in Hk. lia.
      * cbn [JS.assemble]. apply RA_rest. intros k Hk.
        destruct (decide (k = i)) as [-> | Hne]; [| apply Hend; lia].
        intros Hocc. apply occursAt_isPrefix in Hocc as [_ Hocc].
        rewrite <- Hi, drop_all, E in Hocc. discriminate.
    + cbn [JS.assemble]. apply RA_rest. intros k Hk. apply Hend. lia.
  - assert (Hs' : s = (pre ++ [c]) ++ rest')
      by (rewrite <- app_assoc; exact Hs).
    assert (Hi' : length (pre ++ [c]) = S i)
      by (rewrite length_app; cbn [length]; lia).
    assert (Hhead : occursAt search s i
                    <-> JS.isPrefix search (c :: rest') = true).
    { rewrite Hs, <- Hi, <- (Nat.add_0_r (length pre)), occursAt_suffix.
      apply occursAt_head. }
    destruct skip as [| sk]; cbn [JS.matchPositions].
    + destruct (JS.isPrefix search (c :: rest')) eqn:E.
      * cbn [JS.assemble]. rewrite Nat.add_0_r.
        apply RA_match; [lia | apply Hhead; reflexivity
                         | intros k Hk; lia |].
        replace (i + advanceBy search)%nat
          with (S i + (Nat.max 1 (length search) - 1))%nat
          by (unfold advanceBy; lia).
        apply (IH (pre ++ [c])); assumption.
      * rewrite Nat.add_0_r. apply ReplacedAll_past.
        -- intros Hocc. apply Hhead in Hocc. discriminate.
        -- pose proof (IH (pre ++ [c]) (S i) 0%nat last Hs' Hi') as H0.
           rewrite Nat.add_0_r in H0. exact H0.
    + replace (i + S sk)%nat with (S i + sk)%nat by lia.
      apply (IH (pre ++ [c])); assumption.
Qed.

Lemma replaceAll_ReplacedAll :
  ReplacedAll search val s 0 0 (JS.replaceAll s search val).
Proof.
  unfold JS.replaceAll. apply (assemble_ReplacedAll s [] 0 0 0); reflexivity.
Qed.

Lemma ReplacedAll_functional (from last : nat) (out out' : jsstring) :
  ReplacedAll search val s from last out ->
  ReplacedAll search val s from last out' -> out = out'.
Proof.
  intros H. revert out'.
  induction H as [from last Hrest | from last p out Hle Hocc Hmin Hout IH];
    intros out' H';
    inversion H' as [f l Hrest' | f l p' o' Hle' Hocc' Hmin' Hout']; subst.
  - reflexivity.
  - exfalso. apply (Hrest p'); assumption.
  - exfalso. apply (Hrest' p); assumption.
  - assert (p' = p) as ->.
    { destruct (Nat.lt_trichotomy p' p) as [Hlt | [Heq | Hgt]];
        [| exact Heq |].
      - exfalso. apply (Hmin p'); [lia | exact Hocc'].
      - exfalso. apply (Hmin' p); [lia | exact Hocc]. }
    rewrite (IH o' Hout'). reflexivity.
Qed.

End ReplacedAllFacts.

(** The substitution of a match, by the form of the template. *)
Lemma GetSubstitution_equations (matched s : jsstring) (p : nat)
    (t : jsstring) :
  JS.GetSubstitution matched s p [] = []
  ∧ JS.GetSubstitution matched s p ["$"%char] = ["$"%char]
  ∧ (forall c, c <> "$"%char ->
       JS.GetSubstitution matched s p (c :: t)
       = c :: JS.GetSubstitution matched s p t)
  ∧ JS.GetSubstitution matched s p ("$" :: "$" :: t)%char
    = "$"%char :: JS.GetSubstitution matched s p t
  ∧ JS.GetSubstitution matched s p ("$" :: "&" :: t)%char
    = matched ++ JS.GetSubstitution matched s p t
  ∧ JS.GetSubstitution matched s p ("$" :: "`" :: t)%char
    = take p s ++ JS.GetSubstitution matched s p t
  ∧ JS.GetSubstitution matched s p ("$" :: "'" :: t)%char
    = drop (p + length matched) s ++ JS.GetSubstitution matched s p t
  ∧ (forall d, d <> "$"%char -> d <> "&"%char -> d <> "`"%char ->
       d <> "'"%char ->
       JS.GetSubstitution matched s p ("$"%char :: d :: t)
       = "$"%char :: d :: JS.GetSubstitution matched s p t).
Proof.
  repeat split; try reflexivity.
  - intros c Hc. cbn [JS.GetSubstitution].
    destruct (Ascii.eqb_spec c "$"); [contradiction | reflexivity].
  - intros d H1 H2 H3 H4. cbn [JS.GetSubstitution].
    change (Ascii.eqb "$" "$") with true. cbn beta iota.
    destruct (Ascii.eqb_spec d "$"); [contradiction |].
    destruct (Ascii.eqb_spec d "`"); [contradiction |].
    destruct (Ascii.eqb_spec d "&"); [contradiction |].
    destruct (Ascii.eqb_spec d "'"); [contradiction |].
    reflexivity.
Qed.

Lemma replaceValue_run (w : World) (ed : EditorHandle)
    (search val : jsstring) (all : bool) :
  editor w = Some ed ->
  Service.replaceValue search val all w
  = Service.setValue
      (if all
       then JS.replaceAll (Monaco.getValue (model (widget w)) TextDefined)
                          search val
       else JS.replace (Monaco.getValue (model (widget w)) TextDefined)
                       search val) w.
Proof.
  intros Hed. unfold Service.replaceValue. unfold_widget.
  run_monad. rewrite Hed. reflexivity.
Qed.

(** C6, as the code has it: with the editor bound, [replaceValue]
    writes its result back by the one edit of [setValue] over the whole
    buffer, which leaves the buffer with the lines of the result in an
    editor that is not read-only, and as it was in a read-only
    one.  Without [replaceAll] the result
    is the content with its first occurrence of the pattern replaced
    by its substitution and the rest as it was.  With [replaceAll] the
    result is, for every pattern and replacement, the one text in
    which every occurrence met from left to right is replaced by its
    substitution, the search going on behind each match: every
    occurrence is matched or overlaps a match, and the matches are
    occurrences.  The substitution is the replacement read as a
    template: it is the replacement itself when that holds no
    dollar. *)
Theorem replaceValue_first_or_all (w : World) (search val : jsstring) :
  bound w -> wfModel (model (widget w)) ->
  let m := model (widget w) in
  let content := Monaco.getValue m TextDefined in
  let whole :=
    newRange 1 1 (getLineCount m)
             (jslength (lineAt m (getLineCount m)) + 1) in
  (forall all : bool,
     let text := if all then JS.replaceAll content search val
                 else JS.replace content search val in
     Service.replaceValue search val all w = Service.setValue text w
     ∧ result (Service.replaceValue search val all) w = Ok tt
     ∧ widget (after (Service.replaceValue search val all) w)
       = with_focused true
           (executeEdit (mkEdit whole (Some text) true) (widget w))
     ∧ (readOnly (widget w) = false ->
        widget (after (Service.replaceValue search val all) w)
        = with_focused true
            (applyEdit (mkEdit whole (Some text) true) (widget w))
        ∧ lines (model (widget (after (Service.replaceValue search val all)
                                  w)))
          = splitLines text)
     ∧ (readOnly (widget w) = true ->
        model (widget (after (Service.replaceValue search val all) w)) = m))
  ∧ ((forall k, ~ occursAt search content k) ->
       JS.replace content search val = content
       ∧ JS.replaceAll content search val = content)
  ∧ (forall pre post,
       content = pre ++ search ++ post ->
       (forall k, (k < length pre)%nat -> ~ occursAt search content k) ->
       JS.replace content search val
       = pre ++ JS.GetSubstitution search content (length pre) val ++ post
       ∧ (search <> [] -> "$"%char ∉ val ->
            JS.replace content search val = pre ++ val ++ post
            ∧ JS.replaceAll content search val
              = pre ++ val ++ JS.replaceAll post search val))
  ∧ (ReplacedAll search val content 0 0 (JS.replaceAll content search val)
     ∧ forall out,
         ReplacedAll search val content 0 0 out ->
         out = JS.replaceAll content search val)
  ∧ (forall (matched s : jsstring) (p : nat) (t : jsstring),
       JS.GetSubstitution matched s p [] = []
       ∧ JS.GetSubstitution matched s p ["$"%char] = ["$"%char]
       ∧ (forall c, c <> "$"%char ->
            JS.GetSubstitution matched s p (c :: t)
            = c :: JS.GetSubstitution matched s p t)
       ∧ JS.GetSubstitution matched s p ("$" :: "$" :: t)%char
         = "$"%char :: JS.GetSubstitution matched s p t
       ∧ JS.GetSubstitution matched s p ("$" :: "&" :: t)%char
         = matched ++ JS.GetSubstitution matched s p t
       ∧ JS.GetSubstitution matched s p ("$" :: "`" :: t)%char
         = take p s ++ JS.GetSubstitution matched s p t
       ∧ JS.GetSubstitution matched s p ("$" :: "'" :: t)%char
         = drop (p + length matched) s ++ JS.GetSubstitution matched s p t
       ∧ (forall d, d <> "$"%char -> d <> "&"%char -> d <> "`"%char ->
            d <> "'"%char ->
            JS.GetSubstitution matched s p ("$"%char :: d :: t)
            = "$"%char :: d :: JS.GetSubstitution matched s p t))
  ∧ (forall p, p ∈ JS.matchPositions search content 0 0 ->
               occursAt search content p)
  ∧ (forall k, occursAt search content k ->
       exists p, p ∈ JS.matchPositions search content 0 0
                 ∧ (p <= k < p + advanceBy search)%nat).
Proof.
  intros Hb Hwf. destruct (bound_handles w Hb) as (mo & ed & Hmo & Hed).
  cbv zeta. split; [| split; [| split; [| split; [| split; [| split]]]]].
  - intros all.
    rewrite (replaceValue_run w ed search val all Hed).
    set (text := if all then _ else _).
    destruct (setValue_lines w text Hb Hwf) as (Hr & Hm & Ha).
    unfold result, after in *.
    rewrite (replaceValue_run w ed search val all Hed). fold text.
    split; [reflexivity |]. split; [exact Hr |].
    split; [rewrite Ha; reflexivity |]. split.
    + intros Hro. rewrite Hro in Hm.
      rewrite executeEdit_writable in Ha by exact Hro.
      split; [rewrite Ha; reflexivity | rewrite Hm; reflexivity].
    + intros Hro. rewrite Hro in Hm. exact Hm.
  - intros Hno. split.
    + apply (replace_first _ search val), Hno.
    + apply replaceAll_none, Hno.
  - intros pre post Hc Hfirst.
    pose proof (proj2 (replace_first _ search val) pre post Hc Hfirst) as Hrep.
    split; [exact Hrep |]. intros Hne Hval. split.
    + rewrite Hrep, GetSubstitution_plain by exact Hval. reflexivity.
    + rewrite Hc. apply replaceAll_step; [exact Hne | exact Hval |].
      rewrite <- Hc. exact Hfirst.
  - split; [apply replaceAll_ReplacedAll |].
    intros out Hout.
    apply (ReplacedAll_functional search val _ 0 0 out _ Hout).
    apply replaceAll_ReplacedAll.
  - intros matched s p t. apply GetSubstitution_equations.
  - intros p Hp.
    destruct (matchPositions_sound search _ 0 0 p Hp) as (k & -> & _ & Hocc).
    exact Hocc.
  - intros k Hocc.
    destruct (matchPositions_complete search _ 0 0 k (Nat.le_0_l k) Hocc)
      as (p & Hp & Hrange).
    exists p. split; [exact Hp | exact Hrange].
Qed.

Lemma replaceValue_first_or_all_witness :
  lines (model (widget (after (Service.replaceValue (str "b") (str "x") true)
                          (ready abc))))
  = [str "a"; str "x"; str "c"].
Proof.
  assert (Hb : bound (ready abc)) by (split; eexists; reflexivity).
  destruct (replaceValue_first_or_all (ready abc) (str "b") (str "x")
              Hb abc_wf) as (H & _).
  destruct (H true) as (_ & _ & _ & Hl & _).
  rewrite (proj2 (Hl eq_refl)). reflexivity.
Defined.

(** C6 as stated fails in a read-only editor: started with the
    read-only flag and the settings fetched, over the buffer a, b, c,
    whose value holds the pattern b at index 2, [replaceValue] returns,
    with and without [replaceAll], and the buffer is as it was: no
    occurrence is replaced. *)
Lemma replaceValue_first_or_all_counterexample :
  readOnly (widget (locked abc)) = true
  ∧ occursAt (str "b")
      (Monaco.getValue (model (widget (locked abc))) TextDefined) 2
  ∧ (forall all,
       result (Service.replaceValue (str "b") (str "x") all) (locked abc)
       = Ok tt
       ∧ lines (model (widget (after (Service.replaceValue (str "b") (str "x")
                                        all) (locked abc))))
         = [str "a"; str "b"; str "c"]).
Proof.
  split; [vm_compute; reflexivity |]. split.
  - exists (str "a" ++ [LF]), ([LF] ++ str "c").
    split; vm_compute; reflexivity.
  - intros [|]; split; vm_compute; reflexivity.
Qed.

(** ** What the module keeps *)

Lemma preserves_ret {A} (P : World -> Prop) (a : A) : Preserves P (ret a).
Proof. intros w Hw. exact Hw. Qed.

Lemma preserves_throw {A} (P : World -> Prop) (e : Error) :
  Preserves P (@throw A e).
Proof. intros w Hw. exact Hw. Qed.

Lemma preserves_gets {A} (P : World -> Prop) (f : World -> A) :
  Preserves P (gets f).
Proof. intros w Hw. exact Hw. Qed.

Lemma preserves_member {H} (P : World -> Prop) (h : option H) :
  Preserves P (member h).
Proof. destruct h; intros w Hw; exact Hw. Qed.

Lemma preserves_orThrow {A} (P : World -> Prop) (e : Error) (o : option A) :
  Preserves P (orThrow e o).
Proof. destruct o; intros w Hw; exact Hw. Qed.

Lemma preserves_bind {A B} (P : World -> Prop) (m : M A) (k : A -> M B) :
  Preserves P m -> (forall a, Preserves P (k a)) -> Preserves P (bind m k).
Proof.
  intros Hm Hk w Hw. specialize (Hm w Hw). unfold after, bind in *.
  destruct (m w) as [[a | e] w']; cbn [snd] in *; [apply Hk |]; exact Hm.
Qed.

Lemma preserves_forEach {A} (P : World -> Prop) (l : list A)
    (f : A -> M unit) :
  (forall x, x ∈ l -> Preserves P (f x)) -> Preserves P (forEach l f).
Proof.
  induction l as [| x l' IH]; intros Hf; cbn [forEach].
  - apply preserves_ret.
  - apply preserves_bind; [apply Hf; left |].
    intros _. apply IH. intros y Hy. apply Hf. right. exact Hy.
Qed.

Lemma preserves_modify (P : World -> Prop) (f : World -> World) :
  (forall w, P w -> P (f w)) -> Preserves P (modify f).
Proof. intros Hf w Hw. apply Hf, Hw. Qed.

Ltac unfold_service :=
  unfold Service.getDefaultOptions, Service.getMonaco, Service.getEditor,
    Service.getOneIndent, Service.insert, Service.insertAt,
    Service.replaceLine, Service.replaceLines, Service.deleteLine,
    Service.getLineContent, Service.getLinesContent, Service.getValue,
    Service.setValue, Service.replaceValue, Service.getSelectionInfo,
    Service.toggleWrap, Service.toggleTypewriterMode,
    Service.onCursorPosition, Service.runListener, Service.runReaction,
    Service.runJob, discard,
    Editor_executeEdits, Editor_setPosition, Editor_focus, Editor_getModel,
    Editor_getSelection, Editor_getWrappingInfo, Editor_updateOptions,
    Editor_revealPositionInCenter, Editor_trigger,
    Editor_onDidChangeCursorPosition, Model_getLineLength,
    Model_getLineContent, Model_getLineCount, Model_getValueInRange,
    Model_getValue, Model_getOptions, new_Range, new_Position,
    Monaco_defineTheme, Monaco_setTheme, getSetting, getColorScheme.

Section Frame.

(** A property that does not look at the widget, the toasts, the store,
    the jobs or the actions, and that stays when a promise is made, a
    reaction is added to a pending promise, or a hook is registered. *)
Context (P : World -> Prop).
Hypothesis P_widget : forall w x, P w -> P (with_widget x w).
Hypothesis P_toasts : forall w x, P w -> P (with_toasts x w).
Hypothesis P_store : forall w x, P w -> P (with_store x w).
Hypothesis P_jobs : forall w x, P w -> P (with_jobs x w).
Hypothesis P_actions : forall w x, P w -> P (with_actions x w).
Hypothesis P_promise : forall w s,
  P w -> P (with_promises (promises w ++ [s]) w).
Hypothesis P_then : forall w q rs r,
  promises w !! q = Some (Pending rs) ->
  P w -> P (with_promises (<[q := Pending (rs ++ [r])]> (promises w)) w).
Hypothesis P_register : forall w t (f : HookFun t) o,
  P w -> P (with_hooks (setHooks t (hooks w t ++ [mkHookItem f o]) (hooks w)) w).

Lemma frame_onWidget (f : Widget -> Widget) : Preserves P (onWidget f).
Proof. apply preserves_modify. intros w Hw. apply P_widget, Hw. Qed.

Lemma frame_toast (k : ToastKind) (msg : string) :
  Preserves P (toast_show k msg).
Proof. apply preserves_modify. intros w Hw. apply P_toasts, Hw. Qed.

Lemma frame_commit (mu : Mutation) : Preserves P (commit mu).
Proof.
  apply preserves_modify. intros w Hw. apply P_jobs, P_store, Hw.
Qed.

Lemma frame_watch (x : Watcher) : Preserves P (watch x).
Proof. apply preserves_modify. intros w Hw. apply P_store, Hw. Qed.

Lemma frame_registerAction (a : Action) : Preserves P (registerAction a).
Proof. apply preserves_modify. intros w Hw. apply P_actions, Hw. Qed.

Lemma frame_registerHook t (f : HookFun t) (o : bool) :
  Preserves P (registerHook t f o).
Proof. apply preserves_modify. intros w Hw. apply P_register, Hw. Qed.

Lemma frame_newPromise : Preserves P newPromise.
Proof. intros w Hw. apply P_promise, Hw. Qed.

Lemma frame_Promise_resolve (v : Handles) : Preserves P (Promise_resolve v).
Proof. intros w Hw. apply P_promise, Hw. Qed.

Lemma frame_Promise_then (p : PromiseId) (r : Reaction) :
  Preserves P (Promise_then p r).
Proof.
  apply preserves_modify. intros w Hw.
  destruct (promises w !! p) as [[rs | v] |] eqn:E.
  - apply P_then; [exact E | exact Hw].
  - apply P_jobs, Hw.
  - exact Hw.
Qed.

Ltac frame :=
  repeat first
    [ apply preserves_ret
    | apply preserves_throw
    | apply preserves_gets
    | apply preserves_member
    | apply preserves_orThrow
    | apply frame_onWidget
    | apply frame_toast
    | apply frame_commit
    | apply frame_watch
    | apply frame_registerAction
    | apply frame_registerHook
    | apply frame_newPromise
    | apply frame_Promise_resolve
    | apply frame_Promise_then
    | apply preserves_bind; [| intros ?]
    | match goal with
      | |- Preserves _ (match ?x with _ => _ end) => destruct x
      end
    | progress cbv zeta
    | progress unfold_service ].

Lemma frame_whenEditorReady : Preserves P Service.whenEditorReady.
Proof. unfold Service.whenEditorReady. frame. Qed.

Lemma frame_runCall (c : Call) : Preserves P (runCall c).
Proof.
  destruct c; cbn [runCall]; unfold_service; frame.
Qed.

Lemma frame_runReaction (r : Reaction) (v : Handles) :
  Preserves P (Service.runReaction r v).
Proof. destruct r; unfold_service; frame. Qed.

Lemma frame_runJob (j : Job) : Preserves P (Service.runJob j).
Proof.
  destruct j as [r v | ww]; cbn [Service.runJob].
  - apply frame_runReaction.
  - frame.
Qed.

Lemma frame_drainN (n : nat) (w : World) : P w -> P (Service.drainN n w).
Proof.
  revert w. induction n as [| n IH]; intros w Hw; cbn [Service.drainN].
  - exact Hw.
  - destruct (jobs w) as [| j js]; [exact Hw |].
    apply IH, frame_runJob, P_jobs, Hw.
Qed.

Lemma frame_drain (w : World) : P w -> P (Service.drain w).
Proof. apply frame_drainN. Qed.

Lemma frame_moduleBody : Preserves P Service.moduleBody.
Proof.
  unfold Service.moduleBody. frame.
Qed.

(** The handlers that neither bind the handles nor resolve a promise. *)
Lemma frame_invoke_plain (tr : forall t, Payload t -> M unit)
    t (f : HookFun t) (payload : Payload t) :
  (forall p', Preserves P (tr EDITOR_CHANGE p')) ->
  t <> EDITOR_READY -> t <> MONACO_READY ->
  Preserves P (Service.invoke tr f payload).
Proof.
  intros Htr Hne1 Hne2.
  destruct f; try congruence; cbn [Service.invoke]; unfold_service.
  - frame.
  - apply Htr.
  - frame.
  - frame.
  - frame.
Qed.

(** Every event but a trigger. *)
Lemma frame_perform (e : Event) :
  (forall t payload, e <> Triggered t payload) -> Preserves P (perform e).
Proof.
  intros Hnt. destruct e as [c | t payload | e | name | mu | m s i];
    cbn [perform].
  - apply frame_runCall.
  - exfalso. apply (Hnt t payload). reflexivity.
  - apply preserves_bind; [apply preserves_gets |].
    intros ls. apply preserves_forEach. intros l _.
    destruct l. unfold_service. frame.
  - apply preserves_bind; [apply preserves_gets |].
    intros acts. apply preserves_forEach. intros a _.
    unfold runAction. destruct (a_handler a). unfold_service. frame.
  - apply frame_commit.
  - apply frame_onWidget.
Qed.

End Frame.

(** ** The hook bus *)

Lemma setHooks_same t (l : list (HookItem t)) b : setHooks t l b t = l.
Proof.
  unfold setHooks. destruct (decide (t = t)) as [e | Hne]; [| congruence].
  assert (e = eq_refl) as -> by apply proof_irrel. reflexivity.
Qed.

Lemma setHooks_other t t' (l : list (HookItem t)) b :
  t <> t' -> setHooks t l b t' = b t'.
Proof.
  intros Hne. unfold setHooks.
  destruct (decide (t = t')) as [e | _]; [congruence | reflexivity].
Qed.

(** The functions registered for a hook, by the type of the hook. *)
Lemma HookFun_inv t (f : HookFun t) :
  match t return HookFun t -> Prop with
  | EDITOR_READY => fun f => exists p, f = HResolve p
  | MONACO_READY => fun f => f = HBindHandles
  | EDITOR_CHANGE => fun _ => False
  | _ => fun _ => True
  end f.
Proof. destruct f; cbn; eauto. Qed.

Lemma HookFun_EDITOR_READY (f : HookFun EDITOR_READY) :
  exists p, f = HResolve p.
Proof. apply (HookFun_inv EDITOR_READY f). Qed.

Lemma HookFun_MONACO_READY (f : HookFun MONACO_READY) : f = HBindHandles.
Proof. apply (HookFun_inv MONACO_READY f). Qed.

Lemma HookFun_EDITOR_CHANGE (f : HookFun EDITOR_CHANGE) : False.
Proof. apply (HookFun_inv EDITOR_CHANGE f). Qed.

(** A trigger keeps what the handlers and the removal of a handler
    keep, on the hooks [ok] holds of. *)
Lemma preserves_triggerHookN (P : World -> Prop) (ok : HookType -> Prop) :
  (forall t (f : HookFun t), ok t -> Preserves P (removeHook t f)) ->
  (forall (tr : forall t, Payload t -> M unit),
     (forall t' p', ok t' -> Preserves P (tr t' p')) ->
     forall t (f : HookFun t) payload,
       ok t -> Preserves P (Service.invoke tr f payload)) ->
  forall n t payload, ok t -> Preserves P (Service.triggerHookN n t payload).
Proof.
  intros Hrem Hinv. induction n as [| n IH]; intros t payload Hok;
    cbn [Service.triggerHookN].
  - apply preserves_throw.
  - apply preserves_bind; [apply preserves_gets |].
    intros items. apply preserves_forEach. intros item _.
    apply preserves_bind.
    + apply Hinv; [exact IH | exact Hok].
    + intros _. destruct (once item);
        [apply Hrem, Hok | apply preserves_ret].
Qed.

(** No handler is registered for [EDITOR_CHANGE] by this module: the
    trigger passes over an empty list. *)
Lemma hooks_EDITOR_CHANGE (w : World) : hooks w EDITOR_CHANGE = [].
Proof.
  destruct (hooks w EDITOR_CHANGE) as [| item l]; [reflexivity |].
  destruct (HookFun_EDITOR_CHANGE (hookFun item)).
Qed.

(** *** The handles stay bound *)

Lemma bound_resolvePromise (p : PromiseId) (v : Handles) :
  Preserves bound (resolvePromise p v).
Proof.
  apply preserves_modify. intros w Hw.
  destruct (promises w !! p) as [[rs | v'] |]; exact Hw.
Qed.

Lemma bound_invoke (tr : forall t, Payload t -> M unit) :
  (forall t' p', True -> Preserves bound (tr t' p')) ->
  forall t (f : HookFun t) payload,
    True -> Preserves bound (Service.invoke tr f payload).
Proof.
  intros Htr t f payload _.
  destruct f;
    try (apply frame_invoke_plain;
         [intros; assumption .. | intros; apply Htr; exact I
         | discriminate | discriminate]);
    cbn [Service.invoke].
  - apply bound_resolvePromise.
  - apply preserves_bind; [| intros _; apply preserves_bind].
    + apply preserves_modify. intros w [_ He]. split; [eexists; reflexivity | exact He].
    + apply preserves_modify. intros w [Hm _]. split; [exact Hm | eexists; reflexivity].
    + intros _. apply Htr. exact I.
Qed.

Lemma bound_perform (e : Event) : Preserves bound (perform e).
Proof.
  destruct e as [c | t payload | e | name | mu | m s i].
  2: { cbn [perform]. unfold Service.triggerHook.
       apply (preserves_triggerHookN bound (fun _ => True)).
       - intros t' f _. apply preserves_modify. intros w Hw. exact Hw.
       - exact bound_invoke.
       - exact I. }
  all: apply frame_perform; try (intros; assumption); intros; discriminate.
Qed.

Lemma bound_step (e : Event) (w : World) : bound w -> bound (step e w).
Proof.
  intros Hw. unfold step.
  apply frame_drain; try (intros; assumption).
  apply bound_perform, Hw.
Qed.

Lemma bound_run (es : list Event) (w : World) : bound w -> bound (run es w).
Proof.
  revert w. induction es as [| e es' IH]; intros w Hw; cbn [run fold_left].
  - exact Hw.
  - apply IH, bound_step, Hw.
Qed.

(** *** Promises of [whenEditorReady] *)

Lemma resolvePromise_lookup (p q : PromiseId) (v : Handles) (w : World) :
  promises (after (resolvePromise q v) w) !! p
  = if decide (p = q)
    then match promises w !! p with
         | Some (Pending _) => Some (Fulfilled v)
         | o => o
         end
    else promises w !! p.
Proof.
  unfold resolvePromise, after, modify. cbn [snd].
  destruct (decide (p = q)) as [-> | Hne].
  - destruct (promises w !! q) as [[rs | v'] |] eqn:E; cbn [promises with_jobs with_promises].
    + apply list_lookup_insert_eq. apply lookup_lt_Some in E. exact E.
    + exact E.
    + exact E.
  - destruct (promises w !! q) as [[rs | v'] |] eqn:E;
      cbn [promises with_jobs with_promises]; try reflexivity.
    apply list_lookup_insert_ne. congruence.
Qed.

Section PromiseFrames.

Context (p : PromiseId).

Lemma awaiting_promise w s :
  awaiting p w -> awaiting p (with_promises (promises w ++ [s]) w).
Proof.
  intros [[rs Hrs] Hin]. split; [| exact Hin].
  exists rs. cbn [promises with_promises].
  apply lookup_app_l_Some. exact Hrs.
Qed.

Lemma awaiting_then w q rs r :
  promises w !! q = Some (Pending rs) ->
  awaiting p w ->
  awaiting p (with_promises (<[q := Pending (rs ++ [r])]> (promises w)) w).
Proof.
  intros Hq [[rs' Hrs'] Hin]. split; [| exact Hin].
  cbn [promises with_promises].
  destruct (decide (q = p)) as [-> | Hne].
  - exists (rs ++ [r]). apply list_lookup_insert_eq.
    apply lookup_lt_Some in Hq. exact Hq.
  - exists rs'. rewrite list_lookup_insert_ne by exact Hne. exact Hrs'.
Qed.

Lemma awaiting_register w t (f : HookFun t) o :
  awaiting p w ->
  awaiting p
    (with_hooks (setHooks t (hooks w t ++ [mkHookItem f o]) (hooks w)) w).
Proof.
  intros [Hrs Hin]. split; [exact Hrs |]. cbn [hooks with_hooks].
  destruct (decide (t = EDITOR_READY)) as [-> | Hne].
  - rewrite setHooks_same. apply elem_of_app. left. exact Hin.
  - rewrite setHooks_other by exact Hne. exact Hin.
Qed.

Lemma awaiting_removeHook t (f : HookFun t) :
  t <> EDITOR_READY -> Preserves (awaiting p) (removeHook t f).
Proof.
  intros Hne. apply preserves_modify. intros w [Hrs Hin].
  split; [exact Hrs |]. cbn [hooks with_hooks].
  rewrite setHooks_other by exact Hne. exact Hin.
Qed.

(** A quiet event leaves the promise pending and its [resolve]
    registered. *)
Lemma awaiting_perform (e : Event) :
  quiet e -> Preserves (awaiting p) (perform e).
Proof.
  intros Hq.
  destruct e as [c | t payload | e | name | mu | m s i].
  2: { cbn [perform]. unfold Service.triggerHook.
       apply (preserves_triggerHookN (awaiting p)
                (fun t => t <> EDITOR_READY ∧ t <> MONACO_READY)).
       - intros t' f [Hne _]. apply awaiting_removeHook, Hne.
       - intros tr Htr t' f payload' [Hne1 Hne2].
         apply frame_invoke_plain;
           try (intros; assumption);
           try exact Hne1; try exact Hne2.
         + apply awaiting_promise.
         + apply awaiting_then.
         + apply awaiting_register.
         + intros p'. apply Htr. split; discriminate.
       - destruct t; cbn in Hq; try destruct Hq; split; discriminate. }
  all: apply frame_perform; try (intros; assumption);
    try apply awaiting_promise; try apply awaiting_then;
    try apply awaiting_register; intros; discriminate.
Qed.

Lemma awaiting_step (e : Event) (w : World) :
  quiet e -> awaiting p w -> awaiting p (step e w).
Proof.
  intros Hq Hw. unfold step.
  apply frame_drain; try (intros; assumption);
    try apply awaiting_promise; try apply awaiting_then;
    try apply awaiting_register.
  apply awaiting_perform; [exact Hq | exact Hw].
Qed.

Lemma awaiting_run (es : list Event) (w : World) :
  Forall quiet es -> awaiting p w -> awaiting p (run es w).
Proof.
  revert w. induction es as [| e es' IH]; intros w Hq Hw;
    cbn [run fold_left].
  - exact Hw.
  - apply Forall_cons in Hq as [He Hes].
    apply IH; [exact Hes | apply awaiting_step; [exact He | exact Hw]].
Qed.

End PromiseFrames.

Lemma establishes_bind {A B} (P Q : World -> Prop) (m : M A) (k : A -> M B) :
  Establishes P Q m -> (forall a, Preserves Q (k a)) ->
  Establishes P Q (bind m k).
Proof.
  intros Hm Hk w Hw. specialize (Hm w Hw). unfold after, bind in *.
  destruct (m w) as [[a | e] w']; cbn [snd] in *; [apply Hk |]; exact Hm.
Qed.

(** Once one element has established [Q], the rest of the loop keeps
    it. *)
Lemma establishes_forEach {A} (P Q : World -> Prop) (l : list A)
    (f : A -> M unit) :
  l <> [] ->
  (forall x, Establishes P Q (f x)) -> (forall x, Preserves Q (f x)) ->
  Establishes P Q (forEach l f).
Proof.
  intros Hne He Hp. destruct l as [| x l']; [congruence |].
  cbn [forEach]. apply establishes_bind; [apply He |].
  intros _. apply preserves_forEach. intros y _. apply Hp.
Qed.

Section Fulfilment.

Context (p : PromiseId) (v : Handles).

Lemma fulfilled_promise w s :
  fulfilled p v w -> fulfilled p v (with_promises (promises w ++ [s]) w).
Proof. intros H. apply lookup_app_l_Some. exact H. Qed.

Lemma fulfilled_then w q rs r :
  promises w !! q = Some (Pending rs) ->
  fulfilled p v w ->
  fulfilled p v (with_promises (<[q := Pending (rs ++ [r])]> (promises w)) w).
Proof.
  intros Hq H. unfold fulfilled in *. cbn [promises with_promises].
  rewrite list_lookup_insert_ne; [exact H |].
  intros Heq. subst q.
  assert (E : Some (Pending rs) = Some (Fulfilled v))
    by (transitivity (promises w !! p); [symmetry; exact Hq | exact H]).
  discriminate E.
Qed.

Lemma fulfilled_resolvePromise q v' :
  Preserves (fulfilled p v) (resolvePromise q v').
Proof.
  intros w H. unfold fulfilled in *. rewrite resolvePromise_lookup.
  destruct (decide (p = q)); rewrite H; reflexivity.
Qed.

Lemma fulfilled_invoke (tr : forall t, Payload t -> M unit) :
  (forall t' p', True -> Preserves (fulfilled p v) (tr t' p')) ->
  forall t (f : HookFun t) payload,
    True -> Preserves (fulfilled p v) (Service.invoke tr f payload).
Proof.
  intros Htr t f payload _.
  destruct f;
    try (apply frame_invoke_plain;
         [intros; assumption .. | apply fulfilled_promise
         | apply fulfilled_then | intros; assumption
         | intros; apply Htr; exact I | discriminate | discriminate]);
    cbn [Service.invoke].
  - apply fulfilled_resolvePromise.
  - apply preserves_bind; [| intros _; apply preserves_bind].
    + apply preserves_modify. intros w H. exact H.
    + apply preserves_modify. intros w H. exact H.
    + intros _. apply Htr. exact I.
Qed.

Lemma fulfilled_triggerHookN n t payload :
  Preserves (fulfilled p v) (Service.triggerHookN n t payload).
Proof.
  apply (preserves_triggerHookN (fulfilled p v) (fun _ => True)).
  - intros t' f _. apply preserves_modify. intros w H. exact H.
  - exact fulfilled_invoke.
  - exact I.
Qed.

(** A fulfilled promise stays fulfilled, with its value, whatever
    happens. *)
Lemma fulfilled_perform (e : Event) : Preserves (fulfilled p v) (perform e).
Proof.
  destruct e as [c | t payload | e | name | mu | m s i].
  2: { cbn [perform]. apply fulfilled_triggerHookN. }
  all: apply frame_perform; try (intros; assumption);
    try apply fulfilled_promise; try apply fulfilled_then;
    intros; discriminate.
Qed.

Lemma fulfilled_drain (w : World) :
  fulfilled p v w -> fulfilled p v (Service.drain w).
Proof.
  apply frame_drain; try (intros; assumption);
    [apply fulfilled_promise | apply fulfilled_then].
Qed.

Lemma fulfilled_step (e : Event) (w : World) :
  fulfilled p v w -> fulfilled p v (step e w).
Proof. intros H. apply fulfilled_drain, fulfilled_perform, H. Qed.

Lemma fulfilled_run (es : list Event) (w : World) :
  fulfilled p v w -> fulfilled p v (run es w).
Proof.
  revert w. induction es as [| e es' IH]; intros w Hw; cbn [run fold_left].
  - exact Hw.
  - apply IH, fulfilled_step, Hw.
Qed.

(** The pass of [EDITOR_READY] over the registered [resolve]
    functions. *)
Lemma pass_EDITOR_READY (tr : forall t, Payload t -> M unit)
    (items : list (HookItem EDITOR_READY)) (w : World) :
  fulfilled p v w
  ∨ ((exists rs, promises w !! p = Some (Pending rs))
     ∧ exists o, mkHookItem (HResolve p) o ∈ items) ->
  fulfilled p v
    (after (forEach items (fun item =>
              Service.invoke tr (hookFun item) v ;;
              if once item then removeHook EDITOR_READY (hookFun item)
              else ret tt)) w).
Proof.
  revert w. induction items as [| item l IH]; intros w H.
  - destruct H as [H | [_ [o Ho]]]; [exact H |].
    apply elem_of_nil in Ho. destruct Ho.
  - destruct (HookFun_EDITOR_READY (hookFun item)) as [q Hq].
    cbn [forEach].
    set (body := fun item : HookItem EDITOR_READY => _) in *.
    assert (Hbody : exists w1,
              body item w = (Ok tt, w1)
              ∧ promises w1 = promises (after (resolvePromise q v) w)).
    { unfold body. rewrite Hq. cbn [Service.invoke].
      unfold bind, resolvePromise, removeHook, modify, ret, after.
      cbn [fst snd]. destruct (once item); eexists; split; reflexivity. }
    destruct Hbody as (w1 & Hw1 & Hp1).
    change (fulfilled p v (after (body item ;; forEach l body) w)).
    unfold after, bind. rewrite Hw1.
    apply IH. unfold fulfilled. rewrite Hp1, !resolvePromise_lookup.
    destruct H as [H | [[rs Hrs] [o Ho]]].
    + left. unfold fulfilled in H.
      destruct (decide (p = q)); rewrite H; reflexivity.
    + destruct (decide (p = q)) as [-> | Hne].
      * left. rewrite Hrs. reflexivity.
      * right. split; [exists rs; exact Hrs |].
        exists o. apply elem_of_cons in Ho as [Ho | Ho]; [| exact Ho].
        exfalso. apply Hne.
        apply (f_equal hookFun) in Ho. cbn [hookFun] in Ho.
        rewrite Hq in Ho. injection Ho as ->. reflexivity.
Qed.

(** Firing [EDITOR_READY] fulfils the awaiting promise with the
    payload. *)
Lemma trigger_EDITOR_READY (n : nat) :
  Establishes (awaiting p) (fulfilled p v)
    (Service.triggerHookN (S n) EDITOR_READY v).
Proof.
  intros w [Hrs Hin]. cbn [Service.triggerHookN].
  unfold after, bind, gets. cbn [fst snd].
  apply pass_EDITOR_READY. right. split; [exact Hrs |].
  exists true. exact Hin.
Qed.

(** So does [MONACO_READY], whose handler binds the handles and
    triggers [EDITOR_READY]. *)
Lemma trigger_MONACO_READY (n : nat) (w : World) :
  hooks w MONACO_READY <> [] ->
  awaiting p w ->
  fulfilled p v (after (Service.triggerHookN (S (S n)) MONACO_READY v) w).
Proof.
  intros Hne Hw.
  change (fulfilled p v
            (after (forEach (hooks w MONACO_READY) (fun item =>
                      Service.invoke (Service.triggerHookN (S n))
                                     (hookFun item) v ;;
                      if once item
                      then removeHook MONACO_READY (hookFun item)
                      else ret tt)) w)).
  apply (establishes_forEach (awaiting p) (fulfilled p v));
    [exact Hne | | | exact Hw].
  - intros item. apply establishes_bind.
    + rewrite (HookFun_MONACO_READY (hookFun item)). cbn [Service.invoke].
      intros w0 Hw0.
      change (fulfilled p v
                (after (Service.triggerHookN (S n) EDITOR_READY v)
                   (with_editor (Some (h_editor v))
                      (with_monaco (Some (h_monaco v)) w0)))).
      apply trigger_EDITOR_READY. exact Hw0.
    + intros _. destruct (once item); [| apply preserves_ret].
      apply preserves_modify. intros w0 H. exact H.
  - intros item. apply preserves_bind.
    + apply fulfilled_invoke; [| exact I].
      intros t' p' _. apply fulfilled_triggerHookN.
    + intros _. destruct (once item); [| apply preserves_ret].
      apply preserves_modify. intros w0 H. exact H.
Qed.

End Fulfilment.

(** C2: with both handles bound, [whenEditorReady] returns a promise
    that is already fulfilled with the pair of the two handles, and
    registers nothing.  Otherwise it returns a pending promise whose
    [resolve] is registered, once, on [EDITOR_READY]: the promise stays
    pending over every sequence of events that does not fire that hook,
    and the next firing of it, directly or through [MONACO_READY],
    fulfils it with the payload, which it keeps from then on. *)
Theorem whenEditorReady_gate (w : World) :
  let p := length (promises w) in
  let w1 := after Service.whenEditorReady w in
  (forall mo ed,
     monaco w = Some mo -> editor w = Some ed ->
     result Service.whenEditorReady w = Ok p
     ∧ fulfilled p (mkHandles mo ed) w1
     ∧ w1 = with_promises (promises w ++ [Fulfilled (mkHandles mo ed)]) w)
  ∧ (~ bound w ->
     result Service.whenEditorReady w = Ok p
     ∧ promises w1 !! p = Some (Pending [])
     ∧ mkHookItem (HResolve p) true ∈ hooks w1 EDITOR_READY
     ∧ forall es, Forall quiet es ->
         (exists rs, promises (run es w1) !! p = Some (Pending rs))
         ∧ (forall payload es',
              fulfilled p payload
                (run es' (step (Triggered EDITOR_READY payload) (run es w1))))
         ∧ (forall payload es',
              hooks (run es w1) MONACO_READY <> [] ->
              fulfilled p payload
                (run es' (step (Triggered MONACO_READY payload) (run es w1))))).
Proof.
  cbv zeta. split.
  - intros mo ed Hmo Hed.
    assert (E : Service.whenEditorReady w
                = (Ok (length (promises w)),
                   with_promises
                     (promises w ++ [Fulfilled (mkHandles mo ed)]) w)).
    { unfold Service.whenEditorReady, Promise_resolve. run_monad.
      rewrite Hmo, Hed. reflexivity. }
    unfold result, after. rewrite E. cbn [fst snd].
    split; [reflexivity |]. split; [| reflexivity].
    unfold fulfilled. cbn [promises with_promises].
    rewrite lookup_app_r by lia. rewrite Nat.sub_diag. reflexivity.
  - intros Hnb.
    set (w0 := with_promises (promises w ++ [Pending []]) w).
    assert (E : Service.whenEditorReady w
                = (Ok (length (promises w)),
                   with_hooks
                     (setHooks EDITOR_READY
                        (hooks w0 EDITOR_READY
                           ++ [mkHookItem (HResolve (length (promises w))) true])
                        (hooks w0)) w0)).
    { unfold Service.whenEditorReady, newPromise, registerHook. run_monad.
      destruct (monaco w) as [mo |] eqn:Hmo;
        [destruct (editor w) as [ed |] eqn:Hed |]; try reflexivity.
      exfalso. apply Hnb. split; [rewrite Hmo | rewrite Hed]; eexists; reflexivity. }
    unfold result, after. rewrite E. cbn [fst snd].
    set (w1 := with_hooks _ w0).
    assert (Hpend : promises w1 !! length (promises w) = Some (Pending [])).
    { unfold w1, w0. cbn [promises with_hooks with_promises].
      rewrite lookup_app_r by lia. rewrite Nat.sub_diag. reflexivity. }
    assert (Hin : mkHookItem (HResolve (length (promises w))) true
                    ∈ hooks w1 EDITOR_READY).
    { unfold w1. cbn [hooks with_hooks]. rewrite setHooks_same.
      apply elem_of_app. right. apply list_elem_of_singleton. reflexivity. }
    assert (Haw : awaiting (length (promises w)) w1)
      by (split; [exists []; exact Hpend | exact Hin]).
    split; [reflexivity |]. split; [exact Hpend |]. split; [exact Hin |].
    intros es Hq.
    pose proof (awaiting_run _ es w1 Hq Haw) as Hrun.
    split; [exact (proj1 Hrun) |]. split.
    + intros payload es'. apply fulfilled_run. unfold step.
      apply fulfilled_drain. cbn [perform]. unfold Service.triggerHook.
      apply trigger_EDITOR_READY. exact Hrun.
    + intros payload es' Hne. apply fulfilled_run. unfold step.
      apply fulfilled_drain. cbn [perform]. unfold Service.triggerHook.
      apply trigger_MONACO_READY; [exact Hne | exact Hrun].
Qed.

Lemma whenEditorReady_gate_witness :
  let w1 := after Service.whenEditorReady (fresh abc) in
  let es := [Called call_getValue; Called call_toggleTypewriterMode] in
  let v := mkHandles 1%nat 2%nat in
  (exists rs, promises (run es w1) !! 1%nat = Some (Pending rs))
  ∧ fulfilled 1%nat v (run [] (step (Triggered MONACO_READY v) (run es w1))).
Proof.
  intros w1 es v.
  destruct (whenEditorReady_gate (fresh abc)) as [_ H].
  destruct H as (_ & _ & _ & H).
  - intros [[mo Hmo] _]. discriminate Hmo.
  - destruct (H es) as (Hp & _ & Hm).
    + repeat constructor.
    + split; [exact Hp |]. apply Hm. discriminate.
Defined.

(** ** Triggers return and the queue is emptied *)

Lemma returns_ret {A} (a : A) : Returns (ret a).
Proof. intros w. exists a. reflexivity. Qed.

Lemma returns_gets {A} (f : World -> A) : Returns (gets f).
Proof. intros w. exists (f w). reflexivity. Qed.

Lemma returns_modify (f : World -> World) : Returns (modify f).
Proof. intros w. exists tt. reflexivity. Qed.

Lemma returns_bind {A B} (m : M A) (k : A -> M B) :
  Returns m -> (forall a, Returns (k a)) -> Returns (bind m k).
Proof.
  intros Hm Hk w. destruct (Hm w) as [a Ha]. unfold result, bind in *.
  destruct (m w) as [[a' | e] w']; cbn [fst] in *; [| discriminate].
  apply Hk.
Qed.

Lemma returns_forEach {A} (l : list A) (f : A -> M unit) :
  (forall x, Returns (f x)) -> Returns (forEach l f).
Proof.
  intros Hf. induction l as [| x l' IH]; cbn [forEach].
  - apply returns_ret.
  - apply returns_bind; [apply Hf | intros _; exact IH].
Qed.

Lemma returns_whenEditorReady : Returns Service.whenEditorReady.
Proof.
  intros w. unfold Service.whenEditorReady, newPromise, Promise_resolve,
    registerHook.
  run_monad. destruct (monaco w), (editor w); eexists; reflexivity.
Qed.

(** A handler of this module returns when the triggers it makes do. *)
Lemma returns_invoke (tr : forall t, Payload t -> M unit)
    t (f : HookFun t) (payload : Payload t) :
  (forall t' p', leafHook t' -> Returns (tr t' p')) ->
  Returns (Service.invoke tr f payload).
Proof.
  intros Htr. destruct f; cbn [Service.invoke].
  - apply returns_modify.
  - apply returns_bind; [apply returns_modify | intros _; apply returns_modify].
  - apply returns_bind; [apply returns_modify | intros _].
    apply returns_bind; [apply returns_modify | intros _].
    apply Htr. split; discriminate.
  - apply Htr. split; discriminate.
  - apply returns_bind; [apply returns_gets | intros [mo |]];
      [| apply returns_ret].
    apply returns_bind; [apply returns_gets | intros scheme; apply returns_modify].
  - apply returns_bind; [apply returns_whenEditorReady | intros p].
    apply returns_modify.
  - apply returns_bind; [apply returns_whenEditorReady | intros p].
    apply returns_modify.
Qed.

(** The handlers of the leaf hooks trigger nothing. *)
Lemma returns_invoke_leaf (tr : forall t, Payload t -> M unit)
    t (f : HookFun t) (payload : Payload t) :
  leafHook t -> Returns (Service.invoke tr f payload).
Proof.
  intros [Hne1 Hne2]. destruct f; try congruence; cbn [Service.invoke].
  - apply returns_modify.
  - apply returns_bind; [apply returns_modify | intros _; apply returns_modify].
  - apply returns_bind; [apply returns_gets | intros [mo |]];
      [| apply returns_ret].
    apply returns_bind; [apply returns_gets | intros scheme; apply returns_modify].
  - apply returns_bind; [apply returns_whenEditorReady | intros p].
    apply returns_modify.
  - apply returns_bind; [apply returns_whenEditorReady | intros p].
    apply returns_modify.
Qed.

Lemma triggerHookN_S (d : nat) t (payload : Payload t) :
  Service.triggerHookN (S d) t payload
  = (items <- gets (fun w => hooks w t) ;;
     forEach items (fun item =>
       Service.invoke (Service.triggerHookN d) (hookFun item) payload ;;
       if once item then removeHook t (hookFun item) else ret tt)).
Proof. reflexivity. Qed.

Lemma returns_pass (tr : forall t, Payload t -> M unit) t payload :
  (forall (f : HookFun t), Returns (Service.invoke tr f payload)) ->
  Returns (items <- gets (fun w => hooks w t) ;;
           forEach items (fun item =>
             Service.invoke tr (hookFun item) payload ;;
             if once item then removeHook t (hookFun item) else ret tt)).
Proof.
  intros Hinv. apply returns_bind; [apply returns_gets | intros items].
  apply returns_forEach. intros item.
  apply returns_bind; [apply Hinv | intros _].
  destruct (once item); [apply returns_modify | apply returns_ret].
Qed.

(** With room for one call, the trigger of a leaf hook returns. *)
Lemma returns_trigger_leaf (n : nat) t payload :
  leafHook t -> Returns (Service.triggerHookN (S n) t payload).
Proof.
  intros Hleaf. rewrite triggerHookN_S. apply returns_pass.
  intros f. apply returns_invoke_leaf, Hleaf.
Qed.

(** With room for two calls, every trigger returns: the depth of
    [triggerHook] is enough, and more changes nothing. *)
Lemma returns_triggerHookN (n : nat) t payload :
  Returns (Service.triggerHookN (S (S n)) t payload).
Proof.
  rewrite triggerHookN_S. apply returns_pass.
  intros f. apply returns_invoke.
  intros t' p' Hleaf. apply returns_trigger_leaf, Hleaf.
Qed.

Lemma triggerHook_returns t payload (w : World) :
  result (Service.triggerHook t payload) w = Ok tt.
Proof.
  destruct (returns_triggerHookN 0 t payload w) as [[] H]. exact H.
Qed.

Lemma jobs_runReaction (r : Reaction) (v : Handles) (w : World) :
  jobs (after (Service.runReaction r v) w) = jobs w.
Proof.
  destruct r; unfold_service; run_monad; cbn [jobs with_widget];
    try reflexivity.
  destruct (JS.includes changedKeys "editor.mouse-wheel-zoom"); reflexivity.
Qed.

(** Running a job takes its weight off the queue and puts at most a
    reaction on it. *)
Lemma weight_runJob (j : Job) (w : World) :
  (list_sum (map Service.jobWeight (jobs (after (Service.runJob j) w))) + 1
   <= list_sum (map Service.jobWeight (jobs w)) + Service.jobWeight j)%nat.
Proof.
  destruct j as [r v | ww]; cbn [Service.runJob Service.jobWeight].
  - rewrite jobs_runReaction. lia.
  - unfold Service.whenEditorReady, newPromise, Promise_resolve,
      registerHook, Promise_then.
    run_monad.
    destruct (monaco w) as [mo |]; [destruct (editor w) as [ed |] |];
      cbn [fst snd promises with_promises with_hooks];
      rewrite lookup_app_r by lia; rewrite Nat.sub_diag;
      cbn [lookup list_lookup];
      cbn [jobs with_jobs with_promises with_hooks];
      rewrite ?map_app, ?list_sum_app;
      cbn [map list_sum fold_right Service.jobWeight];
      lia.
Qed.

Lemma drainN_empties (n : nat) (w : World) :
  (list_sum (map Service.jobWeight (jobs w)) <= n)%nat ->
  jobs (Service.drainN n w) = [].
Proof.
  revert w. induction n as [| n IH]; intros w Hw; cbn [Service.drainN].
  - destruct (jobs w) as [| j js]; [reflexivity |].
    cbn [map list_sum fold_right] in Hw.
    destruct j; cbn [Service.jobWeight] in Hw; lia.
  - destruct (jobs w) as [| j js] eqn:E; [exact E |].
    apply IH.
    pose proof (weight_runJob j (with_jobs js w)) as Hj.
    cbn [jobs with_jobs] in Hj. cbn [map list_sum fold_right] in Hw.
    fold (list_sum (map Service.jobWeight js)) in Hw. lia.
Qed.

(** The queue is empty after every event. *)
Lemma drain_empties (w : World) : jobs (Service.drain w) = [].
Proof. apply drainN_empties. reflexivity. Qed.

(** *** Binding *)

Lemma boundTo_triggerHookN (v : Handles) n t payload :
  t <> MONACO_READY ->
  Preserves (boundTo v) (Service.triggerHookN n t payload).
Proof.
  apply (preserves_triggerHookN (boundTo v) (fun t => t <> MONACO_READY)).
  - intros t' f _. apply preserves_modify. intros w H. exact H.
  - intros tr Htr t' f payload' Hne.
    destruct f; try congruence;
      try (apply frame_invoke_plain;
           [intros; assumption .. | intros; apply Htr; discriminate
           | discriminate | discriminate]);
      cbn [Service.invoke].
    apply preserves_modify. intros w H.
    destruct (promises w !! p) as [[rs | v'] |]; exact H.
Qed.

(** Triggering [MONACO_READY] binds both variables to the payload. *)
Lemma MONACO_READY_binds (w : World) (v : Handles) :
  hooks w MONACO_READY <> [] ->
  boundTo v (step (Triggered MONACO_READY v) w).
Proof.
  intros Hne. unfold step.
  apply frame_drain; try (intros; assumption).
  cbn [perform]. unfold Service.triggerHook. rewrite triggerHookN_S.
  change (boundTo v
            (after (forEach (hooks w MONACO_READY) (fun item =>
                      Service.invoke (Service.triggerHookN 1)
                                     (hookFun item) v ;;
                      if once item
                      then removeHook MONACO_READY (hookFun item)
                      else ret tt)) w)).
  assert (Hinv : forall item : HookItem MONACO_READY,
            Establishes (fun _ => True) (boundTo v)
              (Service.invoke (Service.triggerHookN 1) (hookFun item) v)).
  { intros item. rewrite (HookFun_MONACO_READY (hookFun item)).
    cbn [Service.invoke]. intros w0 _.
    change (boundTo v
              (after (Service.triggerHookN 1 EDITOR_READY v)
                 (with_editor (Some (h_editor v))
                    (with_monaco (Some (h_monaco v)) w0)))).
    apply boundTo_triggerHookN; [discriminate |]. split; reflexivity. }
  assert (Hrem : forall item : HookItem MONACO_READY,
            Preserves (boundTo v)
              (if once item then removeHook MONACO_READY (hookFun item)
               else ret tt)).
  { intros item. destruct (once item); [| apply preserves_ret].
    apply preserves_modify. intros w0 H. exact H. }
  apply (establishes_forEach (fun _ => True) (boundTo v));
    [exact Hne | | | exact I].
  - intros item. apply establishes_bind; [apply Hinv | intros _; apply Hrem].
  - intros item. apply preserves_bind; [| intros _; apply Hrem].
    intros w0 _. apply (Hinv item w0 I).
Qed.

Lemma boundTo_bound (v : Handles) (w : World) : boundTo v w -> bound w.
Proof. intros [Hm He]. split; [rewrite Hm | rewrite He]; eexists; reflexivity. Qed.

(** C9: [getMonaco] and [getEditor] return the two module variables.
    Triggering [MONACO_READY] binds both variables to the handles of
    the payload, which the two getters then return; and from a state in
    which both are bound, every sequence of events of the module leads
    to a state in which both are bound, where [getMonaco] and
    [getEditor] return the handles the variables hold. *)
Theorem handles_stay_bound (w : World) :
  (Service.getMonaco w = (Ok (monaco w), w)
   ∧ Service.getEditor w = (Ok (editor w), w))
  ∧ (forall v, hooks w MONACO_READY <> [] ->
     let w1 := step (Triggered MONACO_READY v) w in
     boundTo v w1
     ∧ Service.getMonaco w1 = (Ok (Some (h_monaco v)), w1)
     ∧ Service.getEditor w1 = (Ok (Some (h_editor v)), w1)
     ∧ forall es, bound (run es w1))
  ∧ (bound w ->
     forall es,
       bound (run es w)
       ∧ (exists mo, monaco (run es w) = Some mo
                     ∧ Service.getMonaco (run es w)
                       = (Ok (Some mo), run es w))
       ∧ (exists ed, editor (run es w) = Some ed
                     ∧ Service.getEditor (run es w)
                       = (Ok (Some ed), run es w))).
Proof.
  split; [split; reflexivity |]. split.
  - intros v Hne. cbv zeta.
    pose proof (MONACO_READY_binds w v Hne) as Hv.
    split; [exact Hv |]. destruct Hv as [Hm He].
    split; [unfold Service.getMonaco, gets; rewrite Hm; reflexivity |].
    split; [unfold Service.getEditor, gets; rewrite He; reflexivity |].
    intros es. apply bound_run, (boundTo_bound v). split; assumption.
  - intros Hw es. pose proof (bound_run es w Hw) as Hb.
    split; [exact Hb |].
    destruct (bound_handles _ Hb) as (mo & ed & Hmo & Hed).
    split; [exists mo | exists ed];
      (split; [assumption |]);
      unfold Service.getMonaco, Service.getEditor, gets; congruence.
Qed.

Lemma handles_stay_bound_witness :
  let w := run [Called (call_deleteLine 1);
                Triggered THEME_CHANGE tt;
                Called call_toggleWrap;
                Triggered EDITOR_READY (mkHandles 5%nat 6%nat);
                Called (call_getLineContent 9)]
               (ready abc) in
  bound w ∧ exists mo, monaco w = Some mo
                       ∧ Service.getMonaco w = (Ok (Some mo), w).
Proof.
  intros w.
  assert (Hb : bound (ready abc)) by (split; eexists; reflexivity).
  destruct (proj2 (proj2 (handles_stay_bound (ready abc))) Hb
              [Called (call_deleteLine 1);
               Triggered THEME_CHANGE tt;
               Called call_toggleWrap;
               Triggered EDITOR_READY (mkHandles 5%nat 6%nat);
               Called (call_getLineContent 9)]) as (H1 & H2 & _).
  split; [exact H1 | exact H2].
Defined.

(** ** Edits keep the model well formed *)

Lemma noTerminator_nil : noTerminator [].
Proof. split; apply not_elem_of_nil. Qed.

Lemma noTerminator_app (a b : jsstring) :
  noTerminator a -> noTerminator b -> noTerminator (a ++ b).
Proof.
  intros [Ha1 Ha2] [Hb1 Hb2].
  split; rewrite elem_of_app; intros [H | H]; auto.
Qed.

Lemma noTerminator_take (n : nat) (a : jsstring) :
  noTerminator a -> noTerminator (take n a).
Proof.
  intros [H1 H2]. split; intros H;
    [apply H1 | apply H2]; apply (subseteq_take n a), H.
Qed.

Lemma noTerminator_drop (n : nat) (a : jsstring) :
  noTerminator a -> noTerminator (drop n a).
Proof.
  intros [H1 H2]. split; intros H;
    [apply H1 | apply H2]; apply (subseteq_drop n a), H.
Qed.

Lemma noTerminator_cons (c : ascii) (l : jsstring) :
  c <> LF -> c <> CR -> noTerminator l -> noTerminator (c :: l).
Proof.
  intros Hlf Hcr [H1 H2].
  split; intros H; apply elem_of_cons in H as [H | H]; auto.
Qed.

(** The pieces a text is cut into hold no line terminator. *)
Lemma splitLines_noTerminator (s : jsstring) :
  Forall noTerminator (splitLines s).
Proof.
  remember (length s) as n eqn:Hn.
  revert s Hn. induction n as [n IH] using lt_wf_ind. intros s Hn.
  destruct s as [| c rest]; cbn [splitLines].
  - repeat constructor; apply not_elem_of_nil.
  - cbn [length] in Hn.
    destruct (Ascii.eqb_spec c LF) as [-> | Hlf].
    + constructor; [apply noTerminator_nil |].
      apply (IH (length rest)); [lia | reflexivity].
    + destruct (Ascii.eqb_spec c CR) as [-> | Hcr].
      * destruct rest as [| c' rest'].
        -- repeat constructor; apply not_elem_of_nil.
        -- cbn [length] in Hn.
           destruct (Ascii.eqb c' LF);
             (constructor; [apply noTerminator_nil |]).
           ++ apply (IH (length rest')); [lia | reflexivity].
           ++ apply (IH (length (c' :: rest'))); [cbn [length]; lia | reflexivity].
      * assert (Hrest : Forall noTerminator (splitLines rest))
          by (apply (IH (length rest)); [lia | reflexivity]).
        destruct (splitLines rest) as [| l ls].
        -- constructor; [| constructor].
           apply noTerminator_cons;
             [exact Hlf | exact Hcr | apply noTerminator_nil].
        -- apply Forall_cons in Hrest as [Hl Hls].
           constructor; [| exact Hls].
           apply noTerminator_cons; assumption.
Qed.

Lemma Forall_removelast {A} (P : A -> Prop) (l : list A) :
  Forall P l -> Forall P (removelast l).
Proof.
  induction 1 as [| x l Hx Hl IH]; cbn [removelast]; [constructor |].
  destruct l; [constructor | constructor; assumption].
Qed.

Lemma Forall_List_last {A} (P : A -> Prop) (l : list A) (d : A) :
  Forall P l -> P d -> P (List.last l d).
Proof.
  induction 1 as [| x l Hx Hl IH]; intros Hd; cbn [List.last]; [exact Hd |].
  destruct l; [exact Hx | apply IH, Hd].
Qed.

Lemma glue_noTerminator (pre : jsstring) (ts : list jsstring)
    (post : jsstring) :
  noTerminator pre -> Forall noTerminator ts -> noTerminator post ->
  Forall noTerminator (glue pre ts post) ∧ glue pre ts post <> [].
Proof.
  intros Hpre Hts Hpost. destruct ts as [| t [| t' ts'']]; cbn [glue].
  - split; [| discriminate].
    constructor; [apply noTerminator_app; assumption | constructor].
  - apply Forall_cons in Hts as [Ht _]. split; [| discriminate].
    constructor; [| constructor].
    apply noTerminator_app; [assumption |].
    apply noTerminator_app; assumption.
  - apply Forall_cons in Hts as [Ht Hts']. split; [| discriminate].
    constructor; [apply noTerminator_app; assumption |].
    apply Forall_app. split.
    + apply Forall_removelast, Hts'.
    + constructor; [| constructor].
      apply noTerminator_app; [| exact Hpost].
      apply Forall_List_last; [exact Hts' | apply noTerminator_nil].
Qed.

Lemma noTerminator_lookup (ls : list jsstring) (i : nat) :
  Forall noTerminator ls -> noTerminator (default [] (ls !! i)).
Proof.
  intros Hls. destruct (ls !! i) as [l |] eqn:E; cbn [default].
  - eapply Forall_lookup_1; [exact Hls | exact E].
  - apply noTerminator_nil.
Qed.

(** Well-formedness is an invariant of the widget's edits. *)
Lemma applyEdit_wf (op : EditOperation) (d : Widget) :
  wfModel (model d) -> wfModel (model (applyEdit op d)).
Proof.
  intros [_ Hls]. rewrite model_applyEdit. unfold wfModel. cbn [lines].
  unfold spliceLines.
  set (r := validateRange (model d) (range op)).
  destruct (glue_noTerminator
              (take (Z.to_nat (startColumn r - 1))
                 (default [] (lines (model d)
                                !! Z.to_nat (startLineNumber r - 1))))
              (splitLines (editText op))
              (drop (Z.to_nat (endColumn r - 1))
                 (default [] (lines (model d)
                                !! Z.to_nat (endLineNumber r - 1)))))
    as [Hg Hne].
  - apply noTerminator_take, noTerminator_lookup, Hls.
  - apply splitLines_noTerminator.
  - apply noTerminator_drop, noTerminator_lookup, Hls.
  - split.
    + intros H. apply app_eq_nil in H as [_ H].
      apply app_eq_nil in H as [H _]. apply Hne, H.
    + apply Forall_app. split; [apply Forall_take, Hls |].
      apply Forall_app. split; [exact Hg | apply Forall_drop, Hls].
Qed.

(** * Further properties of the service *)

(** ** Before the editor is bound, and what only reads *)

(** Case analysis on every test a computation makes on its state. *)
Ltac run_cases :=
  repeat (progress unfold_service);
  repeat (run_monad;
          cbn [monaco editor widget with_widget with_monaco with_editor];
          try match goal with
              | H : monaco _ = _ |- _ => rewrite H
              | H : editor _ = _ |- _ => rewrite H
              end;
          try match goal with
              | |- context [match ?x with _ => _ end] =>
                  lazymatch type of x with
                  | option _ => destruct x eqn:?
                  | bool => destruct x eqn:?
                  end
              end).

(** X1: while the module variable [editor] is unbound, every function
    that addresses the buffer or the widget throws a TypeError and
    leaves the state as it is. *)
Theorem unbound_editor_throws (w : World) :
  editor w = None ->
  (forall text, Service.insert text w = (Throw TypeError, w))
  ∧ (forall p text, Service.insertAt p text w = (Throw TypeError, w))
  ∧ (forall l text, Service.replaceLine l text w = (Throw TypeError, w))
  ∧ (forall a b text, Service.replaceLines a b text w = (Throw TypeError, w))
  ∧ (forall l, Service.deleteLine l w = (Throw TypeError, w))
  ∧ (forall l, Service.getLineContent l w = (Throw TypeError, w))
  ∧ (forall a b, Service.getLinesContent a b w = (Throw TypeError, w))
  ∧ Service.getValue w = (Throw TypeError, w)
  ∧ (forall text, Service.setValue text w = (Throw TypeError, w))
  ∧ (forall s v all, Service.replaceValue s v all w = (Throw TypeError, w))
  ∧ Service.getSelectionInfo w = (Throw TypeError, w)
  ∧ Service.getOneIndent w = (Throw TypeError, w)
  ∧ Service.toggleWrap w = (Throw TypeError, w).
Proof.
  intros Hed.
  repeat split; intros; repeat (progress unfold_service); run_monad;
    rewrite Hed; reflexivity.
Qed.

Lemma unbound_editor_throws_witness :
  Service.deleteLine 1 (fresh abc) = (Throw TypeError, fresh abc)
  ∧ Service.getValue (fresh abc) = (Throw TypeError, fresh abc).
Proof.
  destruct (unbound_editor_throws (fresh abc) eq_refl)
    as (_ & _ & _ & _ & Hd & _ & _ & Hg & _).
  split; [apply Hd | exact Hg].
Defined.

(** X2: the reading functions change nothing, in any state and whether
    they return or throw. *)
Theorem reads_change_nothing (w : World) :
  after Service.getDefaultOptions w = w
  ∧ after Service.getMonaco w = w
  ∧ after Service.getEditor w = w
  ∧ after Service.getOneIndent w = w
  ∧ (forall l, after (Service.getLineContent l) w = w)
  ∧ (forall a b, after (Service.getLinesContent a b) w = w)
  ∧ after Service.getValue w = w
  ∧ after Service.getSelectionInfo w = w.
Proof.
  repeat split; intros; run_cases; reflexivity.
Qed.

(** X3: an editing function changes the widget and nothing else: the
    module variables, the hooks, the promises, the queue, the store, the
    toasts and the actions are as they were; on the widget it issues no
    view command and adds no listener. *)
Theorem edits_change_the_widget_only (w : World) (c : Call) :
  match c with
  | call_insert _ | call_insertAt _ _ | call_replaceLine _ _
  | call_replaceLines _ _ _ | call_deleteLine _ | call_setValue _
  | call_replaceValue _ _ _ => True
  | _ => False
  end ->
  let w' := after (runCall c) w in
  w' = with_widget (widget w') w
  ∧ issued (widget w') = issued (widget w)
  ∧ cursorListeners (widget w') = cursorListeners (widget w)
  ∧ wrappingInfo (widget w') = wrappingInfo (widget w)
  ∧ (result (runCall c) w = Ok tt -> focused (widget w') = true).
Proof.
  intros Hc. cbv zeta.
  destruct c; try destruct Hc; cbn [runCall];
    unfold Service.replaceValue; run_cases;
    unfold executeEdit; cbn [widget with_widget];
    try destruct (readOnly (widget w));
    (split; [destruct w; reflexivity |]);
    repeat split; try reflexivity; try discriminate.
Qed.

Lemma edits_change_the_widget_only_witness :
  let w' := after (runCall (call_replaceLine 2 (str "z"))) (ready abc) in
  w' = with_widget (widget w') (ready abc) ∧ focused (widget w') = true.
Proof.
  intros w'.
  destruct (edits_change_the_widget_only (ready abc)
              (call_replaceLine 2 (str "z")) I) as (H1 & _ & _ & _ & H2).
  split; [exact H1 | apply H2; reflexivity].
Defined.

(** ** Reading lines *)

Lemma linesInRange_whole (m : TextModel) (a b : Z) :
  1 <= a <= b -> b <= getLineCount m ->
  linesInRange m (mkRange a 1 b (jslength (lineAt m b) + 1))
  = take (Z.to_nat (b - a + 1)) (drop (Z.to_nat (a - 1)) (lines m)).
Proof.
  intros Hab Hb. unfold linesInRange.
  cbn [startLineNumber startColumn endLineNumber endColumn].
  change (Z.to_nat (1 - 1)) with 0%nat.
  replace (Z.to_nat (jslength (lineAt m b) + 1 - 1))
    with (length (lineAt m b)) by (unfold jslength; lia).
  pose proof (lineAt_lookup m a ltac:(lia)) as Ha.
  pose proof (lineAt_lookup m b ltac:(lia)) as Hlb.
  rewrite (drop_S _ _ _ Ha).
  destruct (Nat.eqb_spec (Z.to_nat (a - 1)) (Z.to_nat (b - 1))) as [E | E].
  - assert (a = b) as -> by lia.
    replace (Z.to_nat (b - b + 1)) with 1%nat by lia.
    cbn [take]. unfold substring. rewrite drop_0, Nat.sub_0_r, take_ge by lia.
    reflexivity.
  - replace (Z.to_nat (b - a + 1))
      with (S (S (Z.to_nat (b - 1) - Z.to_nat (a - 1) - 1))) by lia.
    cbn [take]. rewrite drop_0. f_equal.
    rewrite (take_S_r _ _ (lineAt m b)).
    + rewrite (take_ge (lineAt m b)) by lia. reflexivity.
    + rewrite lookup_drop. rewrite <- Hlb. f_equal. lia.
Qed.

(** X4: with the editor bound and 1 <= lineStart <= lineEnd <= line
    count, [getLinesContent] returns the lines from lineStart to lineEnd,
    whole, joined by the terminator of the buffer; on one line it
    returns what [getLineContent] returns. *)
Theorem getLinesContent_in_range (w : World) (lineStart lineEnd : Z) :
  bound w ->
  1 <= lineStart <= lineEnd -> lineEnd <= getLineCount (model (widget w)) ->
  let m := model (widget w) in
  result (Service.getLinesContent lineStart lineEnd) w
  = Ok (joinLines (eolText (eol m))
          (take (Z.to_nat (lineEnd - lineStart + 1))
             (drop (Z.to_nat (lineStart - 1)) (lines m))))
  ∧ result (Service.getLinesContent lineEnd lineEnd) w
    = result (Service.getLineContent lineEnd) w.
Proof.
  intros Hb Hab Hn. destruct (bound_handles w Hb) as (mo & ed & Hmo & Hed).
  cbv zeta. unfold result.
  rewrite !(getLinesContent_run w mo ed Hmo Hed).
  rewrite (getLineContent_run w ed Hed). cbn [fst].
  rewrite getLineLength_valid by lia.
  unfold Monaco.getLineContent. rewrite validLine_true by lia.
  unfold Monaco.getValueInRange.
  split.
  - rewrite validateRange_valid;
      try (unfold getLineMaxColumn, jslength; lia).
    rewrite linesInRange_whole by lia. reflexivity.
  - rewrite validateRange_valid;
      try (unfold getLineMaxColumn, jslength; lia).
    rewrite linesInRange_whole by lia.
    replace (Z.to_nat (lineEnd - lineEnd + 1)) with 1%nat by lia.
    rewrite (drop_S _ _ _
               (lineAt_lookup (model (widget w)) lineEnd ltac:(lia))).
    reflexivity.
Qed.

Lemma getLinesContent_in_range_witness :
  result (Service.getLinesContent 2 3) (ready abc)
  = Ok (str "b" ++ [LF] ++ str "c").
Proof.
  assert (Hb : bound (ready abc)) by (split; eexists; reflexivity).
  destruct (getLinesContent_in_range (ready abc) 2 3 Hb) as [H _].
  - lia.
  - vm_compute. discriminate.
  - rewrite H. reflexivity.
Defined.

(** ** Round trips *)

Lemma applyEdit_one_line (d : Widget) (line : Z) (text : jsstring) :
  1 <= line <= getLineCount (model d) -> noTerminator text ->
  lines (model (applyEdit
                  (mkEdit (newRange line 1 line
                             (jslength (lineAt (model d) line) + 1))
                          (Some text) true) d))
  = <[Z.to_nat (line - 1) := text]> (lines (model d)).
Proof.
  intros Hl Hplain. rewrite applyEdit_whole_lines by lia.
  rewrite splitLines_plain by exact Hplain.
  unfold getLineCount in Hl.
  rewrite insert_take_drop by lia.
  replace (S (Z.to_nat (line - 1))) with (Z.to_nat line) by lia.
  reflexivity.
Qed.

(** X5: in an editor that is not read-only, after [replaceLine line
    text], with a valid line and a text
    free of line terminators, [getLineContent line] returns the text,
    the line count is as before, and [getLineContent] of every other
    line returns what it returned before. *)
Theorem replaceLine_then_getLineContent (w : World) (line : Z)
    (text : jsstring) :
  bound w -> readOnly (widget w) = false ->
  1 <= line <= getLineCount (model (widget w)) -> noTerminator text ->
  let w' := after (Service.replaceLine line text) w in
  result (Service.getLineContent line) w' = Ok text
  ∧ getLineCount (model (widget w')) = getLineCount (model (widget w))
  ∧ forall other, other <> line ->
      result (Service.getLineContent other) w'
      = result (Service.getLineContent other) w.
Proof.
  intros Hb Hro Hl Hplain.
  destruct (bound_handles w Hb) as (mo & ed & Hmo & Hed).
  cbv zeta. unfold result, after.
  rewrite (replaceLine_run w mo ed Hmo Hed line text
             (jslength (lineAt (model (widget w)) line)))
    by (apply getLineLength_valid; exact Hl).
  rewrite executeEdit_writable by exact Hro.
  cbn [fst snd].
  set (d' := applyEdit _ (widget w)).
  assert (Hlines : lines (model d')
                   = <[Z.to_nat (line - 1) := text]> (lines (model (widget w))))
    by (apply applyEdit_one_line; assumption).
  assert (Hcount : getLineCount (model d') = getLineCount (model (widget w))).
  { unfold getLineCount. rewrite Hlines, length_insert. reflexivity. }
  assert (Hget : forall n,
            Service.getLineContent n
              (with_widget
                 (with_focused true
                    (placeCaret (mkPosition line (jslength text + 1)) d')) w)
            = (match Monaco.getLineContent (model d') n with
               | Some s => Ok s
               | None => Throw IllegalLineNumber
               end,
               with_widget
                 (with_focused true
                    (placeCaret (mkPosition line (jslength text + 1)) d')) w)).
  { intros n. rewrite (getLineContent_run (with_widget _ w) ed Hed).
    reflexivity. }
  split; [| split].
  - rewrite Hget. cbn [fst]. unfold Monaco.getLineContent.
    rewrite validLine_true by (rewrite Hcount; exact Hl).
    unfold lineAt. rewrite Hlines.
    unfold getLineCount in Hl.
    rewrite list_lookup_insert_eq by lia. reflexivity.
  - exact Hcount.
  - intros other Hne. rewrite Hget, (getLineContent_run w ed Hed).
    cbn [fst]. unfold Monaco.getLineContent, validLine. rewrite Hcount.
    destruct ((1 <=? other) && (other <=? getLineCount (model (widget w))))
      eqn:Hv; [| reflexivity].
    apply andb_true_iff in Hv as [H1 H2].
    apply Z.leb_le in H1. apply Z.leb_le in H2.
    unfold lineAt. rewrite Hlines.
    rewrite list_lookup_insert_ne by lia. reflexivity.
Qed.

Lemma replaceLine_then_getLineContent_witness :
  result (Service.getLineContent 2)
    (after (Service.replaceLine 2 (str "hello")) (ready abc))
  = Ok (str "hello").
Proof.
  assert (Hb : bound (ready abc)) by (split; eexists; reflexivity).
  destruct (replaceLine_then_getLineContent (ready abc) 2 (str "hello") Hb
              eq_refl)
    as [H _].
  - vm_compute. split; discriminate.
  - split; vm_compute; intros H;
      repeat (apply elem_of_cons in H as [H | H]; [discriminate |]);
      apply elem_of_nil in H; exact H.
  - exact H.
Defined.

Lemma joinLines_cons (sep l : jsstring) (ls : list jsstring) :
  ls <> [] -> joinLines sep (l :: ls) = l ++ sep ++ joinLines sep ls.
Proof. destruct ls; [congruence | reflexivity]. Qed.

(** Joining by LF the pieces a text without carriage return is cut into
    gives the text back. *)
Lemma joinLines_splitLines (text : jsstring) :
  CR ∉ text -> joinLines [LF] (splitLines text) = text.
Proof.
  induction text as [| c rest IH]; intros Hcr; [reflexivity |].
  assert (Hrest : CR ∉ rest) by (intros H; apply Hcr; right; exact H).
  cbn [splitLines].
  destruct (Ascii.eqb_spec c LF) as [-> | Hlf].
  - rewrite joinLines_cons by apply splitLines_nonempty.
    cbn [app]. f_equal. apply IH, Hrest.
  - destruct (Ascii.eqb_spec c CR) as [-> | _];
      [exfalso; apply Hcr; left |].
    specialize (IH Hrest).
    destruct (splitLines rest) as [| l ls] eqn:E;
      [exfalso; apply (splitLines_nonempty rest), E |].
    destruct ls as [| l' ls'].
    + cbn [joinLines] in *. f_equal. exact IH.
    + rewrite joinLines_cons by discriminate.
      rewrite joinLines_cons in IH by discriminate.
      cbn [app]. f_equal. exact IH.
Qed.

Lemma splitLines_line_CRLF (l rest : jsstring) :
  noTerminator l -> splitLines (l ++ CR :: LF :: rest) = l :: splitLines rest.
Proof.
  induction l as [| c l' IH]; intros [Hlf Hcr].
  - reflexivity.
  - cbn [app splitLines].
    destruct (Ascii.eqb_spec c LF) as [-> | _]; [exfalso; apply Hlf; left |].
    destruct (Ascii.eqb_spec c CR) as [-> | _]; [exfalso; apply Hcr; left |].
    rewrite IH; [reflexivity |].
    split; intros H; [apply Hlf | apply Hcr]; right; exact H.
Qed.

(** Cutting the value of a model, joined by its own terminator, gives
    its lines back. *)
Lemma splitLines_joinLines_eol (e : EndOfLineSequence) (ls : list jsstring) :
  ls <> [] -> Forall noTerminator ls ->
  splitLines (joinLines (eolText e) ls) = ls.
Proof.
  destruct e; [apply splitLines_joinLines |].
  induction ls as [| l ls' IH]; [congruence |]. intros _ Hall.
  apply Forall_cons in Hall as [Hl Hls'].
  destruct ls' as [| l' ls''].
  - cbn [joinLines]. apply splitLines_plain, Hl.
  - rewrite joinLines_cons by discriminate. cbn [eolText app].
    rewrite splitLines_line_CRLF by exact Hl.
    f_equal. apply IH; [discriminate | exact Hls'].
Qed.

(** X6: in an editor that is not read-only, after [setValue text],
    [getValue] returns the text with its
    line terminators (CRLF, CR, LF) turned into LF, and the text itself
    when it holds no carriage return; the buffer has one line more than
    the text has terminators. *)
Theorem setValue_then_getValue (w : World) (text : jsstring) :
  bound w -> wfModel (model (widget w)) -> readOnly (widget w) = false ->
  let w' := after (Service.setValue text) w in
  result Service.getValue w' = Ok (joinLines [LF] (splitLines text))
  ∧ (CR ∉ text -> result Service.getValue w' = Ok text)
  ∧ lines (model (widget w')) = splitLines text
  ∧ eol (model (widget w')) = eol (model (widget w)).
Proof.
  intros Hb Hwf Hro. destruct (bound_handles w Hb) as (mo & ed & Hmo & Hed).
  destruct (setValue_lines w text Hb Hwf) as (_ & Hm & Ha).
  rewrite Hro in Hm.
  cbv zeta.
  assert (Hg : result Service.getValue (after (Service.setValue text) w)
               = Ok (joinLines [LF] (splitLines text))).
  { unfold result. rewrite Ha.
    rewrite (getValue_run (with_widget _ w) mo ed Hmo Hed).
    cbn [fst]. rewrite <- Ha, Hm. reflexivity. }
  split; [exact Hg |]. split; [| rewrite Hm; split; reflexivity].
  intros Hcr. rewrite Hg, joinLines_splitLines by exact Hcr. reflexivity.
Qed.

Lemma setValue_then_getValue_witness :
  result Service.getValue
    (after (Service.setValue (str "p" ++ [CR; LF] ++ str "q")) (ready abc))
  = Ok (str "p" ++ [LF] ++ str "q").
Proof.
  assert (Hb : bound (ready abc)) by (split; eexists; reflexivity).
  destruct (setValue_then_getValue (ready abc)
              (str "p" ++ [CR; LF] ++ str "q") Hb abc_wf eq_refl) as [H _].
  rewrite H. reflexivity.
Defined.

(** X7: when the pattern does not occur in the value of the buffer,
    [replaceValue] leaves the model as it was, with or without
    [replaceAll] and whatever terminator the buffer stores. *)
Theorem replaceValue_without_occurrence (w : World) (search val : jsstring)
    (all : bool) :
  bound w -> wfModel (model (widget w)) ->
  (forall k,
     ~ occursAt search (Monaco.getValue (model (widget w)) TextDefined) k) ->
  result (Service.replaceValue search val all) w = Ok tt
  ∧ model (widget (after (Service.replaceValue search val all) w))
    = model (widget w).
Proof.
  intros Hb Hwf Hno. destruct (bound_handles w Hb) as (mo & ed & Hmo & Hed).
  unfold result, after.
  rewrite (replaceValue_run w ed search val all Hed).
  assert (Htext : (if all
                   then JS.replaceAll
                          (Monaco.getValue (model (widget w)) TextDefined)
                          search val
                   else JS.replace
                          (Monaco.getValue (model (widget w)) TextDefined)
                          search val)
                  = Monaco.getValue (model (widget w)) TextDefined).
  { destruct all; [apply replaceAll_none, Hno |].
    apply (replace_first _ search val), Hno. }
  rewrite Htext.
  destruct (setValue_lines w (Monaco.getValue (model (widget w)) TextDefined)
              Hb Hwf) as (Hr & Hm & _).
  unfold result, after in *. split; [exact Hr |].
  rewrite Hm. destruct (readOnly (widget w)); [reflexivity |].
  unfold Monaco.getValue. cbn [eolOf].
  rewrite splitLines_joinLines_eol by apply Hwf.
  destruct (model (widget w)); reflexivity.
Qed.

Lemma replaceValue_without_occurrence_witness :
  model (widget (after (Service.replaceValue (str "zz") (str "y") true)
                   (ready abc)))
  = model (widget (ready abc)).
Proof.
  assert (Hb : bound (ready abc)) by (split; eexists; reflexivity).
  apply (replaceValue_without_occurrence (ready abc) (str "zz") (str "y")
           true Hb abc_wf).
  intros k Hk. apply occursAt_isPrefix in Hk as [Hle Hpre].
  vm_compute in Hle.
  do 6 (destruct k as [| k]; [vm_compute in Hpre; discriminate |]).
  lia.
Defined.

(** ** Inserting *)

Lemma spliceLines_point (ls : list jsstring) (l c : Z) (text : jsstring) :
  1 <= l <= Z.of_nat (length ls) -> noTerminator text ->
  let line := default [] (ls !! Z.to_nat (l - 1)) in
  spliceLines ls (mkRange l c l c) text
  = <[Z.to_nat (l - 1) := take (Z.to_nat (c - 1)) line ++ text
                            ++ drop (Z.to_nat (c - 1)) line]> ls.
Proof.
  intros Hl Hplain. cbv zeta. unfold spliceLines.
  cbn [startLineNumber startColumn endLineNumber endColumn].
  rewrite splitLines_plain by exact Hplain. cbn [glue].
  rewrite insert_take_drop by lia. reflexivity.
Qed.

(** The model and the carried markers after an insertion of a text
    without line terminator at a valid position. *)
Lemma applyEdit_point (d : Widget) (l c : Z) (text : jsstring) :
  1 <= l <= getLineCount (model d) ->
  1 <= c <= getLineMaxColumn (model d) l ->
  noTerminator text ->
  let d' := applyEdit (mkEdit (newRange l c l c) (Some text) true) d in
  lines (model d')
  = <[Z.to_nat (l - 1) := take (Z.to_nat (c - 1)) (lineAt (model d) l)
                            ++ text
                            ++ drop (Z.to_nat (c - 1)) (lineAt (model d) l)]>
      (lines (model d))
  ∧ getLineCount (model d') = getLineCount (model d)
  ∧ getLineMaxColumn (model d') l
    = getLineMaxColumn (model d) l + jslength text
  ∧ (selection d = mkSelection (mkPosition l c) (mkPosition l c) ->
     selection d' = mkSelection (mkPosition l (c + jslength text))
                                (mkPosition l (c + jslength text))).
Proof.
  intros Hl Hc Hplain. cbv zeta.
  assert (Hr : validateRange (model d) (newRange l c l c) = mkRange l c l c)
    by (apply validateRange_valid; lia).
  assert (Hlines : lines (model (applyEdit
                     (mkEdit (newRange l c l c) (Some text) true) d))
                   = <[Z.to_nat (l - 1) :=
                         take (Z.to_nat (c - 1)) (lineAt (model d) l) ++ text
                           ++ drop (Z.to_nat (c - 1)) (lineAt (model d) l)]>
                       (lines (model d))).
  { rewrite model_applyEdit. cbn [range editText Monaco.text default lines].
    rewrite Hr. apply spliceLines_point; [exact Hl | exact Hplain]. }
  split; [exact Hlines |]. split; [| split].
  - unfold getLineCount. rewrite Hlines, length_insert. reflexivity.
  - unfold getLineMaxColumn, lineAt at 1. rewrite Hlines.
    unfold getLineCount in Hl. rewrite list_lookup_insert_eq by lia.
    cbn [default from_option id]. unfold jslength.
    rewrite !length_app, length_take, length_drop.
    unfold getLineMaxColumn, jslength in Hc. lia.
  - intros Hsel. unfold applyEdit.
    cbn [range editText Monaco.text default selection with_selection
         with_model].
    rewrite Hr, Hsel. cbn [selectionStart position].
    unfold moveMarker, getStartPosition, getEndPosition, endOfInsert,
      isBefore, isBeforeOrEqual.
    cbn [startLineNumber startColumn endLineNumber endColumn
         lineNumber column].
    rewrite splitLines_plain by exact Hplain. cbn [lineNumber column].
    rewrite !Z.ltb_irrefl, !Z.eqb_refl, !Z.leb_refl. reflexivity.
Qed.

Lemma insertAt_run (w : World) (mo : MonacoHandle) (ed : EditorHandle)
    (p : Position) (text : jsstring) :
  monaco w = Some mo -> editor w = Some ed ->
  Service.insertAt p text w
  = (Ok tt,
     with_widget
       (with_focused true
          (placeCaret p
             (executeEdit (mkEdit (newRange (lineNumber p) (column p)
                                          (lineNumber p) (column p))
                                (Some text) true)
                        (widget w)))) w).
Proof.
  intros Hmo Hed. unfold Service.insertAt. unfold_widget.
  run_service. reflexivity.
Qed.

Lemma insert_run (w : World) (mo : MonacoHandle) (ed : EditorHandle)
    (text : jsstring) :
  monaco w = Some mo -> editor w = Some ed ->
  let r := selectionRange (selection (widget w)) in
  Service.insert text w
  = (Ok tt,
     with_widget
       (with_focused true
          (executeEdit (mkEdit (newRange (endLineNumber r) (endColumn r)
                                       (endLineNumber r) (endColumn r))
                             (Some text) true)
                     (widget w))) w).
Proof.
  intros Hmo Hed. cbv zeta. unfold Service.insert. unfold_widget.
  run_service. reflexivity.
Qed.

(** X8: in an editor that is not read-only, [insertAt position text],
    at a valid position and with a text
    free of line terminators, puts the text into the line at the column,
    leaves the other lines and the line count as they were, and leaves
    the caret at [position], in front of the inserted text. *)
Theorem insertAt_splices (w : World) (l c : Z) (text : jsstring) :
  bound w -> readOnly (widget w) = false ->
  1 <= l <= getLineCount (model (widget w)) ->
  1 <= c <= getLineMaxColumn (model (widget w)) l ->
  noTerminator text ->
  let m := model (widget w) in
  let w' := after (Service.insertAt (mkPosition l c) text) w in
  result (Service.insertAt (mkPosition l c) text) w = Ok tt
  ∧ lines (model (widget w'))
    = <[Z.to_nat (l - 1) := take (Z.to_nat (c - 1)) (lineAt m l) ++ text
                              ++ drop (Z.to_nat (c - 1)) (lineAt m l)]>
        (lines m)
  ∧ selection (widget w') = mkSelection (mkPosition l c) (mkPosition l c)
  ∧ focused (widget w') = true.
Proof.
  intros Hb Hro Hl Hc Hplain.
  destruct (bound_handles w Hb) as (mo & ed & Hmo & Hed).
  cbv zeta. unfold result, after.
  rewrite (insertAt_run w mo ed (mkPosition l c) text Hmo Hed).
  rewrite executeEdit_writable by exact Hro.
  cbn [fst snd widget with_widget lineNumber column].
  destruct (applyEdit_point (widget w) l c text Hl Hc Hplain)
    as (Hlines & Hcount & Hmax & _).
  split; [reflexivity |]. split; [exact Hlines |]. split; [| reflexivity].
  unfold placeCaret. cbn [selection with_focused with_selection].
  rewrite validatePosition_valid; [reflexivity | lia |].
  rewrite Hmax. unfold jslength. lia.
Qed.

Lemma insertAt_splices_witness :
  let w' := after (Service.insertAt (mkPosition 2 2) (str "xy")) (ready abc) in
  lines (model (widget w')) = [str "a"; str "bxy"; str "c"]
  ∧ position (selection (widget w')) = mkPosition 2 2.
Proof.
  intros w'. subst w'.
  assert (Hb : bound (ready abc)) by (split; eexists; reflexivity).
  destruct (insertAt_splices (ready abc) 2 2 (str "xy") Hb eq_refl)
    as (_ & Hl & Hs & _).
  - vm_compute. split; discriminate.
  - vm_compute. split; discriminate.
  - split; vm_compute; intros H;
      repeat (apply elem_of_cons in H as [H | H]; [discriminate |]);
      apply elem_of_nil in H; exact H.
  - split; [rewrite Hl | rewrite Hs]; reflexivity.
Defined.

(** [insert] with the caret, and no selection, at a valid position of
    an editor that is not read-only. *)
Lemma insert_collapsed (w : World) (l c : Z) (text : jsstring) :
  bound w -> readOnly (widget w) = false ->
  1 <= l <= getLineCount (model (widget w)) ->
  1 <= c <= getLineMaxColumn (model (widget w)) l ->
  noTerminator text ->
  selection (widget w) = mkSelection (mkPosition l c) (mkPosition l c) ->
  let m := model (widget w) in
  exists d',
    Service.insert text w = (Ok tt, with_widget d' w)
    ∧ model d'
      = mkTextModel
          (<[Z.to_nat (l - 1) := take (Z.to_nat (c - 1)) (lineAt m l) ++ text
                                   ++ drop (Z.to_nat (c - 1)) (lineAt m l)]>
             (lines m))
          (eol m)
    ∧ selection d' = mkSelection (mkPosition l (c + jslength text))
                                 (mkPosition l (c + jslength text))
    ∧ focused d' = true
    ∧ readOnly d' = false.
Proof.
  intros Hb Hro Hl Hc Hplain Hsel.
  destruct (bound_handles w Hb) as (mo & ed & Hmo & Hed).
  cbv zeta. rewrite (insert_run w mo ed text Hmo Hed).
  rewrite executeEdit_writable by exact Hro. rewrite Hsel.
  unfold selectionRange. cbn [selectionStart position lineNumber column].
  rewrite (newRange_ordered l c l c) by lia.
  cbn [endLineNumber endColumn].
  destruct (applyEdit_point (widget w) l c text Hl Hc Hplain)
    as (Hlines & _ & _ & Hs).
  eexists. split; [reflexivity |].
  split; [| split; [| split; [reflexivity | exact Hro]]].
  - change (model (with_focused true ?d)) with (model d).
    rewrite model_applyEdit. rewrite model_applyEdit in Hlines.
    cbn [lines] in Hlines. rewrite Hlines. reflexivity.
  - change (selection (with_focused true ?d)) with (selection d).
    apply Hs, Hsel.
Qed.

(** X9: in an editor that is not read-only, [insert text], with the
    caret at a valid position, no selection
    and a text free of line terminators, puts the text into the line at
    the caret and leaves the caret behind the inserted text. *)
Theorem insert_at_caret (w : World) (l c : Z) (text : jsstring) :
  bound w -> readOnly (widget w) = false ->
  1 <= l <= getLineCount (model (widget w)) ->
  1 <= c <= getLineMaxColumn (model (widget w)) l ->
  noTerminator text ->
  selection (widget w) = mkSelection (mkPosition l c) (mkPosition l c) ->
  let m := model (widget w) in
  let w' := after (Service.insert text) w in
  result (Service.insert text) w = Ok tt
  ∧ lines (model (widget w'))
    = <[Z.to_nat (l - 1) := take (Z.to_nat (c - 1)) (lineAt m l) ++ text
                              ++ drop (Z.to_nat (c - 1)) (lineAt m l)]>
        (lines m)
  ∧ selection (widget w')
    = mkSelection (mkPosition l (c + jslength text))
                  (mkPosition l (c + jslength text))
  ∧ focused (widget w') = true.
Proof.
  intros Hb Hro Hl Hc Hplain Hsel. cbv zeta.
  destruct (insert_collapsed w l c text Hb Hro Hl Hc Hplain Hsel)
    as (d' & Hrun & Hm & Hs & Hf & _).
  unfold result, after. rewrite Hrun. cbn [fst snd widget with_widget].
  split; [reflexivity |]. rewrite Hm. cbn [lines].
  split; [reflexivity |]. split; [exact Hs | exact Hf].
Qed.

Lemma insert_at_caret_witness :
  let w' := after (Service.insert (str "xy")) (ready abc) in
  lines (model (widget w')) = [str "xya"; str "b"; str "c"]
  ∧ position (selection (widget w')) = mkPosition 1 3.
Proof.
  intros w'. subst w'.
  assert (Hb : bound (ready abc)) by (split; eexists; reflexivity).
  destruct (insert_at_caret (ready abc) 1 1 (str "xy") Hb eq_refl)
    as (_ & Hl & Hs & _).
  - vm_compute. split; discriminate.
  - vm_compute. split; discriminate.
  - split; vm_compute; intros H;
      repeat (apply elem_of_cons in H as [H | H]; [discriminate |]);
      apply elem_of_nil in H; exact H.
  - reflexivity.
  - split; [rewrite Hl | rewrite Hs]; reflexivity.
Defined.

(** X10: two [insert]s at the caret, one after the other, leave the
    buffer and the caret as one [insert] of the two texts together
    does. *)
Theorem insert_twice (w : World) (l c : Z) (t1 t2 : jsstring) :
  bound w ->
  1 <= l <= getLineCount (model (widget w)) ->
  1 <= c <= getLineMaxColumn (model (widget w)) l ->
  noTerminator t1 -> noTerminator t2 ->
  selection (widget w) = mkSelection (mkPosition l c) (mkPosition l c) ->
  let w12 := after (Service.insert t1 ;; Service.insert t2) w in
  let w' := after (Service.insert (t1 ++ t2)) w in
  model (widget w12) = model (widget w')
  ∧ selection (widget w12) = selection (widget w').
Proof.
  intros Hb Hl Hc H1 H2 Hsel. cbv zeta.
  destruct (readOnly (widget w)) eqn:Hro.
  { destruct (bound_handles w Hb) as (mo & ed & Hmo & Hed).
    unfold after, bind.
    rewrite (insert_run w mo ed t1 Hmo Hed),
      (insert_run w mo ed (t1 ++ t2) Hmo Hed).
    rewrite !executeEdit_readOnly by exact Hro.
    rewrite (insert_run (with_widget _ w) mo ed t2 Hmo Hed).
    cbn [snd widget with_widget].
    rewrite executeEdit_readOnly by exact Hro.
    split; reflexivity. }
  destruct (insert_collapsed w l c t1 Hb Hro Hl Hc H1 Hsel)
    as (d1 & Hrun1 & Hm1 & Hs1 & _ & Hro1).
  destruct (insert_collapsed w l c (t1 ++ t2) Hb Hro Hl Hc
              (noTerminator_app _ _ H1 H2) Hsel)
    as (d' & Hrun' & Hm' & Hs' & _).
  set (m := model (widget w)) in *.
  assert (Hi : (Z.to_nat (l - 1) < length (lines m))%nat)
    by (unfold getLineCount in Hl; lia).
  assert (Hcl : (Z.to_nat (c - 1) <= length (lineAt m l))%nat)
    by (unfold getLineMaxColumn, jslength in Hc; lia).
  assert (Hline1 : lineAt (model d1) l
                   = take (Z.to_nat (c - 1)) (lineAt m l) ++ t1
                       ++ drop (Z.to_nat (c - 1)) (lineAt m l)).
  { unfold lineAt at 1. rewrite Hm1. cbn [lines].
    rewrite list_lookup_insert_eq by exact Hi. reflexivity. }
  destruct (insert_collapsed (with_widget d1 w) l (c + jslength t1) t2)
    as (d2 & Hrun2 & Hm2 & Hs2 & _).
  - exact Hb.
  - exact Hro1.
  - cbn [widget with_widget]. unfold getLineCount in *. rewrite Hm1.
    cbn [lines]. rewrite length_insert. exact Hl.
  - cbn [widget with_widget]. unfold getLineMaxColumn.
    rewrite Hline1. unfold jslength.
    rewrite !length_app, length_take, length_drop. lia.
  - exact H2.
  - exact Hs1.
  - cbn [widget with_widget] in Hrun2, Hm2.
    unfold after, bind. rewrite Hrun1, Hrun2, Hrun'.
    cbn [snd widget with_widget].
    split.
    + rewrite Hm2, Hm', Hline1, Hm1. cbn [lines eol]. f_equal.
      rewrite list_insert_insert_eq. f_equal.
      replace (Z.to_nat (c + jslength t1 - 1))
        with (length (take (Z.to_nat (c - 1)) (lineAt m l) ++ t1))
        by (rewrite length_app, length_take; unfold jslength; lia).
      rewrite (app_assoc _ t1), take_app_length, drop_app_length.
      rewrite <- !app_assoc. reflexivity.
    + rewrite Hs2, Hs'. unfold jslength. rewrite length_app.
      f_equal; f_equal; lia.
Qed.

Lemma insert_twice_witness :
  model (widget (after (Service.insert (str "x") ;; Service.insert (str "y"))
                   (ready abc)))
  = model (widget (after (Service.insert (str "xy")) (ready abc))).
Proof.
  assert (Hb : bound (ready abc)) by (split; eexists; reflexivity).
  assert (Hp : forall s : string,
            (forall c, c ∈ str s -> c <> LF ∧ c <> CR) -> noTerminator (str s)).
  { intros s H. split; intros Hc; apply H in Hc as [? ?]; congruence. }
  apply (insert_twice (ready abc) 1 1 (str "x") (str "y") Hb).
  - vm_compute. split; discriminate.
  - vm_compute. split; discriminate.
  - apply Hp. intros c Hc. apply list_elem_of_singleton in Hc as ->.
    split; discriminate.
  - apply Hp. intros c Hc. apply list_elem_of_singleton in Hc as ->.
    split; discriminate.
  - reflexivity.
Defined.

(** ** [deleteLine] at the edges of the buffer *)

Lemma validatePosition_beyond (m : TextModel) (l c : Z) :
  1 <= getLineCount m -> getLineCount m < l ->
  validatePosition m (mkPosition l c)
  = mkPosition (getLineCount m) (getLineMaxColumn m (getLineCount m)).
Proof.
  intros Hn Hl. unfold validatePosition. cbn [lineNumber column].
  destruct (Z.ltb_spec l 1); [lia |].
  destruct (Z.ltb_spec (getLineCount m) l); [reflexivity | lia].
Qed.

Lemma validatePosition_below (m : TextModel) (l c : Z) :
  l < 1 -> validatePosition m (mkPosition l c) = mkPosition 1 1.
Proof.
  intros Hl. unfold validatePosition. cbn [lineNumber column].
  destruct (Z.ltb_spec l 1); [reflexivity | lia].
Qed.

(** An edit that inserts nothing at a point changes no line. *)
Lemma spliceLines_point_nothing (ls : list jsstring) (l c : Z) :
  1 <= l <= Z.of_nat (length ls) ->
  spliceLines ls (mkRange l c l c) [] = ls.
Proof.
  intros Hl. rewrite spliceLines_point by (exact Hl || apply noTerminator_nil).
  cbn [app]. rewrite take_drop.
  apply list_insert_id.
  destruct (ls !! Z.to_nat (l - 1)) eqn:E; [reflexivity |].
  apply lookup_ge_None in E. lia.
Qed.

(** X11: in an editor that is not read-only, [deleteLine] on the last
    line empties that line and keeps it:
    the line count is as before and the caret is at its start.  With a
    line below 1 or beyond the line count it changes no line. *)
Theorem deleteLine_at_the_edges (w : World) (k : Z) :
  bound w -> wfModel (model (widget w)) -> readOnly (widget w) = false ->
  let m := model (widget w) in
  let w' := after (Service.deleteLine k) w in
  (k = getLineCount m ->
     lines (model (widget w')) = <[Z.to_nat (k - 1) := []]> (lines m)
     ∧ getLineCount (model (widget w')) = getLineCount m
     ∧ position (selection (widget w')) = mkPosition k 1)
  ∧ (k < 1 ∨ getLineCount m < k -> lines (model (widget w')) = lines m).
Proof.
  intros Hb Hwf Hro. destruct (bound_handles w Hb) as (mo & ed & Hmo & Hed).
  pose proof (getLineCount_pos _ Hwf) as Hpos.
  cbv zeta. unfold after. rewrite (deleteLine_run w mo ed Hmo Hed).
  rewrite executeEdit_writable by exact Hro.
  cbn [snd widget with_widget].
  rewrite model_placeCaret, position_placeCaret, model_applyEdit.
  cbn [range editText Monaco.text default lines].
  set (m := model (widget w)) in *.
  rewrite (newRange_ordered k 1 (k + 1) 1) by lia.
  unfold validateRange, getStartPosition, getEndPosition.
  cbn [startLineNumber startColumn endLineNumber endColumn].
  split.
  - intros ->.
    rewrite (validatePosition_valid m (getLineCount m) 1)
      by (pose proof (getLineMaxColumn_ge m (getLineCount m)); lia).
    rewrite (validatePosition_beyond m (getLineCount m + 1) 1) by lia.
    cbn [lineNumber column].
    rewrite newRange_ordered
      by (pose proof (getLineMaxColumn_ge m (getLineCount m)); lia).
    assert (Hl : spliceLines (lines m)
                   (mkRange (getLineCount m) 1 (getLineCount m)
                      (getLineMaxColumn m (getLineCount m))) []
                 = <[Z.to_nat (getLineCount m - 1) := []]> (lines m)).
    { unfold getLineMaxColumn, lineAt.
      rewrite spliceLines_whole by (unfold getLineCount in *; lia).
      cbn [splitLines]. unfold getLineCount in *.
      rewrite insert_take_drop by lia.
      replace (S (Z.to_nat (Z.of_nat (length (lines m)) - 1)))
        with (Z.to_nat (Z.of_nat (length (lines m)))) by lia.
      reflexivity. }
    rewrite Hl. split; [reflexivity |]. split.
    + unfold getLineCount. cbn [lines]. rewrite length_insert. reflexivity.
    + apply validatePosition_valid.
      * unfold getLineCount. cbn [lines]. rewrite length_insert.
        unfold getLineCount in Hpos. lia.
      * match goal with
        | |- _ <= _ <= getLineMaxColumn ?m' ?n =>
            pose proof (getLineMaxColumn_ge m' n)
        end. lia.
  - intros [Hlow | Hhigh].
    + rewrite (validatePosition_below m k 1) by exact Hlow.
      assert (He : validatePosition m (mkPosition (k + 1) 1) = mkPosition 1 1).
      { destruct (Z.eq_dec (k + 1) 1) as [E | E].
        - rewrite E. apply validatePosition_valid; [lia |].
          pose proof (getLineMaxColumn_ge m 1). lia.
        - apply validatePosition_below. lia. }
      rewrite He. cbn [lineNumber column].
      rewrite newRange_ordered by lia.
      apply spliceLines_point_nothing. unfold getLineCount in Hpos. lia.
    + rewrite !validatePosition_beyond by lia.
      cbn [lineNumber column]. rewrite newRange_ordered by lia.
      apply spliceLines_point_nothing. unfold getLineCount in *. lia.
Qed.

Lemma deleteLine_at_the_edges_witness :
  lines (model (widget (after (Service.deleteLine 3) (ready abc))))
  = [str "a"; str "b"; []]
  ∧ lines (model (widget (after (Service.deleteLine 7) (ready abc)))) = abc.
Proof.
  assert (Hb : bound (ready abc)) by (split; eexists; reflexivity).
  split.
  - destruct (proj1 (deleteLine_at_the_edges (ready abc) 3 Hb abc_wf eq_refl)
                     eq_refl)
      as (H & _).
    rewrite H. reflexivity.
  - rewrite (proj2 (deleteLine_at_the_edges (ready abc) 7 Hb abc_wf eq_refl));
      [reflexivity | right; reflexivity].
Defined.

(** ** The selection snapshot *)

Lemma length_joinLines (sep : jsstring) (ls : list jsstring) :
  ls <> [] ->
  length (joinLines sep ls)
  = (list_sum (map length ls) + length sep * (length ls - 1))%nat.
Proof.
  induction ls as [| l ls' IH]; [congruence |]. intros _.
  destruct ls' as [| l' ls''].
  - cbn. lia.
  - rewrite joinLines_cons by discriminate.
    rewrite !length_app, IH by discriminate.
    cbn [map list_sum fold_right length]. lia.
Qed.

(** The value of a collapsed range is empty, wherever the range lies. *)
Lemma getValueInRange_collapsed (m : TextModel) (p : Position) :
  Monaco.getValueInRange m
    (newRange (lineNumber p) (column p) (lineNumber p) (column p))
  = [].
Proof.
  unfold Monaco.getValueInRange.
  rewrite newRange_ordered by lia.
  unfold validateRange, getStartPosition, getEndPosition.
  cbn [startLineNumber startColumn endLineNumber endColumn].
  destruct p as [l c]. cbn [lineNumber column].
  destruct (validatePosition m (mkPosition l c)) as [l' c'].
  cbn [lineNumber column]. rewrite newRange_ordered by lia.
  unfold linesInRange.
  cbn [startLineNumber startColumn endLineNumber endColumn].
  rewrite Nat.eqb_refl. unfold substring. rewrite Nat.sub_diag, take_0.
  reflexivity.
Qed.

Lemma getSelectionInfo_run (w : World) (mo : MonacoHandle)
    (ed : EditorHandle) :
  monaco w = Some mo -> editor w = Some ed ->
  let m := model (widget w) in
  let sel := selection (widget w) in
  Service.getSelectionInfo w
  = (Ok {| Service.si_line := lineNumber (position sel);
           Service.si_column := column (position sel);
           Service.si_lineCount := getLineCount m;
           Service.si_textLength := jslength (Monaco.getValue m PreferLF);
           Service.si_selectedLength :=
             jslength (Monaco.getValueInRange m (selectionRange sel)) |},
     w).
Proof.
  intros Hmo Hed. cbv zeta.
  unfold Service.getSelectionInfo, Service.getValue. unfold_widget.
  run_service. reflexivity.
Qed.

(** X12: with the editor bound, [getSelectionInfo] returns the caret's
    line and column and the line count; [textLength] is the sum of the
    line lengths plus one for each line break, whatever terminator the
    buffer stores; [selectedLength] is 0 when nothing is selected. *)
Theorem getSelectionInfo_snapshot (w : World) :
  bound w -> wfModel (model (widget w)) ->
  let m := model (widget w) in
  let sel := selection (widget w) in
  exists info,
    Service.getSelectionInfo w = (Ok info, w)
    ∧ Service.si_line info = lineNumber (position sel)
    ∧ Service.si_column info = column (position sel)
    ∧ Service.si_lineCount info = Z.of_nat (length (lines m))
    ∧ Service.si_textLength info
      = Z.of_nat (list_sum (map length (lines m))) + Z.of_nat (length (lines m))
        - 1
    ∧ (selectionStart sel = position sel ->
       Service.si_selectedLength info = 0).
Proof.
  intros Hb Hwf. destruct (bound_handles w Hb) as (mo & ed & Hmo & Hed).
  cbv zeta. eexists. split; [apply (getSelectionInfo_run w mo ed Hmo Hed) |].
  cbn [Service.si_line Service.si_column Service.si_lineCount
       Service.si_textLength Service.si_selectedLength].
  split; [reflexivity |]. split; [reflexivity |]. split; [reflexivity |].
  split.
  - unfold jslength, Monaco.getValue. cbn [eolOf].
    rewrite length_joinLines by apply Hwf. cbn [length].
    destruct Hwf as [Hne _].
    destruct (lines (model (widget w))); [congruence |]. cbn [length]. lia.
  - intros Hcol. unfold selectionRange. rewrite Hcol.
    rewrite getValueInRange_collapsed. reflexivity.
Qed.

Lemma getSelectionInfo_snapshot_witness :
  exists info,
    Service.getSelectionInfo (ready abc) = (Ok info, ready abc)
    ∧ Service.si_textLength info = 5
    ∧ Service.si_selectedLength info = 0.
Proof.
  assert (Hb : bound (ready abc)) by (split; eexists; reflexivity).
  destruct (getSelectionInfo_snapshot (ready abc) Hb abc_wf)
    as (info & Hrun & _ & _ & _ & Ht & Hs).
  exists info. split; [exact Hrun |].
  split; [rewrite Ht; reflexivity | apply Hs; reflexivity].
Defined.

(** ** Settings, theme and word wrap reaching the widget *)

(** [whenEditorReady().then(r)] with the editor bound: the promise is
    fulfilled at once and the reaction is queued. *)
Lemma whenReady_then_bound (w : World) (mo : MonacoHandle)
    (ed : EditorHandle) (r : Reaction) :
  monaco w = Some mo -> editor w = Some ed ->
  (p <- Service.whenEditorReady ;; Promise_then p r) w
  = (Ok tt,
     with_jobs (jobs w ++ [JReaction r (mkHandles mo ed)])
       (with_promises (promises w ++ [Fulfilled (mkHandles mo ed)]) w)).
Proof.
  intros Hmo Hed.
  unfold Service.whenEditorReady, Promise_resolve, Promise_then.
  run_monad. rewrite Hmo, Hed. cbn [fst snd promises with_promises].
  rewrite lookup_app_r by lia. rewrite Nat.sub_diag. reflexivity.
Qed.

Lemma drain_one_reaction (w : World) (r : Reaction) (v : Handles) :
  jobs w = [JReaction r v] ->
  Service.drain w = after (Service.runReaction r v) (with_jobs [] w).
Proof.
  intros Hj. unfold Service.drain. rewrite Hj.
  cbn [map list_sum fold_right Service.jobWeight Nat.add Service.drainN].
  rewrite Hj. reflexivity.
Qed.

(** The trigger of a hook with one handler, registered to stay. *)
Lemma trigger_single (w : World) t (f : HookFun t) (payload : Payload t) :
  hooks w t = [mkHookItem f false] ->
  Service.triggerHook t payload w
  = (x <- Service.invoke (Service.triggerHookN 1) f payload ;; ret tt) w.
Proof.
  intros Hh. unfold Service.triggerHook. rewrite triggerHookN_S.
  unfold bind at 1. unfold gets at 1. rewrite Hh. cbn [forEach hookFun once].
  unfold bind, ret.
  destruct (Service.invoke (Service.triggerHookN 1) f payload w) as [[[] | e] w'];
    reflexivity.
Qed.

(** X13: with the editor bound and the queue empty, the
    [SETTING_CHANGED] hook makes the widget run the font zoom reset
    exactly when the changed keys include ['editor.mouse-wheel-zoom'];
    otherwise the widget gets no command. *)
Theorem setting_changed_zoom_reset (w : World) (changedKeys : list string) :
  bound w -> jobs w = [] ->
  hooks w SETTING_CHANGED = [mkHookItem HSettingChanged false] ->
  issued (widget (step (Triggered SETTING_CHANGED changedKeys) w))
  = if JS.includes changedKeys "editor.mouse-wheel-zoom"
    then issued (widget w)
           ++ [TriggerAction "keyboard" "editor.action.fontZoomReset"]
    else issued (widget w).
Proof.
  intros Hb Hj Hh. destruct (bound_handles w Hb) as (mo & ed & Hmo & Hed).
  unfold step. cbn [perform].
  unfold after. rewrite (trigger_single w SETTING_CHANGED HSettingChanged changedKeys Hh).
  cbn [Service.invoke]. unfold bind at 1.
  rewrite (whenReady_then_bound w mo ed _ Hmo Hed). cbn [ret snd].
  rewrite (drain_one_reaction _ (RZoomReset changedKeys) (mkHandles mo ed))
    by (cbn [jobs with_jobs]; rewrite Hj; reflexivity).
  cbn [Service.runReaction]. unfold Editor_trigger, onWidget, after, modify, ret.
  destruct (JS.includes changedKeys "editor.mouse-wheel-zoom"); reflexivity.
Qed.

Lemma setting_changed_zoom_reset_witness :
  issued (widget (step (Triggered SETTING_CHANGED
                          ["editor.font-size"; "editor.mouse-wheel-zoom"]%string)
                    (ready abc)))
  = [TriggerAction "keyboard" "editor.action.fontZoomReset"].
Proof.
  assert (Hb : bound (ready abc)) by (split; eexists; reflexivity).
  rewrite (setting_changed_zoom_reset (ready abc) _ Hb eq_refl eq_refl).
  reflexivity.
Defined.

(** X14: with the editor bound, the [SETTING_FETCHED] hook hands the
    widget the options [getDefaultOptions] returns, read when the
    reaction runs: one [updateOptions] call with the whole options
    object. *)
Theorem setting_fetched_resync (w : World) :
  bound w -> jobs w = [] ->
  hooks w SETTING_FETCHED = [mkHookItem HSettingFetched false] ->
  exists o,
    Service.getDefaultOptions w = (Ok o, w)
    ∧ issued (widget (step (Triggered SETTING_FETCHED tt) w))
      = issued (widget w) ++ [UpdateOptions (OptAll o)].
Proof.
  intros Hb Hj Hh. destruct (bound_handles w Hb) as (mo & ed & Hmo & Hed).
  eexists. split; [reflexivity |].
  unfold step. cbn [perform]. unfold after.
  rewrite (trigger_single w SETTING_FETCHED HSettingFetched tt Hh).
  cbn [Service.invoke]. unfold bind at 1.
  rewrite (whenReady_then_bound w mo ed _ Hmo Hed). cbn [ret snd].
  rewrite (drain_one_reaction _ RUpdateAllOptions (mkHandles mo ed))
    by (cbn [jobs with_jobs]; rewrite Hj; reflexivity).
  reflexivity.
Qed.

Lemma setting_fetched_resync_witness :
  exists o,
    issued (widget (step (Triggered SETTING_FETCHED tt) (ready abc)))
    = [UpdateOptions (OptAll o)]
    ∧ o_tabSize o = SNum 4.
Proof.
  assert (Hb : bound (ready abc)) by (split; eexists; reflexivity).
  destruct (setting_fetched_resync (ready abc) Hb eq_refl eq_refl)
    as (o & Ho & Hi).
  exists o. split; [exact Hi |].
  injection Ho as <-. reflexivity.
Defined.

(** ** The themes *)

(** The [THEME_CHANGE] handler run through the bus. *)
Lemma apply_theme_step (w : World) :
  jobs w = [] -> hooks w THEME_CHANGE = [mkHookItem HApplyTheme false] ->
  result (perform (Triggered THEME_CHANGE tt)) w = Ok tt
  ∧ step (Triggered THEME_CHANGE tt) w
    = match monaco w with
      | Some _ =>
          with_widget
            (issue (SetTheme match colorScheme (env w) with
                             | dark => "vs-dark"
                             | light => "vs"
                             end) (widget w)) w
      | None => w
      end.
Proof.
  intros Hj Hh. unfold step, result, after. cbn [perform].
  rewrite (trigger_single w THEME_CHANGE HApplyTheme tt Hh).
  cbn [Service.invoke]. unfold getColorScheme, Monaco_setTheme, onWidget.
  run_monad.
  destruct (monaco w) as [mo |]; cbn [fst snd];
    (split; [reflexivity |]); apply drain_nothing; exact Hj.
Qed.

(** X15: on [THEME_CHANGE] the service sets the theme that
    [getDefaultOptions] names, by one [setTheme] call and nothing else;
    while [monaco] is unbound the hook changes nothing.  In both cases
    the trigger returns: nothing is thrown. *)
Theorem theme_change_sets_theme (w : World) (o : EditorOptions) :
  jobs w = [] -> hooks w THEME_CHANGE = [mkHookItem HApplyTheme false] ->
  result Service.getDefaultOptions w = Ok o ->
  result (perform (Triggered THEME_CHANGE tt)) w = Ok tt
  ∧ Service.triggerHook THEME_CHANGE tt w
    = (Ok tt, step (Triggered THEME_CHANGE tt) w)
  ∧ step (Triggered THEME_CHANGE tt) w
    = match monaco w with
      | Some _ => with_widget (issue (SetTheme (o_theme o)) (widget w)) w
      | None => w
      end.
Proof.
  intros Hj Hh Ho. destruct (apply_theme_step w Hj Hh) as [Hr Hs].
  split; [exact Hr |]. split.
  - rewrite Hs. cbn [perform] in Hr. unfold result in Hr.
    rewrite (trigger_single w THEME_CHANGE HApplyTheme tt Hh) in *.
    cbn [Service.invoke] in *.
    unfold getColorScheme, Monaco_setTheme, onWidget in *.
    revert Hr. run_monad. destruct (monaco w); reflexivity.
  - rewrite Hs. injection Ho as <-. reflexivity.
Qed.

Lemma theme_change_sets_theme_witness :
  issued (widget (step (Triggered THEME_CHANGE tt) (ready abc)))
  = [SetTheme "vs"]
  ∧ issued (widget (step (Triggered THEME_CHANGE tt) (fresh abc))) = []
  ∧ result (perform (Triggered THEME_CHANGE tt)) (fresh abc) = Ok tt.
Proof.
  destruct (theme_change_sets_theme (ready abc) _ eq_refl eq_refl eq_refl)
    as (_ & _ & H1).
  destruct (theme_change_sets_theme (fresh abc) _ eq_refl eq_refl eq_refl)
    as (H2 & _ & H3).
  split; [rewrite H1; reflexivity |].
  split; [rewrite H3; reflexivity | exact H2].
Defined.

(** X16: [MONACO_BEFORE_INIT] defines the two themes ['vs'] and
    ['vs-dark'] and changes nothing else; the theme a later
    [THEME_CHANGE] sets is one of the two, defined over the base of
    its own name. *)
Theorem before_init_defines_themes (w : World) (mo : MonacoHandle) :
  jobs w = [] ->
  hooks w MONACO_BEFORE_INIT = [mkHookItem HDefineThemes false] ->
  hooks w THEME_CHANGE = [mkHookItem HApplyTheme false] ->
  let w1 := step (Triggered MONACO_BEFORE_INIT mo) w in
  w1 = with_widget (issue (DefineTheme "vs-dark" Service.theme_vs_dark)
                      (issue (DefineTheme "vs" Service.theme_vs) (widget w))) w
  ∧ (is_Some (monaco w) ->
     exists name d,
       step (Triggered THEME_CHANGE tt) w1
       = with_widget (issue (SetTheme name) (widget w1)) w1
       ∧ DefineTheme name d ∈ issued (widget w1)
       ∧ base d = name).
Proof.
  intros Hj Hb Ht. cbv zeta.
  assert (H1 : step (Triggered MONACO_BEFORE_INIT mo) w
               = with_widget
                   (issue (DefineTheme "vs-dark" Service.theme_vs_dark)
                      (issue (DefineTheme "vs" Service.theme_vs) (widget w))) w).
  { unfold step. cbn [perform]. unfold after.
    rewrite (trigger_single w MONACO_BEFORE_INIT HDefineThemes mo Hb).
    cbn [Service.invoke]. unfold Monaco_defineTheme, onWidget. run_monad.
    cbn [fst snd]. apply drain_nothing. exact Hj. }
  split; [exact H1 |]. rewrite H1. intros [mo' Hmo].
  rewrite (proj2 (apply_theme_step (with_widget _ w) Hj Ht)).
  cbn [monaco with_widget widget env issue issued]. rewrite Hmo.
  destruct (colorScheme (env w)).
  - exists "vs"%string, Service.theme_vs. split; [reflexivity |].
    split; [| reflexivity]. set_solver.
  - exists "vs-dark"%string, Service.theme_vs_dark. split; [reflexivity |].
    split; [| reflexivity]. set_solver.
Qed.

Lemma before_init_defines_themes_witness :
  issued (widget (step (Triggered MONACO_BEFORE_INIT 1%nat) (ready abc)))
  = [DefineTheme "vs" Service.theme_vs;
     DefineTheme "vs-dark" Service.theme_vs_dark].
Proof.
  destruct (before_init_defines_themes (ready abc) 1%nat
              eq_refl eq_refl eq_refl) as [H _].
  rewrite H. reflexivity.
Defined.

(** ** Word wrap *)

(** The watcher's callback with the editor bound: the option reaches the
    widget. *)
Lemma drain_wordWrap_changed (w : World) (mo : MonacoHandle)
    (ed : EditorHandle) (v : WordWrap) :
  monaco w = Some mo -> editor w = Some ed ->
  jobs w = [JWordWrapChanged v] ->
  Service.drain w
  = with_widget
      (issue (UpdateOptions (OptWordWrap v))
         (applyOptions (OptWordWrap v) (widget w)))
      (with_jobs []
         (with_promises (promises w ++ [Fulfilled (mkHandles mo ed)]) w)).
Proof.
  intros Hmo Hed Hj. unfold Service.drain. rewrite Hj.
  cbn [map list_sum fold_right Service.jobWeight Nat.add Service.drainN].
  rewrite Hj. cbn [Service.runJob]. unfold after.
  rewrite (whenReady_then_bound (with_jobs [] w) mo ed _ Hmo Hed).
  reflexivity.
Qed.

Lemma commit_wordWrap_reaches_widget (w : World) (v : WordWrap) :
  bound w -> jobs w = [] -> watchers (store w) = [WatchWordWrap] ->
  let w' := Service.drain (after (commit (setWordWrap v)) w) in
  state (store w') = mkState v (typewriterMode (state (store w)))
  ∧ issued (widget w')
    = if WordWrap_eqb (wordWrap (state (store w))) v then issued (widget w)
      else issued (widget w) ++ [UpdateOptions (OptWordWrap v)].
Proof.
  intros Hb Hj Hw. destruct (bound_handles w Hb) as (mo & ed & Hmo & Hed).
  cbv zeta. unfold commit, after, modify. cbn [snd applyMutation wordWrap].
  rewrite Hj, Hw. cbn [app map].
  destruct (WordWrap_eqb (wordWrap (state (store w))) v).
  - rewrite drain_nothing by reflexivity. split; reflexivity.
  - rewrite (drain_wordWrap_changed _ mo ed v) by (assumption || reflexivity).
    split; reflexivity.
Qed.

(** X17: with the editor bound, a commit of [setWordWrap] writes the
    store, and the watcher of the module passes the value on to the
    widget by one [updateOptions] call exactly when the value differs
    from the one the store held. *)
Theorem wordWrap_commit_reaches_widget (w : World) (v : WordWrap) :
  bound w -> jobs w = [] -> watchers (store w) = [WatchWordWrap] ->
  let w' := step (Committed (setWordWrap v)) w in
  wordWrap (state (store w')) = v
  ∧ issued (widget w')
    = if WordWrap_eqb (wordWrap (state (store w))) v then issued (widget w)
      else issued (widget w) ++ [UpdateOptions (OptWordWrap v)].
Proof.
  intros Hb Hj Hw. cbv zeta. unfold step. cbn [perform].
  destruct (commit_wordWrap_reaches_widget w v Hb Hj Hw) as [Hs Hi].
  split; [rewrite Hs; reflexivity | exact Hi].
Qed.

Lemma wordWrap_commit_reaches_widget_witness :
  issued (widget (step (Committed (setWordWrap wrap_off)) (ready abc)))
  = [UpdateOptions (OptWordWrap wrap_off)]
  ∧ issued (widget (step (Committed (setWordWrap wrap_on)) (ready abc))) = [].
Proof.
  assert (Hb : bound (ready abc)) by (split; eexists; reflexivity).
  split.
  - apply (wordWrap_commit_reaches_widget (ready abc) wrap_off
             Hb eq_refl eq_refl).
  - apply (wordWrap_commit_reaches_widget (ready abc) wrap_on
             Hb eq_refl eq_refl).
Defined.

(** X18: with the editor bound, [toggleWrap] reaches the widget through
    the store: the widget gets the value opposite to its viewport
    wrapping by one [updateOptions] call, unless the long lines
    dominate or the store already holds that value; in these two cases
    the widget gets no call. *)
Theorem toggleWrap_reaches_widget (w : World) :
  bound w -> jobs w = [] -> watchers (store w) = [WatchWordWrap] ->
  let info := wrappingInfo (widget w) in
  let v := if isViewportWrapping info then wrap_off else wrap_on in
  let w' := step (Called call_toggleWrap) w in
  issued (widget w')
  = if isDominatedByLongLines info
       || WordWrap_eqb (wordWrap (state (store w))) v
    then issued (widget w)
    else issued (widget w) ++ [UpdateOptions (OptWordWrap v)].
Proof.
  intros Hb Hj Hw. destruct (bound_handles w Hb) as (mo & ed & Hmo & Hed).
  cbv zeta. unfold step. cbn [perform runCall].
  assert (Ht : after Service.toggleWrap w
               = if isDominatedByLongLines (wrappingInfo (widget w))
                 then after (toast_show warning
                               "Word warp dominated by long lines") w
                 else after (commit (setWordWrap
                        (if isViewportWrapping (wrappingInfo (widget w))
                         then wrap_off else wrap_on))) w).
  { unfold Service.toggleWrap, Service.getEditor, Editor_getWrappingInfo, after.
    run_monad. rewrite Hed, Hmo. cbn beta iota.
    destruct (isDominatedByLongLines (wrappingInfo (widget w))); reflexivity. }
  rewrite Ht.
  destruct (isDominatedByLongLines (wrappingInfo (widget w))); cbn [orb].
  - unfold toast_show, after, modify. cbn [snd].
    rewrite drain_nothing by (cbn [jobs with_toasts]; exact Hj). reflexivity.
  - apply (commit_wordWrap_reaches_widget w _ Hb Hj Hw).
Qed.

Lemma toggleWrap_reaches_widget_witness :
  issued (widget (step (Called call_toggleWrap)
                    (step (Committed (setWordWrap wrap_off)) (ready abc))))
  = [UpdateOptions (OptWordWrap wrap_off);
     UpdateOptions (OptWordWrap wrap_on)].
Proof.
  assert (Hb : bound (step (Committed (setWordWrap wrap_off)) (ready abc)))
    by (split; eexists; reflexivity).
  apply (toggleWrap_reaches_widget _ Hb eq_refl eq_refl).
Defined.

(** ** From the load of the module to the ready editor *)

Ltac by_running := vm_compute; reflexivity.

(** X19: loading the module touches neither the widget nor the module
    variables and leaves one pending promise, whose [resolve] waits
    once on [EDITOR_READY], with the typewriter listener as its
    reaction.  The first [MONACO_READY] binds the handles, fulfils the
    promise, consumes the subscription and installs the listener on
    the editor of its payload.  A second [MONACO_READY] binds the
    handles of its own payload and installs no listener: the one
    listener stays that of the first editor. *)
Theorem typewriter_installed_once (d : Widget) (s : State) (e : Env)
    (h h2 : Handles) :
  let w0 := loaded d s e in
  let w1 := step (Triggered MONACO_READY h) w0 in
  let w2 := step (Triggered MONACO_READY h2) w1 in
  (widget w0 = d ∧ monaco w0 = None ∧ editor w0 = None
   ∧ promises w0 = [Pending [RInstallTypewriter]]
   ∧ hooks w0 EDITOR_READY = [mkHookItem (HResolve 0%nat) true])
  ∧ (boundTo h w1
     ∧ cursorListeners (widget w1)
       = cursorListeners d ++ [TypewriterListener (h_editor h)]
     ∧ issued (widget w1) = issued d
     ∧ promises w1 = [Fulfilled h]
     ∧ hooks w1 EDITOR_READY = [])
  ∧ (boundTo h2 w2
     ∧ cursorListeners (widget w2) = cursorListeners (widget w1)
     ∧ promises w2 = promises w1).
Proof.
  cbv zeta. unfold boundTo.
  split; [| split].
  - split; [destruct d; by_running |].
    split; [by_running |]. split; [by_running |].
    split; by_running.
  - split; [split; by_running |].
    split; [by_running |]. split; [by_running |]. split; by_running.
  - split; [split; by_running |]. split; by_running.
Qed.

(** X20: what happens before the editor is ready waits for it.  A
    commit of a new word wrap and a [SETTING_FETCHED] leave the widget
    as it is and add a subscription each on [EDITOR_READY]; the first
    [MONACO_READY] then installs the typewriter listener and hands the
    widget the word wrap and the options, in this order, the options
    as [getDefaultOptions] reads them then, with the new word wrap; no
    subscription is left. *)
Theorem deferred_until_ready (d : Widget) (s : State) (e : Env) (h : Handles)
    (v : WordWrap) :
  wordWrap s <> v ->
  let w0 := run [Committed (setWordWrap v); Triggered SETTING_FETCHED tt]
              (loaded d s e) in
  let w1 := step (Triggered MONACO_READY h) w0 in
  widget w0 = d
  ∧ length (hooks w0 EDITOR_READY) = 3%nat
  ∧ exists o,
      Service.getDefaultOptions w1 = (Ok o, w1)
      ∧ o_wordWrap o = v
      ∧ cursorListeners (widget w1)
        = cursorListeners d ++ [TypewriterListener (h_editor h)]
      ∧ issued (widget w1)
        = issued d
            ++ [UpdateOptions (OptWordWrap v); UpdateOptions (OptAll o)]
      ∧ hooks w1 EDITOR_READY = [].
Proof.
  intros Hv. cbv zeta.
  assert (Hs : s = mkState (wordWrap s) (typewriterMode s))
    by (destruct s; reflexivity).
  rewrite Hs. clear Hs.
  destruct (wordWrap s), v; try (exfalso; apply Hv; reflexivity);
    (split; [destruct d; by_running |]);
    (split; [by_running |]);
    (eexists; split; [reflexivity |]);
    (split; [by_running |]);
    (split; [by_running |]);
    (split; [| by_running]);
    rewrite (cons_middle _ (issued d)), app_assoc; by_running.
Qed.

Lemma deferred_until_ready_witness :
  let w0 := run [Committed (setWordWrap wrap_off);
                 Triggered SETTING_FETCHED tt] (fresh abc) in
  widget w0 = widget_of abc ∧ length (hooks w0 EDITOR_READY) = 3%nat.
Proof.
  assert (Hv : wordWrap (mkState wrap_on false) <> wrap_off)
    by discriminate.
  destruct (deferred_until_ready (widget_of abc) (mkState wrap_on false)
              env0 (mkHandles 1%nat 2%nat) wrap_off Hv) as (H1 & H2 & _).
  split; [exact H1 | exact H2].
Defined.

(** ** The indent and the options *)

Lemma concat_singletons {A} (c : A) (n : nat) :
  concat (replicate n [c]) = replicate n c.
Proof.
  induction n as [| n IH]; cbn; [reflexivity | rewrite IH; reflexivity].
Qed.

(** X21: with [editor] bound, [getOneIndent] returns as many spaces as
    the tab size of the model when its options ask for spaces, throws
    the RangeError of [repeat] for a negative tab size, and returns one
    tab otherwise; it changes nothing and does not need [monaco]. *)
Theorem getOneIndent_width (w : World) (ed : EditorHandle) :
  editor w = Some ed ->
  let options := modelOptions (widget w) in
  (insertSpaces options = true -> 0 <= tabSize options ->
     exists s, Service.getOneIndent w = (Ok s, w)
       ∧ jslength s = tabSize options ∧ Forall (fun c => c = " "%char) s)
  ∧ (insertSpaces options = true -> tabSize options < 0 ->
     Service.getOneIndent w = (Throw RangeError, w))
  ∧ (insertSpaces options = false ->
     Service.getOneIndent w = (Ok ["009"%char], w)).
Proof.
  intros Hed. cbv zeta.
  unfold Service.getOneIndent, Editor_getModel, Model_getOptions, JS.repeat.
  run_monad. rewrite Hed. cbn beta iota.
  split; [| split].
  - intros Hi Ht. rewrite Hi.
    destruct (Z.ltb_spec (tabSize (modelOptions (widget w))) 0) as [? | _];
      [lia |].
    eexists. split; [reflexivity |].
    rewrite concat_singletons. split.
    + unfold jslength. rewrite length_replicate. lia.
    + apply Forall_replicate. reflexivity.
  - intros Hi Ht. rewrite Hi.
    destruct (Z.ltb_spec (tabSize (modelOptions (widget w))) 0) as [_ | ?];
      [reflexivity | lia].
  - intros Hi. rewrite Hi. reflexivity.
Qed.

Lemma getOneIndent_width_witness :
  (exists s, Service.getOneIndent (ready abc) = (Ok s, ready abc)
             ∧ jslength s = 4)
  ∧ Service.getOneIndent
      (with_widget (with_modelOptions (mkModelOptions true (-1))
                      (widget (ready abc))) (ready abc))
    = (Throw RangeError,
       with_widget (with_modelOptions (mkModelOptions true (-1))
                      (widget (ready abc))) (ready abc)).
Proof.
  split.
  - destruct (getOneIndent_width (ready abc) 2%nat eq_refl) as (H & _ & _).
    destruct (H eq_refl ltac:(vm_compute; discriminate)) as (s & Hs & Hl & _).
    exists s. split; [exact Hs | exact Hl].
  - destruct (getOneIndent_width
                (with_widget (with_modelOptions (mkModelOptions true (-1))
                                (widget (ready abc))) (ready abc))
                2%nat eq_refl) as (_ & H & _).
    apply H; [reflexivity | reflexivity].
Defined.

(** X22: [getDefaultOptions] returns in every state, and its options
    carry exactly one of the two overrides that hang on the minimap
    setting: the hidden vertical scrollbar with the minimap left to
    its default, or the minimap disabled with the scrollbar left to
    its default; the theme is one of the two the service defines. *)
Theorem getDefaultOptions_scrollbar_or_minimap (w : World) :
  exists o,
    Service.getDefaultOptions w = (Ok o, w)
    ∧ ((o_scrollbar o = Some ("hidden"%string, 0) ∧ o_minimap o = None)
       ∨ (o_scrollbar o = None ∧ o_minimap o = Some false))
    ∧ (o_theme o = "vs"%string ∨ o_theme o = "vs-dark"%string).
Proof.
  eexists. split; [reflexivity |].
  cbn [o_scrollbar o_minimap o_theme].
  split.
  - destruct (truthy _); [left | right]; split; reflexivity.
  - destruct (colorScheme _); [left | right]; reflexivity.
Qed.

(** ** The buffer stays well formed *)

Lemma wf_onWidget (f : Widget -> Widget) :
  (forall d, wfModel (model d) -> wfModel (model (f d))) ->
  Preserves (fun w => wfModel (model (widget w))) (onWidget f).
Proof. intros Hf. apply preserves_modify. intros w Hw. apply Hf, Hw. Qed.

(** A change of the state that leaves the widget alone. *)
Lemma wf_modify (f : World -> World) :
  (forall w, widget (f w) = widget w) ->
  Preserves (fun w => wfModel (model (widget w))) (modify f).
Proof.
  intros Hf. apply preserves_modify. intros w Hw. rewrite Hf. exact Hw.
Qed.

Lemma executeEdit_wf (op : EditOperation) (d : Widget) :
  wfModel (model d) -> wfModel (model (executeEdit op d)).
Proof.
  intros H. unfold executeEdit.
  destruct (readOnly d); [exact H | apply applyEdit_wf, H].
Qed.

Ltac keeps_wf :=
  repeat first
    [ apply preserves_ret
    | apply preserves_throw
    | apply preserves_gets
    | apply preserves_member
    | apply preserves_orThrow
    | apply wf_onWidget; intros ? ?;
        first [apply executeEdit_wf; assumption | assumption]
    | apply wf_modify; intros ?;
        repeat match goal with
               | |- context [match ?x with _ => _ end] => destruct x
               end; reflexivity
    | match goal with
      | |- Preserves _ (newPromise) => intros ? ?; assumption
      | |- Preserves _ (Promise_resolve _) => intros ? ?; assumption
      end
    | apply preserves_bind; [| intros ?]
    | match goal with
      | |- Preserves _ (match ?x with _ => _ end) => destruct x
      end
    | progress cbv zeta
    | progress unfold_service
    | progress unfold Service.whenEditorReady, toast_show, commit, watch,
        registerHook, removeHook, registerAction, resolvePromise, Promise_then,
        Monaco_defineTheme, Monaco_setTheme, getColorScheme, getSetting ].

Lemma wf_runCall (c : Call) :
  Preserves (fun w => wfModel (model (widget w))) (runCall c).
Proof. destruct c; cbn [runCall]; keeps_wf. Qed.

Lemma wf_runJob (j : Job) :
  Preserves (fun w => wfModel (model (widget w))) (Service.runJob j).
Proof. destruct j as [[] v | ww]; cbn [Service.runJob]; keeps_wf. Qed.

Lemma wf_drainN (n : nat) (w : World) :
  wfModel (model (widget w)) -> wfModel (model (widget (Service.drainN n w))).
Proof.
  revert w. induction n as [| n IH]; intros w Hw; cbn [Service.drainN].
  - exact Hw.
  - destruct (jobs w) as [| j js]; [exact Hw |].
    apply IH, (wf_runJob j). exact Hw.
Qed.

Lemma wf_invoke (tr : forall t, Payload t -> M unit) :
  (forall t' p', True ->
     Preserves (fun w => wfModel (model (widget w))) (tr t' p')) ->
  forall t (f : HookFun t) payload,
    True ->
    Preserves (fun w => wfModel (model (widget w)))
      (Service.invoke tr f payload).
Proof.
  intros Htr t f payload _.
  destruct f; cbn [Service.invoke]; keeps_wf; apply Htr; exact I.
Qed.

Lemma wf_perform (e : Event) :
  match e with WidgetChanged m _ _ => wfModel m | _ => True end ->
  Preserves (fun w => wfModel (model (widget w))) (perform e).
Proof.
  destruct e as [c | t payload | e | name | mu | m s i]; intros He;
    cbn [perform].
  - apply wf_runCall.
  - unfold Service.triggerHook.
    apply (preserves_triggerHookN _ (fun _ => True)).
    + intros t' f _. keeps_wf.
    + exact wf_invoke.
    + exact I.
  - apply preserves_bind; [apply preserves_gets |].
    intros ls. apply preserves_forEach. intros l _. destruct l. keeps_wf.
  - apply preserves_bind; [apply preserves_gets |].
    intros acts. apply preserves_forEach. intros a _.
    unfold runAction. destruct (a_handler a). keeps_wf.
  - keeps_wf.
  - apply wf_onWidget. intros d _. exact He.
Qed.

(** X23: a buffer of at least one line whose lines hold no line
    terminator stays so over every sequence of calls of the exported
    functions, triggers, caret reports, action runs and commits, and
    of changes of the widget to such a buffer: the service never
    leaves the buffer without a line. *)
Theorem buffer_stays_well_formed (es : list Event) (w : World) :
  wfModel (model (widget w)) ->
  Forall (fun e => match e with
                   | WidgetChanged m _ _ => wfModel m
                   | _ => True
                   end) es ->
  wfModel (model (widget (run es w)))
  ∧ 1 <= getLineCount (model (widget (run es w))).
Proof.
  intros Hw Hes.
  assert (H : wfModel (model (widget (run es w)))).
  { revert w Hw. induction Hes as [| e es' He Hes' IH]; intros w Hw;
      cbn [run fold_left]; [exact Hw |].
    apply IH. unfold step. apply wf_drainN, (wf_perform e He), Hw. }
  split; [exact H | apply getLineCount_pos, H].
Qed.

Lemma buffer_stays_well_formed_witness :
  wfModel (model (widget (run [Called (call_deleteLine 1);
                               Called (call_deleteLine 1);
                               Called (call_deleteLine 1);
                               Called (call_setValue [])]
                            (ready abc)))).
Proof.
  apply (buffer_stays_well_formed _ (ready abc) abc_wf).
  repeat constructor.
Defined.

(** ** Two ways to the same buffer *)

(** X24: [replaceLines(line, line, text)] returns or throws as
    [replaceLine(line, text)] does and leaves the same state but for
    the selection: the same buffer, the same focus. *)
Theorem replaceLines_one_line (w : World) (line : Z) (text : jsstring) :
  let w1 := after (Service.replaceLine line text) w in
  let w2 := after (Service.replaceLines line line text) w in
  result (Service.replaceLines line line text) w
  = result (Service.replaceLine line text) w
  ∧ w2 = with_widget (with_selection (selection (widget w2)) (widget w1)) w1.
Proof.
  cbv zeta. unfold result, after. run_cases; cbn [fst snd];
    (split; [reflexivity |]); destruct w as [? ? ? ? ? ? ? ? [] ?]; reflexivity.
Qed.

Lemma replace_dollar_ampersand (s search : jsstring) :
  JS.replace s search ["$"; "&"]%char = s.
Proof.
  unfold JS.replace, JS.indexOf. cbn [Nat.ltb Nat.leb]. rewrite drop_0.
  destruct (JS.indexOfFrom search s 0) as [pos |] eqn:E; [| reflexivity].
  apply indexOfFrom_Some in E as (k & -> & (pre & post & -> & <-) & _).
  cbn [JS.GetSubstitution Ascii.eqb Bool.eqb Nat.add]. rewrite app_nil_r.
  rewrite take_app_length. do 2 f_equal.
  rewrite app_assoc. apply drop_app_length'.
  rewrite length_app. reflexivity.
Qed.

(** X25: the replacement of [replaceValue] is read as a template, not
    as plain text: with the replacement [$&], which stands for the
    match, replacing the first occurrence leaves the buffer as it
    was, whatever the pattern. *)
Theorem replaceValue_reads_a_template (w : World) (search : jsstring) :
  bound w -> wfModel (model (widget w)) ->
  result (Service.replaceValue search ["$"; "&"]%char false) w = Ok tt
  ∧ model (widget (after (Service.replaceValue search ["$"; "&"]%char false) w))
    = model (widget w).
Proof.
  intros Hb Hwf. destruct (bound_handles w Hb) as (mo & ed & Hmo & Hed).
  unfold result, after.
  rewrite (replaceValue_run w ed search _ false Hed).
  rewrite replace_dollar_ampersand.
  destruct (setValue_lines w (Monaco.getValue (model (widget w)) TextDefined)
              Hb Hwf) as (Hr & Hm & _).
  unfold result, after in *. split; [exact Hr |].
  rewrite Hm. destruct (readOnly (widget w)); [reflexivity |].
  unfold Monaco.getValue. cbn [eolOf].
  rewrite splitLines_joinLines_eol by apply Hwf.
  destruct (model (widget w)); reflexivity.
Qed.

Lemma replaceValue_reads_a_template_witness :
  model (widget (after (Service.replaceValue (str "b") ["$"; "&"]%char false)
                   (ready abc)))
  = model (widget (ready abc)).
Proof.
  assert (Hb : bound (ready abc)) by (split; eexists; reflexivity).
  apply (replaceValue_reads_a_template (ready abc) (str "b") Hb abc_wf).
Defined.

(** ** Options that take effect *)

(** The [SETTING_FETCHED] hook with the editor bound. *)
Lemma setting_fetched_step (w : World) (mo : MonacoHandle)
    (ed : EditorHandle) (o : EditorOptions) :
  monaco w = Some mo -> editor w = Some ed -> jobs w = [] ->
  hooks w SETTING_FETCHED = [mkHookItem HSettingFetched false] ->
  result Service.getDefaultOptions w = Ok o ->
  step (Triggered SETTING_FETCHED tt) w
  = with_widget
      (issue (UpdateOptions (OptAll o)) (applyOptions (OptAll o) (widget w)))
      (with_jobs []
         (with_promises (promises w ++ [Fulfilled (mkHandles mo ed)]) w)).
Proof.
  intros Hmo Hed Hj Hh Ho. injection Ho as <-.
  unfold step. cbn [perform]. unfold after.
  rewrite (trigger_single w SETTING_FETCHED HSettingFetched tt Hh).
  cbn [Service.invoke]. unfold bind at 1.
  rewrite (whenReady_then_bound w mo ed _ Hmo Hed). cbn [ret snd].
  rewrite (drain_one_reaction _ RUpdateAllOptions (mkHandles mo ed))
    by (cbn [jobs with_jobs]; rewrite Hj; reflexivity).
  reflexivity.
Qed.

Section Locked.

(** Under the read-only flag, a read-only widget keeps its buffer [m]. *)
Context (m : TextModel).

Lemma locked_onWidget (f : Widget -> Widget) :
  (forall d, model d = m -> readOnly d = true ->
             model (f d) = m ∧ readOnly (f d) = true) ->
  Preserves (fun w => model (widget w) = m ∧ readOnly (widget w) = true
                      ∧ FLAG_READONLY (env w) = true)
    (onWidget f).
Proof.
  intros Hf. apply preserves_modify. intros w (Hm & Hr & He).
  destruct (Hf (widget w) Hm Hr) as [Hm' Hr'].
  split; [exact Hm' |]. split; [exact Hr' | exact He].
Qed.

Lemma locked_modify (f : World -> World) :
  (forall w, widget (f w) = widget w ∧ env (f w) = env w) ->
  Preserves (fun w => model (widget w) = m ∧ readOnly (widget w) = true
                      ∧ FLAG_READONLY (env w) = true)
    (modify f).
Proof.
  intros Hf. apply preserves_modify. intros w Hw.
  destruct (Hf w) as [-> ->]. exact Hw.
Qed.

Lemma locked_updateAllOptions (ed : EditorHandle) :
  Preserves (fun w => model (widget w) = m ∧ readOnly (widget w) = true
                      ∧ FLAG_READONLY (env w) = true)
    (o <- Service.getDefaultOptions ;; Editor_updateOptions ed (OptAll o)).
Proof.
  intros w (Hm & Hr & He). unfold after.
  unfold Service.getDefaultOptions, getColorScheme, getSetting,
    Editor_updateOptions, onWidget.
  run_monad. cbn [snd widget with_widget env].
  split; [exact Hm |]. split; [exact He | exact He].
Qed.

Ltac keeps_locked :=
  repeat first
    [ apply preserves_ret
    | apply preserves_throw
    | apply preserves_gets
    | apply preserves_member
    | apply preserves_orThrow
    | apply locked_updateAllOptions
    | apply locked_onWidget; intros ? ? ?; unfold executeEdit;
        match goal with H : readOnly _ = true |- _ => rewrite ?H end;
        split; first [assumption | reflexivity]
    | apply locked_modify; intros ?;
        repeat match goal with
               | |- context [match ?x with _ => _ end] => destruct x
               end; split; reflexivity
    | match goal with
      | |- Preserves _ (newPromise) => intros ? ?; assumption
      | |- Preserves _ (Promise_resolve _) => intros ? ?; assumption
      end
    | apply preserves_bind; [| intros ?]
    | match goal with
      | |- Preserves _ (match ?x with _ => _ end) => destruct x
      end
    | progress cbv zeta
    | progress unfold Service.getMonaco, Service.getEditor,
        Service.getOneIndent, Service.insert, Service.insertAt,
        Service.replaceLine, Service.replaceLines, Service.deleteLine,
        Service.getLineContent, Service.getLinesContent, Service.getValue,
        Service.setValue, Service.replaceValue, Service.getSelectionInfo,
        Service.toggleWrap, Service.toggleTypewriterMode,
        Service.onCursorPosition, Service.runListener, discard,
        Editor_executeEdits, Editor_setPosition, Editor_focus,
        Editor_getModel, Editor_getSelection, Editor_getWrappingInfo,
        Editor_revealPositionInCenter, Editor_trigger,
        Editor_onDidChangeCursorPosition, Model_getLineLength,
        Model_getLineContent, Model_getLineCount, Model_getValueInRange,
        Model_getValue, Model_getOptions, new_Range, new_Position
    | progress unfold Service.whenEditorReady, toast_show, commit, watch,
        registerHook, removeHook, registerAction, resolvePromise, Promise_then,
        Monaco_defineTheme, Monaco_setTheme, getColorScheme, getSetting ].

Lemma locked_runCall (c : Call) :
  Preserves (fun w => model (widget w) = m ∧ readOnly (widget w) = true
                      ∧ FLAG_READONLY (env w) = true)
    (runCall c).
Proof.
  destruct c; cbn [runCall]; keeps_locked.
Qed.

Lemma locked_runJob (j : Job) :
  Preserves (fun w => model (widget w) = m ∧ readOnly (widget w) = true
                      ∧ FLAG_READONLY (env w) = true)
    (Service.runJob j).
Proof.
  destruct j as [[] v | ww]; cbn [Service.runJob Service.runReaction];
    [unfold Editor_updateOptions | | apply locked_updateAllOptions | |];
    keeps_locked.
Qed.

Lemma locked_drainN (n : nat) (w : World) :
  model (widget w) = m ∧ readOnly (widget w) = true
  ∧ FLAG_READONLY (env w) = true ->
  model (widget (Service.drainN n w)) = m
  ∧ readOnly (widget (Service.drainN n w)) = true
  ∧ FLAG_READONLY (env (Service.drainN n w)) = true.
Proof.
  revert w. induction n as [| n IH]; intros w Hw; cbn [Service.drainN].
  - exact Hw.
  - destruct (jobs w) as [| j js]; [exact Hw |].
    apply IH, (locked_runJob j). exact Hw.
Qed.

Lemma locked_invoke (tr : forall t, Payload t -> M unit) :
  (forall t' p', True ->
     Preserves (fun w => model (widget w) = m ∧ readOnly (widget w) = true
                         ∧ FLAG_READONLY (env w) = true) (tr t' p')) ->
  forall t (f : HookFun t) payload,
    True ->
    Preserves (fun w => model (widget w) = m ∧ readOnly (widget w) = true
                        ∧ FLAG_READONLY (env w) = true)
      (Service.invoke tr f payload).
Proof.
  intros Htr t f payload _.
  destruct f; cbn [Service.invoke]; keeps_locked; apply Htr; exact I.
Qed.

Lemma locked_perform (e : Event) :
  match e with WidgetChanged _ _ _ => False | _ => True end ->
  Preserves (fun w => model (widget w) = m ∧ readOnly (widget w) = true
                      ∧ FLAG_READONLY (env w) = true)
    (perform e).
Proof.
  destruct e as [c | t payload | e | name | mu | m' s i]; intros He;
    cbn [perform].
  - apply locked_runCall.
  - unfold Service.triggerHook.
    apply (preserves_triggerHookN _ (fun _ => True)).
    + intros t' f _. keeps_locked.
    + exact locked_invoke.
    + exact I.
  - apply preserves_bind; [apply preserves_gets |].
    intros ls. apply preserves_forEach. intros l _. destruct l. keeps_locked.
  - apply preserves_bind; [apply preserves_gets |].
    intros acts. apply preserves_forEach. intros a _.
    unfold runAction. destruct (a_handler a). keeps_locked.
  - keeps_locked.
  - destruct He.
Qed.

End Locked.

(** X26: the module hands the widget [readOnly: FLAG_READONLY] with the
    fetched settings.  Started with that flag, and with the editor
    bound, after [SETTING_FETCHED] the widget is read-only and refuses
    every edit: over every sequence of calls of the exported functions,
    triggers, caret reports, action runs and commits the buffer stays
    as it was and the widget stays read-only. *)
Theorem read_only_locks_the_buffer (w : World) (es : list Event) :
  bound w -> jobs w = [] ->
  hooks w SETTING_FETCHED = [mkHookItem HSettingFetched false] ->
  FLAG_READONLY (env w) = true ->
  Forall (fun e => match e with
                   | WidgetChanged _ _ _ => False
                   | _ => True
                   end) es ->
  let w1 := step (Triggered SETTING_FETCHED tt) w in
  readOnly (widget w1) = true
  ∧ model (widget (run es w1)) = model (widget w)
  ∧ readOnly (widget (run es w1)) = true.
Proof.
  intros Hb Hj Hh Hflag Hes. cbv zeta.
  destruct (bound_handles w Hb) as (mo & ed & Hmo & Hed).
  rewrite (setting_fetched_step w mo ed _ Hmo Hed Hj Hh eq_refl).
  set (w1 := with_widget _ _).
  assert (H1 : model (widget w1) = model (widget w)
               ∧ readOnly (widget w1) = true
               ∧ FLAG_READONLY (env w1) = true).
  { split; [reflexivity |]. split; exact Hflag. }
  split; [apply H1 |].
  assert (H : model (widget (run es w1)) = model (widget w)
              ∧ readOnly (widget (run es w1)) = true
              ∧ FLAG_READONLY (env (run es w1)) = true).
  { clearbody w1. revert w1 H1.
    induction Hes as [| e es' He Hes' IH]; intros w1 H1;
      cbn [run fold_left]; [exact H1 |].
    apply IH. unfold step.
    apply locked_drainN, (locked_perform _ e He), H1. }
  split; apply H.
Qed.

Lemma read_only_locks_the_buffer_witness :
  readOnly (widget (locked abc)) = true
  ∧ model (widget (run [Called (call_deleteLine 1);
                        Called (call_setValue []);
                        Triggered SETTING_FETCHED tt;
                        Called (call_insert (str "x"))]
                     (locked abc)))
    = model (widget (readyReadOnly abc)).
Proof.
  assert (Hb : bound (readyReadOnly abc)) by (split; eexists; reflexivity).
  destruct (read_only_locks_the_buffer (readyReadOnly abc)
              [Called (call_deleteLine 1);
               Called (call_setValue []);
               Triggered SETTING_FETCHED tt;
               Called (call_insert (str "x"))]
              Hb eq_refl eq_refl eq_refl) as (H1 & H2 & _).
  - repeat constructor.
  - split; [exact H1 | exact H2].
Defined.




(** One [toggleWrap] that reaches the widget. *)
Lemma toggleWrap_step (w : World) (mo : MonacoHandle) (ed : EditorHandle) :
  monaco w = Some mo -> editor w = Some ed -> jobs w = [] ->
  watchers (store w) = [WatchWordWrap] ->
  isDominatedByLongLines (wrappingInfo (widget w)) = false ->
  let v := if isViewportWrapping (wrappingInfo (widget w))
           then wrap_off else wrap_on in
  WordWrap_eqb (wordWrap (state (store w))) v = false ->
  step (Called call_toggleWrap) w
  = with_widget
      (issue (UpdateOptions (OptWordWrap v))
         (applyOptions (OptWordWrap v) (widget w)))
      (with_jobs []
         (with_promises (promises w ++ [Fulfilled (mkHandles mo ed)])
            (with_store
               (mkStore (mkState v (typewriterMode (state (store w))))
                        (committed (store w) ++ [setWordWrap v])
                        (watchers (store w))) w))).
Proof.
  intros Hmo Hed Hj Hw Hd v Hne. unfold step. cbn [perform runCall].
  assert (Ht : after Service.toggleWrap w = after (commit (setWordWrap v)) w).
  { unfold Service.toggleWrap, Service.getEditor, Editor_getWrappingInfo, after.
    run_monad. rewrite Hed, Hmo. cbn beta iota. rewrite Hd. reflexivity. }
  rewrite Ht. unfold commit, after, modify.
  cbn [snd applyMutation wordWrap]. rewrite Hne, Hj, Hw. cbn [app map].
  rewrite (drain_wordWrap_changed _ mo ed v) by (assumption || reflexivity).
  reflexivity.
Qed.

(** X28: with the editor bound, the long lines not dominating, and the
    viewport wrapping as the store says, [toggleWrap] commits the other
    value and the widget wraps accordingly; a second [toggleWrap]
    brings the store and the wrapping of the widget back, the widget
    having been given the two values one after the other. *)
Theorem toggleWrap_twice (w : World) :
  bound w -> jobs w = [] -> watchers (store w) = [WatchWordWrap] ->
  wrappingInfo (widget w)
  = mkWrappingInfo false (WordWrap_eqb (wordWrap (state (store w))) wrap_on) ->
  let v := wordWrap (state (store w)) in
  let v' := match v with wrap_on => wrap_off | wrap_off => wrap_on end in
  let w1 := step (Called call_toggleWrap) w in
  let w2 := step (Called call_toggleWrap) w1 in
  wordWrap (state (store w1)) = v'
  ∧ isViewportWrapping (wrappingInfo (widget w1)) = WordWrap_eqb v' wrap_on
  ∧ wordWrap (state (store w2)) = v
  ∧ wrappingInfo (widget w2) = wrappingInfo (widget w)
  ∧ issued (widget w2)
    = issued (widget w)
        ++ [UpdateOptions (OptWordWrap v'); UpdateOptions (OptWordWrap v)].
Proof.
  intros Hb Hj Hw Hinfo. cbv zeta.
  destruct (bound_handles w Hb) as (mo & ed & Hmo & Hed).
  assert (H1 : step (Called call_toggleWrap) w = _)
    by (apply (toggleWrap_step w mo ed Hmo Hed Hj Hw);
        [rewrite Hinfo; reflexivity
        | rewrite Hinfo; cbn [isViewportWrapping];
          destruct (wordWrap (state (store w))); reflexivity]).
  rewrite H1.
  set (w1 := with_widget _ _) in *.
  assert (H2 : step (Called call_toggleWrap) w1 = _)
    by (apply (toggleWrap_step w1 mo ed Hmo Hed eq_refl Hw);
        [subst w1; cbn; rewrite Hinfo; reflexivity
        | subst w1; cbn; rewrite Hinfo; cbn;
          destruct (wordWrap (state (store w))); reflexivity]).
  rewrite H2. subst w1.
  cbn [store with_widget with_jobs with_promises with_store state wordWrap
       widget issue applyOptions with_wrappingInfo wrappingInfo issued
       wrapTo isViewportWrapping isDominatedByLongLines].
  rewrite Hinfo.
  cbn [isViewportWrapping isDominatedByLongLines orb].
  rewrite <- app_assoc. cbn [app].
  destruct (wordWrap (state (store w))); cbn; repeat split; reflexivity.
Qed.

Lemma toggleWrap_twice_witness :
  let w := step (Committed (setWordWrap wrap_off)) (ready abc) in
  wordWrap (state (store (run [Called call_toggleWrap; Called call_toggleWrap]
                            w)))
  = wrap_off.
Proof.
  intros w.
  assert (Hb : bound w) by (split; eexists; reflexivity).
  destruct (toggleWrap_twice w Hb eq_refl eq_refl eq_refl)
    as (_ & _ & H & _).
  exact H.
Defined.
